(** * FlowCrypt browser extension: the cross-context message bus

    A shallow embedding of [BrowserMsg] (browser-msg.ts), of the result
    shaping of [GoogleOAuth.newAuthPopup] (google-oauth.ts) and of the
    path-traversal guard of [Api] (api.ts), with the properties the
    specification states about them.  Further modules embed [Api.apiCall],
    the token functions of [GoogleOAuth] and the handlers of the pass
    phrase dialog ([PassphraseView]), with properties read off the code.

    Conventions.
    - A JavaScript value is a term of [Js.value]; a plain object keeps its
      own properties in insertion order, which is the order [Object.keys]
      enumerates them in.
    - A promise is modelled by its eventual outcome ([Js.Promise]).
    - Code of the collaborators that is not part of the three source files
      (blob URLs, symmetric encryption, [Catch], the browser's messaging
      primitives) enters either as an explicit argument or as a definition
      whose comment starts with "Modelled from the spec". *)

From Stdlib Require Import ZArith Strings.Byte.
From stdpp Require Import base tactics option list gmap strings pretty.

Set Warnings "-register-all,-clear-no-such-hyp".


(* ===================================================================== *)
(** * JavaScript values, objects, errors and promises                     *)
(* ===================================================================== *)

Module Js.

(** [unknown] payload data.  [VBuf] is a [Uint8Array] (and so a [Buf],
    which extends it); [VObj] is a plain object.  Arrays are objects whose
    keys are the index strings and are written as [VObj]. *)
Inductive value : Type :=
| VUndefined
| VNull
| VBool (b : bool)
| VNum (n : Z)
| VStr (s : string)
| VBuf (bytes : list byte)
| VObj (fields : list (string * value)).

(** [Dict<T>]: own properties in insertion order. *)
Abbreviation Dict A := (list (string * A)).

(** [d[k]] for an own property. *)
Fixpoint dict_get {A} (k : string) (d : Dict A) : option A :=
  match d with
  | [] => None
  | (k', v) :: d' => if decide (k = k') then Some v else dict_get k d'
  end.

(** [d[k] = v]: an existing property keeps its place, a new one goes last. *)
Fixpoint dict_set {A} (k : string) (v : A) (d : Dict A) : Dict A :=
  match d with
  | [] => [(k, v)]
  | (k', v') :: d' =>
      if decide (k = k') then (k, v) :: d' else (k', v') :: dict_set k v d'
  end.

(** [Object.keys(d)]. *)
Definition keys {A} (d : Dict A) : list string := d.*1.

(** [obj[k]] read as a value: a missing property reads [undefined]. *)
Definition obj_get (k : string) (o : Dict value) : value :=
  default VUndefined (dict_get k o).

(** [!!v] *)
Definition truthy (v : value) : bool :=
  match v with
  | VUndefined | VNull => false
  | VBool b => b
  | VNum n => negb (n =? 0)%Z
  | VStr s => negb (bool_decide (s = ""))
  | VBuf _ | VObj _ => true
  end.

(** [typeof v === 'object'] *)
Definition typeof_object (v : value) : bool :=
  match v with
  | VNull | VBuf _ | VObj _ => true
  | _ => false
  end.

(** Truthiness of an optional string field ([s?: string]). *)
Definition truthy_str (s : option string) : bool :=
  match s with
  | Some s => negb (bool_decide (s = ""))
  | None => false
  end.

(** The fields [errToJson] reads off an [AjaxErr]. *)
Record AjaxErrDetails : Type := {
  status : Z;
  url : string;
  responseText : string;
  statusText : string;
  resMsg : option string;
  resDetails : option string;
}.

(** The error classes the bus constructs or tests with [instanceof]. *)
Inductive ErrClass : Type :=
| ClsError
| ClsTypeError
| ClsBgNotReadyErr
| ClsAssertError
| ClsAjaxErr (details : AjaxErrDetails).

Record JsError : Type := {
  cls : ErrClass;
  message : string;
  stack : option string;
}.

(** What a [throw] or a rejection carries: an [Error] object or any value. *)
Inductive thrown : Type :=
| ThrowErr (e : JsError)
| ThrowVal (v : value).

(** The eventual outcome of a promise. *)
Inductive Promise (A : Type) : Type :=
| Resolved (a : A)
| Rejected (e : thrown)
| Pending.
Arguments Resolved {A} a.
Arguments Rejected {A} e.
Arguments Pending {A}.

(** [hay.includes(needle)] on strings. *)
Fixpoint includes (needle hay : string) : bool :=
  String.prefix needle hay ||
  match hay with
  | EmptyString => false
  | String _ hay' => includes needle hay'
  end.

(** [hay] has [needle] as a substring. *)
Definition contains (needle hay : string) : Prop :=
  ∃ pre post, hay = pre +:+ needle +:+ post.

(** Template-literal rendering of an optional string: [`${s}`]. *)
Definition show_opt (s : option string) : string :=
  match s with Some s => s | None => "undefined" end.

End Js.

Import Js.

(* ===================================================================== *)
(** * Blob URLs ([Browser.objUrlCreate] / [Browser.objUrlConsume])        *)
(* ===================================================================== *)

Module Browser.

(** Modelled from the spec: [Browser.objUrlCreate] and
    [Browser.objUrlConsume] (browser.ts) are not among the source files.
    The spec gives the transport-level blob storage as
    [create(bytes) -> handle] and [consume(handle) -> bytes], "consuming
    and invalidating the handle exactly once".  Handles are never reused:
    the store numbers them. *)
Record BlobStore : Type := {
  next_handle : N;
  blobs : gmap string (list byte);
}.

Definition handle_of (n : N) : string := "blob:" +:+ pretty n.

Definition empty_store : BlobStore := {| next_handle := 0; blobs := ∅ |}.

(** Modelled from the spec: [create(bytes) -> handle]. *)
Definition objUrlCreate (content : list byte) (st : BlobStore)
  : string * BlobStore :=
  let h := handle_of (next_handle st) in
  (h, {| next_handle := N.succ (next_handle st);
         blobs := <[h := content]> (blobs st) |}).

(** The rejection of a read through a handle that holds nothing. *)
Definition consume_failure (h : string) : thrown :=
  ThrowErr {| cls := ClsError;
              message := "objUrlConsume: nothing to read at " +:+ h;
              stack := None |}.

(** Modelled from the spec: [consume(handle) -> bytes], invalidating the
    handle; a handle that was consumed before, or never created, fails. *)
Definition objUrlConsume (h : string) (st : BlobStore)
  : (thrown + list byte) * BlobStore :=
  match blobs st !! h with
  | Some content =>
      (inr content, {| next_handle := next_handle st;
                       blobs := delete h (blobs st) |})
  | None => (inl (consume_failure h), st)
  end.

(** Every live handle was numbered below the counter. *)
Definition store_wf (st : BlobStore) : Prop :=
  ∀ n, is_Some (blobs st !! handle_of n) → (n < next_handle st)%N.

End Browser.

Import Browser.

(* ===================================================================== *)
(** * The message bus ([BrowserMsg])                                      *)
(* ===================================================================== *)

Module BrowserMsg.

(** ** Binary indirection *)

(** The loop of [replaceBufWithObjUrlInplace] over [Object.keys(obj)]:
    a property that holds a [Uint8Array] gets a fresh object URL recorded
    under its name and is overwritten with [undefined]. *)
Fixpoint replaceBuf_loop (names : list string) (obj : Dict value)
    (objUrls : Dict string) (st : BlobStore)
  : Dict string * Dict value * BlobStore :=
  match names with
  | [] => (objUrls, obj, st)
  | possibleBufName :: rest =>
      match obj_get possibleBufName obj with
      | VBuf possibleBufs =>
          let '(u, st') := objUrlCreate possibleBufs st in
          replaceBuf_loop rest (dict_set possibleBufName VUndefined obj)
                          (dict_set possibleBufName u objUrls) st'
      | _ => replaceBuf_loop rest obj objUrls st
      end
  end.

(** [replaceBufWithObjUrlInplace(requestOrResponse)]: the object URLs, the
    argument as the call leaves it (it is updated in place), and the blob
    store.  A value that is not an object is left alone; a [Uint8Array]
    has only index keys holding numbers, so nothing in it is replaced. *)
Definition replaceBufWithObjUrlInplace (requestOrResponse : value)
    (st : BlobStore) : Dict string * value * BlobStore :=
  match requestOrResponse with
  | VObj obj =>
      let '(objUrls, obj', st') := replaceBuf_loop (keys obj) obj [] st in
      (objUrls, VObj obj', st')
  | _ => ([], requestOrResponse, st)
  end.

(** The loop of [replaceObjUrlWithBuf] over [Object.keys(objUrls)]; each
    [await Browser.objUrlConsume] either yields the bytes or rejects the
    whole call, leaving the store as the reads so far left it. *)
Fixpoint replaceObjUrl_loop (names : list string) (objUrls : Dict string)
    (obj : Dict value) (st : BlobStore)
  : (thrown + Dict value) * BlobStore :=
  match names with
  | [] => (inr obj, st)
  | consumableObjUrlName :: rest =>
      match dict_get consumableObjUrlName objUrls with
      | Some u =>
          match objUrlConsume u st with
          | (inr content, st') =>
              replaceObjUrl_loop rest objUrls
                (dict_set consumableObjUrlName (VBuf content) obj) st'
          | (inl e, st') => (inl e, st')
          end
      | None => replaceObjUrl_loop rest objUrls obj st
      end
  end.

(** [replaceObjUrlWithBuf(requestOrResponse, objUrls)].  [objUrls] is
    [None] when the field is missing.  On a [Uint8Array] the loop runs as
    on any object, but the named properties it sets are no part of the
    bytes, and [value] does not show them. *)
Definition replaceObjUrlWithBuf (requestOrResponse : value)
    (objUrls : option (Dict string)) (st : BlobStore)
  : Promise value * BlobStore :=
  match requestOrResponse, objUrls with
  | VObj obj, Some objUrls =>
      match replaceObjUrl_loop (keys objUrls) objUrls obj st with
      | (inr obj', st') => (Resolved (VObj obj'), st')
      | (inl e, st') => (Rejected e, st')
      end
  | VBuf _, Some objUrls =>
      match replaceObjUrl_loop (keys objUrls) objUrls [] st with
      | (inr _, st') => (Resolved requestOrResponse, st')
      | (inl e, st') => (Rejected e, st')
      end
  | _, _ => (Resolved requestOrResponse, st)
  end.

(** ** Wire types ([namespace Bm]) *)

(** [Bm.ErrAsJson]; the constructor is the [errorConstructor] tag. *)
Inductive ErrAsJson : Type :=
| StandardErrAsJson (stack : option string) (message : string)
| AjaxErrAsJson (stack : option string) (message : string)
                (ajaxErrorDetails : AjaxErrDetails).

Definition json_stack (j : ErrAsJson) : option string :=
  match j with StandardErrAsJson s _ | AjaxErrAsJson s _ _ => s end.

Definition json_message (j : ErrAsJson) : string :=
  match j with StandardErrAsJson _ m | AjaxErrAsJson _ m _ => m end.

(** [Bm.RawResponse] ([resObjUrls] is its [objUrls] field). *)
Record RawResponse : Type := {
  result : value;
  resObjUrls : Dict string;
  exception : option ErrAsJson;
}.

(** [Bm.Raw], with the optional [responseName] of
    [RawWithWindowExtensions] (its [propagateToParent] is only ever read
    and set on the encrypted message); [data_bm] and [data_objUrls] are
    [data.bm] and [data.objUrls], [to] is [None] for [null]. *)
Record Raw : Type := {
  name : string;
  data_bm : value;
  data_objUrls : Dict string;
  to : option string;
  uid : string;
  stack : string;
  responseName : option string;
}.

(** Modelled from the spec: [SymEncryptedMessage] and
    [SymmetricMessageEncryption] (symmetric-message-encryption.ts) are not
    among the source files.  The spec gives the collaborator as
    [encrypt(envelope) -> ciphertextEnvelope] and
    [decrypt(ciphertextEnvelope) -> envelope], the envelope id being the
    nonce.  The listener reads [uid], [to] and [propagateToParent] off the
    ciphertext envelope without decrypting, so these travel in the clear;
    [sealed] stands for the ciphertext. *)
Record SymEncryptedMessage : Type := {
  euid : string;
  eto : string;
  epropagateToParent : bool;
  sealed : Raw;
}.

(** Modelled from the spec: [SymmetricMessageEncryption.encrypt], applied
    to a message whose destination [dest] is not [null]. *)
Definition encrypt (dest : string) (msg : Raw) : SymEncryptedMessage :=
  {| euid := uid msg; eto := dest; epropagateToParent := false;
     sealed := msg |}.

(** Modelled from the spec: [SymmetricMessageEncryption.decrypt]. *)
Definition decrypt (encryptedMsg : SymEncryptedMessage) : Raw :=
  sealed encryptedMsg.

(** ** The context a piece of bus code runs in *)

(** Windows are named by numbers. *)
Abbreviation Win := nat.

(** An [iframe] element of the document: its [contentWindow] and
    [new URL(iframe.src).origin], [None] where the constructor throws. *)
Record Iframe : Type := {
  contentWindow : option Win;
  srcOrigin : option string;
}.

Record Env : Type := {
  isBackgroundPage : bool;        (* Env.isBackgroundPage() *)
  extensionOrigin : string;       (* Env.getExtensionOrigin() *)
  chrome_runtime : bool;          (* chrome.runtime is there *)
  window : Win;
  parents : list Win;             (* window.parent, its parent, ..., top *)
  iframes : list Iframe;          (* document.querySelectorAll('iframe') *)
  activeTabs : list (option Z);   (* [tab.id] of each tab that
                                     chrome.tabs.query({active: true,
                                     currentWindow: true}) finds *)
  callInherited : string → value → thrown + value;
                                  (* [Object.prototype[name](bm)]: what
                                     calling a member of Object.prototype
                                     as a handler is called does *)
  stackTrace : string;            (* Catch.stackTrace() *)
  newErrorStack : string → string;(* the stack of [new Error(message)] *)
  rewrapErr : thrown → string → JsError;   (* Catch.rewrapErr *)
}.

(** [(req) => Promise<Res>] *)
Abbreviation Handler := (value → Promise value).

(** [Dict<Handler>] *)
Abbreviation Handlers := (gmap string Handler).

(** The static mutable state of [BrowserMsg] in one context, and the blob
    store its origin shares. *)
Record State : Type := {
  processed : gset string;
  store : BlobStore;
}.

(** What running a piece of bus code does to the outside, in order. *)
Inductive effect : Type :=
| Invoke (id : option string) (name : string) (req : value)
| Respond (r : RawResponse)
| PostMessage (target : Win) (m : SymEncryptedMessage) (targetOrigin : string)
| RuntimeSendMessage (msg : Raw)
| TabsSendMessage (tabId : option Z) (msg : Raw)
| SendRawTo (dest : value) (name : string) (bm : value) (objUrls : Dict string)
| ReportErr (e : thrown)
| RenderFatalErrCorner (message style : string).

Definition nl : string := String (Ascii.ascii_of_nat 10) "".

(** [new Error(message)] and [new BgNotReadyErr(message)] *)
Definition new_Error (env : Env) (c : ErrClass) (message : string) : JsError :=
  {| cls := c; Js.message := message;
     Js.stack := Some (newErrorStack env message) |}.

(** ** Registries *)

(** [addListener] / [bgAddListener]: the last registration wins. *)
Definition addListener (name : string) (handler : Handler)
    (HANDLERS_REGISTERED : Handlers) : Handlers :=
  <[name := handler]> HANDLERS_REGISTERED.

(** The initial frame registry; the three handlers are
    [BrowserMsgCommonHandlers]'. *)
Definition HANDLERS_REGISTERED_FRAME_init (setCss addClass removeClass : Handler)
  : Handlers :=
  <["set_css" := setCss]> (<["add_class" := addClass]>
    (<["remove_class" := removeClass]> ∅)).

(** The names every plain object inherits from [Object.prototype].  The
    registries are plain objects ([Handlers = {}]), so [HANDLERS[name]]
    finds a value under these names too. *)
Definition Object_prototype_names : list string :=
  ["constructor"; "__defineGetter__"; "__defineSetter__"; "hasOwnProperty";
   "__lookupGetter__"; "__lookupSetter__"; "isPrototypeOf";
   "propertyIsEnumerable"; "toString"; "valueOf"; "__proto__";
   "toLocaleString"].

(** What [HANDLERS[name]] reads: a registered handler, a member that the
    registry inherits, or [undefined]. *)
Inductive Registered : Type :=
| OwnHandler (handler : Handler)
| Inherited (name : string).

Definition HANDLERS_get (HANDLERS_REGISTERED : Handlers) (name : string)
  : option Registered :=
  match HANDLERS_REGISTERED !! name with
  | Some handler => Some (OwnHandler handler)
  | None =>
      if bool_decide (name ∈ Object_prototype_names)
      then Some (Inherited name) else None
  end.

(** ** Error marshalling *)

Definition errToJson (env : Env) (e : thrown) : ErrAsJson :=
  match e with
  | ThrowErr {| cls := ClsAjaxErr details; Js.message := message;
                Js.stack := stack |} =>
      AjaxErrAsJson stack message details
  | _ =>
      let e' := rewrapErr env e "sendRawResponse" in
      StandardErrAsJson (Js.stack e') (Js.message e')
  end.

Definition stackInfo (errAsJson : ErrAsJson) (msg : Raw) : string :=
  nl +:+ nl +:+ "[callerStack]" +:+ nl +:+ stack msg +:+ nl +:+
  "[/callerStack]" +:+ nl +:+ nl +:+ "[responderStack]" +:+ nl +:+
  show_opt (json_stack errAsJson) +:+ nl +:+ "[/responderStack]" +:+ nl.

(** [jsonToErr].  Modelled from the spec: the constructor of [AjaxErr]
    (api-error.ts) is not among the source files; it keeps the arguments
    it is given ("a typed network-failure error with status/url/response
    fields intact"). *)
Definition jsonToErr (env : Env) (errAsJson : ErrAsJson) (msg : Raw) : JsError :=
  let message :=
    "BrowserMsg(" +:+ name msg +:+ ") " +:+ json_message errAsJson in
  match errAsJson with
  | AjaxErrAsJson _ _ details =>
      {| cls := ClsAjaxErr details; Js.message := message;
         Js.stack := Some (stackInfo errAsJson msg) |}
  | StandardErrAsJson _ _ =>
      {| cls := ClsError; Js.message := message;
         Js.stack := Some (newErrorStack env message +:+
                           stackInfo errAsJson msg) |}
  end.

(** [sendRawResponse]: what [rawRespond] is called with, if it is called.
    A handler promise that never settles never responds. *)
Definition sendRawResponse (env : Env) (handlerPromise : Promise value)
    (st : BlobStore) : option RawResponse * BlobStore :=
  match handlerPromise with
  | Resolved result =>
      let '(objUrls, result', st') := replaceBufWithObjUrlInplace result st in
      (Some {| result := result'; exception := None; resObjUrls := objUrls |},
       st')
  | Rejected e =>
      (Some {| result := VUndefined; exception := Some (errToJson env e);
               resObjUrls := [] |}, st)
  | Pending => (None, st)
  end.

(** The chain both listeners run once they have a handler:
    [replaceObjUrlWithBuf(msg.data.bm, msg.data.objUrls)
       .then(bm => sendRawResponse(handler(bm), rawRespond))
       .catch(e => sendRawResponse(Promise.reject(e), rawRespond))]. *)
Definition dispatch (env : Env) (handler : Handler) (msg : Raw)
    (rawRespond : RawResponse → BlobStore → list effect) (st : BlobStore)
  : list effect * BlobStore :=
  let respond (p : Promise value) (st : BlobStore) :=
    match sendRawResponse env p st with
    | (Some r, st') => (rawRespond r st', st')
    | (None, st') => ([], st')
    end in
  match replaceObjUrlWithBuf (data_bm msg) (Some (data_objUrls msg)) st with
  | (Resolved bm, st') =>
      let '(effs, st'') := respond (handler bm) st' in
      (Invoke (Some (uid msg)) (name msg) bm :: effs, st'')
  | (Rejected e, st') => respond (Rejected e) st'
  | (Pending, st') => ([], st')
  end.

(** [handlerPromise.then(..)] where [handlerPromise] is the value [v] and
    no promise: the [TypeError] that the [catch] of [sendRawResponse]
    answers with. *)
Definition not_a_promise (env : Env) (v : value) : thrown :=
  ThrowErr (new_Error env ClsTypeError
    match v with
    | VUndefined => "Cannot read properties of undefined (reading 'then')"
    | VNull => "Cannot read properties of null (reading 'then')"
    | _ => "handlerPromise.then is not a function"
    end).

(** The same chain when [handler] is a member inherited from
    [Object.prototype]: the call either throws, which the [catch] of the
    chain answers, or returns a value that is no promise, on which
    [sendRawResponse] fails and answers.  No registered handler runs. *)
Definition dispatch_inherited (env : Env) (inherited : string) (msg : Raw)
    (rawRespond : RawResponse → BlobStore → list effect) (st : BlobStore)
  : list effect * BlobStore :=
  let respond (e : thrown) (st : BlobStore) :=
    (rawRespond {| result := VUndefined; exception := Some (errToJson env e);
                   resObjUrls := [] |} st, st) in
  match replaceObjUrlWithBuf (data_bm msg) (Some (data_objUrls msg)) st with
  | (Resolved bm, st') =>
      match callInherited env inherited bm with
      | inl e => respond e st'
      | inr v => respond (not_a_promise env v) st'
      end
  | (Rejected e, st') => respond e st'
  | (Pending, st') => ([], st')
  end.

(** ** Receiving *)

(** [handleMsg]: whether a handler was started, what happened, the state.
    [typeof HANDLERS_REGISTERED_FRAME[msg.name] !== 'undefined'] holds of
    a registered name and of an inherited one.  Nothing inside its [try]
    throws here: the failures of the chain come back through the chain's
    own [catch]. *)
Definition handleMsg (env : Env) (HANDLERS_REGISTERED_FRAME : Handlers)
    (msg : Raw) (rawRespond : RawResponse → BlobStore → list effect)
    (s : State)
  : bool * list effect * State :=
  if decide (uid msg ∈ processed s) then
    (* a duplicate request *)
    (false, [], s)
  else
    let processed' := {[uid msg]} ∪ processed s in
    match HANDLERS_get HANDLERS_REGISTERED_FRAME (name msg) with
    | Some (OwnHandler handler) =>
        let '(effs, st') := dispatch env handler msg rawRespond (store s) in
        (true, effs, {| processed := processed'; store := st' |})
    | Some (Inherited inherited) =>
        let '(effs, st') :=
          dispatch_inherited env inherited msg rawRespond (store s) in
        (true, effs, {| processed := processed'; store := st' |})
    | None => (false, [], {| processed := processed'; store := store s |})
    end.

(** [[dest, 'broadcast'].includes(to)] *)
Definition addressed (dest : string) (to : string) : bool :=
  bool_decide (to = dest) || bool_decide (to = "broadcast").

(** The [chrome.runtime.onMessage] listener [listen(dest)] installs; the
    boolean is what the listener returns (it will respond). *)
Definition listen_onMessage (env : Env) (HANDLERS_REGISTERED_FRAME : Handlers)
    (dest : string) (msg : Raw) (s : State) : bool * list effect * State :=
  match to msg with
  | Some t =>
      if negb (bool_decide (t = "")) && addressed dest t then
        let '(_, effs, s') :=
          handleMsg env HANDLERS_REGISTERED_FRAME msg (λ r _, [Respond r]) s in
        (true, effs, s')
      else (false, [], s)
  | None => (false, [], s)
  end.

(** [respondIfPageStillOpen]: [port] is [None] when [rawRespond] takes the
    response and [Some e] when it throws [e]. *)
Definition respondIfPageStillOpen (env : Env) (msg : Raw)
    (port : option thrown) (response : RawResponse) (_ : BlobStore)
  : list effect :=
  match port with
  | None => [Respond response]
  | Some cannotRespondErr =>
      match cannotRespondErr with
      | ThrowErr e =>
          if bool_decide (Js.message e =
                          "Attempting to use a disconnected port object")
          then []
          else
            let e' := {| cls := cls e; Js.message := Js.message e;
                         Js.stack := Some (show_opt (Js.stack e) +:+ nl +:+ nl
                           +:+ "Original msg sender stack: " +:+ stack msg) |} in
            [ReportErr (ThrowErr (rewrapErr env (ThrowErr e')
               ("BrowserMsg.bgListen.respondIfPageStillOpen:" +:+ name msg)))]
      | ThrowVal _ =>
          [ReportErr (ThrowErr (rewrapErr env cannotRespondErr
             ("BrowserMsg.bgListen.respondIfPageStillOpen:" +:+ name msg)))]
      end
  end.

(** The [chrome.runtime.onMessage] listener [bgListen()] installs.
    [Object.keys(HANDLERS_REGISTERED_BACKGROUND).includes(msg.name)]
    is membership in the registry; the dedup ledger is not consulted. *)
Definition bgListen_onMessage (env : Env)
    (HANDLERS_REGISTERED_BACKGROUND : Handlers) (port : option thrown)
    (msg : Raw) (st : BlobStore) : bool * list effect * BlobStore :=
  match HANDLERS_REGISTERED_BACKGROUND !! name msg with
  | Some handler =>
      let '(effs, st') :=
        dispatch env handler msg (respondIfPageStillOpen env msg port) st in
      (true, effs, st')
  | None => (false, [], st)
  end.

(** ** Window messaging *)

(** [{ ...encryptedMsg, propagateToParent: true }] *)
Definition withPropagationFlag (encryptedMsg : SymEncryptedMessage)
  : SymEncryptedMessage :=
  {| euid := euid encryptedMsg; eto := eto encryptedMsg;
     epropagateToParent := true; sealed := sealed encryptedMsg |}.

(** The loop of [sendUpParentLine]: [w] walks [chain], and every round
    posts to [window.parent]. *)
Fixpoint sendUpParentLine_loop (chain : list Win) (window_parent : Win)
    (m : SymEncryptedMessage) : list effect :=
  match chain with
  | [] => []
  | w :: chain' =>
      PostMessage window_parent m "*"
        :: sendUpParentLine_loop chain' window_parent m
  end.

Definition sendUpParentLine (env : Env) (encryptedMsg : SymEncryptedMessage)
  : list effect :=
  let encryptedWithPropagationFlag := withPropagationFlag encryptedMsg in
  match parents env with
  | [] => []
  | window_parent :: _ =>
      sendUpParentLine_loop (parents env) window_parent
                            encryptedWithPropagationFlag
  end.

Definition childFramesWithExtensionOrigin (env : Env) : list Iframe :=
  filter (λ iframe, srcOrigin iframe = Some (extensionOrigin env))
         (iframes env).


(** [sendToChildren]: [childFrame.contentWindow?.postMessage(..)]. *)
Definition sendToChildren (env : Env) (encryptedMsg : SymEncryptedMessage)
  : list effect :=
  omap (λ childFrame,
          match contentWindow childFrame with
          | Some w => Some (PostMessage w encryptedMsg (extensionOrigin env))
          | None => None
          end)
       (childFramesWithExtensionOrigin env).

(** [sendToParentWindow]; [iv] is [SymmetricMessageEncryption.generateIV()]. *)
Definition sendToParentWindow (env : Env) (parentTabId : string)
    (name : string) (bm : value) (responseName : option string) (iv : string)
  : list effect :=
  let raw := {| data_bm := bm; data_objUrls := []; name := name; stack := "";
                to := Some parentTabId; uid := iv;
                responseName := responseName |} in
  sendUpParentLine env (encrypt parentTabId raw).

(** ** Sending *)

(** What the callback of [chrome.runtime.sendMessage] is given: a value
    that is not an object, or a [RawResponse] as the type says. *)
Inductive prim : Type :=
| PUndefined
| PNull
| PBool (b : bool)
| PNum (n : Z)
| PStr (s : string).

Inductive RawReply : Type :=
| NotAnObject (r : prim)
| Response (r : RawResponse).

(** [String(r)] *)
Definition String_of_prim (r : prim) : string :=
  match r with
  | PUndefined => "undefined"
  | PNull => "null"
  | PBool true => "true"
  | PBool false => "false"
  | PNum n => pretty n
  | PStr s => s
  end.

Definition prim_value (r : prim) : value :=
  match r with
  | PUndefined => VUndefined
  | PNull => VNull
  | PBool b => VBool b
  | PNum n => VNum n
  | PStr s => VStr s
  end.

Definition opt_str_value (s : option string) : value :=
  match s with Some s => VStr s | None => VUndefined end.

(** A [Bm.ErrAsJson] and a [Bm.RawResponse] as the objects they are. *)
Definition ErrAsJson_value (j : ErrAsJson) : value :=
  match j with
  | StandardErrAsJson stack message =>
      VObj [("stack", opt_str_value stack); ("message", VStr message);
            ("errorConstructor", VStr "Error")]
  | AjaxErrAsJson stack message d =>
      VObj [("stack", opt_str_value stack); ("message", VStr message);
            ("errorConstructor", VStr "AjaxErr");
            ("ajaxErrorDetails",
             VObj [("status", VNum (status d)); ("url", VStr (url d));
                   ("responseText", VStr (responseText d));
                   ("statusText", VStr (statusText d));
                   ("resMsg", opt_str_value (resMsg d));
                   ("resDetails", opt_str_value (resDetails d))])]
  end.

Definition RawReply_value (r : RawReply) : value :=
  match r with
  | NotAnObject p => prim_value p
  | Response r =>
      VObj [("result", result r);
            ("exception",
             match exception r with
             | Some j => ErrAsJson_value j
             | None => VUndefined
             end);
            ("objUrls", VObj (prod_map id VStr <$> resObjUrls r))]
  end.

(** What the browser does with a message handed to it: it calls the
    callback with a reply, while [chrome.runtime.lastError] is [lastError]
    ([None]: not set; [Some m]: set, with [message] [m]); or it never
    calls it; or [sendMessage] throws. *)
Inductive Transport : Type :=
| CallbackWith (r : RawReply) (lastError : option (option string))
| NoCallback
| SendThrows (e : thrown).

(** The three texts of [chrome.runtime.lastError] the bus knows. *)
Definition no_receiving_end : string :=
  "Could not establish connection. Receiving end does not exist.".
Definition port_closed : string :=
  "The message port closed before a response was received.".
Definition not_cloned : string := "The object could not be cloned.".

(** [chrome.runtime.lastError ? chrome.runtime.lastError.message ||
     '(empty lastError)' : '(no lastError)'] *)
Definition lastError_text (lastError : option (option string)) : string :=
  match lastError with
  | Some m => if truthy_str m then default "" m else "(empty lastError)"
  | None => "(no lastError)"
  end.

(** [processRawMsgResponse], the callback [sendRaw] gives
    [chrome.runtime.sendMessage]: how the promise of [sendRaw] settles. *)
Definition processRawMsgResponse (env : Env) (destString : option string)
    (msg : Raw) (awaitRes : bool) (r : RawReply)
    (lastError : option (option string)) (st : BlobStore)
  : Promise value * BlobStore :=
  if negb awaitRes then (Resolved VUndefined, st)
  else
    match r with
    | NotAnObject r =>
        let lastError := lastError_text lastError in
        let e :=
          match destString, r with
          | None, PUndefined =>
              if bool_decide (lastError = "The object could not be cloned.")
              then new_Error env ClsError
                     ("BrowserMsg.sendAwait(" +:+ name msg +:+
                      ") failed with lastError: " +:+ lastError)
              else if bool_decide (lastError =
                        "Could not establish connection. Receiving end does not exist.")
                      || bool_decide (lastError =
                        "The message port closed before a response was received.")
              then new_Error env ClsBgNotReadyErr
                     ("BgNotReadyErr: BrowserMsg.sendAwait(" +:+ name msg +:+
                      ") failed with lastError: " +:+ lastError)
              else new_Error env ClsError
                     ("BrowserMsg.sendAwait(" +:+ name msg +:+
                      ") failed with unknown lastError: " +:+ lastError)
          | _, _ =>
              new_Error env ClsError
                ("BrowserMsg.sendAwait(" +:+ name msg +:+ ") returned(" +:+
                 String_of_prim r +:+ ") with lastError: " +:+ lastError)
          end in
        (Rejected (ThrowErr
           {| cls := cls e; Js.message := Js.message e;
              Js.stack := Some (stack msg +:+ nl +:+ nl +:+
                                show_opt (Js.stack e)) |}), st)
    | Response r =>
        match exception r with
        | Some exception =>
            (Rejected (ThrowErr (jsonToErr env exception msg)), st)
        | None =>
            if negb (truthy (result r)) || negb (typeof_object (result r))
            then (Resolved (result r), st)
            else replaceObjUrlWithBuf (result r) (Some (resObjUrls r)) st
        end
    end.

(** The [msg] of [sendRaw]; [destString || null] turns the empty string
    into [null] too. *)
Definition sendRaw_msg (env : Env) (destString : option string)
    (name : string) (bm : value) (objUrls : Dict string) (iv : string) : Raw :=
  {| name := name; data_bm := bm; data_objUrls := objUrls;
     to := match destString with
           | Some d => if bool_decide (d = "") then None else Some d
           | None => None
           end;
     uid := iv; stack := stackTrace env; responseName := None |}.

(** [sendRaw].  [iv] is [SymmetricMessageEncryption.generateIV()], [tr]
    what the browser does with the message.  On the background page the
    message goes to every tab that [chrome.tabs.query] finds, each send
    with [resolve] as its callback: there [tr] is the first of these
    callbacks, if any comes (none can when no tab is found), and
    [SendThrows] a throwing [chrome.tabs.query]. *)
Definition sendRaw (env : Env) (destString : option string) (name : string)
    (bm : value) (objUrls : Dict string) (awaitRes : bool)
    (iv : string) (tr : Transport) (st : BlobStore)
  : Promise value * list effect * BlobStore :=
  let msg := sendRaw_msg env destString name bm objUrls iv in
  let viaWindow :=
    match to msg with
    | Some dest =>
        if negb (isBackgroundPage env) then
          let encryptedMsg := encrypt dest msg in
          sendToChildren env encryptedMsg
            ++ [PostMessage (window env) encryptedMsg "*"]
            ++ sendUpParentLine env encryptedMsg
        else []
    | None => []
    end in
  if chrome_runtime env then
    if isBackgroundPage env then
      let toTabs := (λ tabId, TabsSendMessage tabId msg) <$> activeTabs env in
      match tr with
      | CallbackWith r _ =>
          (Resolved (RawReply_value r), toTabs ++ viaWindow, st)
      | NoCallback => (Pending, toTabs ++ viaWindow, st)
      | SendThrows e =>
          match e with
          | ThrowErr e' =>
              if bool_decide (Js.message e' = "Extension context invalidated.")
              then (Pending,
                    RenderFatalErrCorner "Restart browser to re-enable FlowCrypt"
                                         "GREEN-NOTIFICATION" :: viaWindow, st)
              else (Rejected e, viaWindow, st)
          | ThrowVal _ => (Rejected e, viaWindow, st)
          end
      end
    else
      match tr with
      | CallbackWith r lastError =>
          let '(p, st') :=
            processRawMsgResponse env destString msg awaitRes r lastError st in
          (p, RuntimeSendMessage msg :: viaWindow, st')
      | NoCallback => (Pending, RuntimeSendMessage msg :: viaWindow, st)
      | SendThrows e =>
          match e with
          | ThrowErr e' =>
              if bool_decide (Js.message e' = "Extension context invalidated.")
              then (Pending,
                    RenderFatalErrCorner "Restart browser to re-enable FlowCrypt"
                                         "GREEN-NOTIFICATION" :: viaWindow, st)
              else (Rejected e, viaWindow, st)
          | ThrowVal _ => (Rejected e, viaWindow, st)
          end
      end
  else
    (Pending,
     RenderFatalErrCorner "Error: missing chrome.runtime" "RED-RELOAD-PROMPT"
       :: viaWindow, st).

(** Calling [handler(bm)] when the registry has nothing under the name:
    [handler] is [undefined], and the call throws a [TypeError]. *)
Definition not_a_function (env : Env) : thrown :=
  ThrowErr (new_Error env ClsTypeError "handler is not a function").

(** [sendAwait]; [bm || {}] replaces a falsy payload.  In the bypass
    [HANDLERS_REGISTERED_BACKGROUND[name]] may be an inherited member:
    [await handler(bm)] then settles as that call does, resolving with
    whatever it returns. *)
Definition sendAwait (env : Env) (HANDLERS_REGISTERED_BACKGROUND : Handlers)
    (destString : option string) (name : string) (bm : value)
    (awaitRes : bool) (iv : string) (tr : Transport) (st : BlobStore)
  : Promise value * list effect * BlobStore :=
  let bm := if truthy bm then bm else VObj [] in
  if isBackgroundPage env && bool_decide (destString = None) then
    (* calling from bg script to bg script: skip messaging *)
    match HANDLERS_get HANDLERS_REGISTERED_BACKGROUND name with
    | Some (OwnHandler handler) => (handler bm, [Invoke None name bm], st)
    | Some (Inherited inherited) =>
        (match callInherited env inherited bm with
         | inl e => Rejected e
         | inr v => Resolved v
         end, [], st)
    | None => (Rejected (not_a_function env), [], st)
    end
  else
    let '(objUrls, bm', st') := replaceBufWithObjUrlInplace bm st in
    sendRaw env destString name bm' objUrls awaitRes iv tr st'.

(** [sendCatch]: [sendAwait(dest, name, bm).catch(Catch.reportErr)]; it
    returns nothing. *)
Definition sendCatch (env : Env) (HANDLERS_REGISTERED_BACKGROUND : Handlers)
    (dest : option string) (name : string) (bm : value)
    (iv : string) (tr : Transport) (st : BlobStore)
  : list effect * BlobStore :=
  match sendAwait env HANDLERS_REGISTERED_BACKGROUND dest name bm false iv tr st
  with
  | (Rejected e, effs, st') => (effs ++ [ReportErr e], st')
  | (_, effs, st') => (effs, st')
  end.

(** ** The window-message listener *)

(** The [rawRespond] the window listener hands to [handleMsg]: when
    [msg.data.bm.messageSender] is not [undefined], the response goes out
    as a new request to it under [msg.responseName]; a rejection of that
    [sendRaw] is reported.  The sender is a [Dest] by its type, so a
    string; the test is [typeof .. !== 'undefined'] all the same, and a
    sender that is [null], [false] or [0] makes [destString || null] a
    [null] destination, as a missing [destString] does.  A sender that is
    truthy and not a string becomes the [to] of a message as it is, which
    [Raw] cannot hold: that call is recorded as [SendRawTo] and not
    followed further.  [sendRaw] is not awaited here, and leaves the blob
    store [st] as it is. *)
Definition respondAsNewRequest (env : Env) (msg : Raw) (iv : string)
    (tr : Transport) (rawResponse : RawResponse) (st : BlobStore)
  : list effect :=
  match responseName msg, data_bm msg with
  | Some responseName, VObj bm =>
      if truthy_str (Some responseName) then
        let sendRaw_reported (destString : option string) :=
          match sendRaw env destString responseName
                  (result rawResponse) (resObjUrls rawResponse) false iv tr
                  st with
          | (Rejected e, effs, _) => effs ++ [ReportErr e]
          | (_, effs, _) => effs
          end in
        match obj_get "messageSender" bm with
        | VUndefined => []
        | VStr messageSender => sendRaw_reported (Some messageSender)
        | messageSender =>
            if truthy messageSender
            then [SendRawTo messageSender responseName (result rawResponse)
                            (resObjUrls rawResponse)]
            else sendRaw_reported None
        end
      else []
  | _, _ => []
  end.

(** The listener up to [await SymmetricMessageEncryption.decrypt]. *)
Inductive WindowListener : Type :=
| Returned (effs : list effect) (s : State)
| AwaitingDecrypt.

(** The tail of the listener:
    [if (!handled && encryptedMsg.propagateToParent) {..}] *)
Definition propagate (env : Env) (encryptedMsg : SymEncryptedMessage)
    (handled : bool) (s : State) : list effect * State :=
  if negb handled && epropagateToParent encryptedMsg then
    (sendUpParentLine env encryptedMsg,
     {| processed := {[euid encryptedMsg]} ∪ processed s; store := store s |})
  else ([], s).

Definition trusted_origin (env : Env) (origin : string) : bool :=
  bool_decide (origin = "https://mail.google.com")
  || bool_decide (origin = extensionOrigin env).

(** The ['message'] listener of [listenForWindowMessages(dest)], from the
    event to the first suspension. *)
Definition window_onMessage_begin (env : Env) (dest : string)
    (origin : string) (encryptedMsg : SymEncryptedMessage) (s : State)
  : WindowListener :=
  if negb (trusted_origin env origin) then Returned [] s
  else if decide (euid encryptedMsg ∈ processed s) then Returned [] s
  else if addressed dest (eto encryptedMsg) then AwaitingDecrypt
  else
    let '(effs, s') := propagate env encryptedMsg false s in
    Returned effs s'.

(** ... and from the decrypted message on, in the state of that moment. *)
Definition window_onMessage_resume (env : Env) (HANDLERS_REGISTERED_FRAME : Handlers)
    (encryptedMsg : SymEncryptedMessage) (iv : string) (tr : Transport)
    (s : State) : list effect * State :=
  let msg := decrypt encryptedMsg in
  let '(handled, effs, s1) :=
    handleMsg env HANDLERS_REGISTERED_FRAME msg
              (respondAsNewRequest env msg iv tr) s in
  let '(effs', s2) := propagate env encryptedMsg handled s1 in
  (effs ++ effs', s2).

(** The listener run without another event in between. *)
Definition window_onMessage (env : Env) (HANDLERS_REGISTERED_FRAME : Handlers)
    (dest : string) (origin : string) (encryptedMsg : SymEncryptedMessage)
    (iv : string) (tr : Transport) (s : State) : list effect * State :=
  match window_onMessage_begin env dest origin encryptedMsg s with
  | Returned effs s' => (effs, s')
  | AwaitingDecrypt =>
      window_onMessage_resume env HANDLERS_REGISTERED_FRAME encryptedMsg iv tr s
  end.

(** ** Runs of a context's listeners *)

(** What reaches the listeners of a context that called [listen(dest)]:
    a message on the direct channel; a window message, taken either in one
    piece or as the two halves around [await decrypt], between which other
    events may be served.  [iv] and [tr] are the inputs of the [sendRaw]
    a response may cause. *)
Inductive delivery : Type :=
| Direct (msg : Raw)
| Window (origin : string) (m : SymEncryptedMessage) (iv : string)
         (tr : Transport)
| WindowEvent (origin : string) (m : SymEncryptedMessage)
| WindowResumed (m : SymEncryptedMessage) (iv : string) (tr : Transport).

Definition deliver (env : Env) (HANDLERS_REGISTERED_FRAME : Handlers)
    (dest : string) (d : delivery) (s : State) : list effect * State :=
  match d with
  | Direct msg =>
      let '(_, effs, s') :=
        listen_onMessage env HANDLERS_REGISTERED_FRAME dest msg s in
      (effs, s')
  | Window origin m iv tr =>
      window_onMessage env HANDLERS_REGISTERED_FRAME dest origin m iv tr s
  | WindowEvent origin m =>
      match window_onMessage_begin env dest origin m s with
      | Returned effs s' => (effs, s')
      | AwaitingDecrypt => ([], s)
      end
  | WindowResumed m iv tr =>
      window_onMessage_resume env HANDLERS_REGISTERED_FRAME m iv tr s
  end.

Fixpoint deliver_all (env : Env) (HANDLERS_REGISTERED_FRAME : Handlers)
    (dest : string) (ds : list delivery) (s : State) : list effect * State :=
  match ds with
  | [] => ([], s)
  | d :: ds' =>
      let '(effs, s1) := deliver env HANDLERS_REGISTERED_FRAME dest d s in
      let '(effs', s2) :=
        deliver_all env HANDLERS_REGISTERED_FRAME dest ds' s1 in
      (effs ++ effs', s2)
  end.

(** The same for the background page, which has the one listener. *)
Fixpoint bgListen_all (env : Env) (HANDLERS_REGISTERED_BACKGROUND : Handlers)
    (msgs : list Raw) (st : BlobStore) : list effect * BlobStore :=
  match msgs with
  | [] => ([], st)
  | msg :: msgs' =>
      let '(_, effs, st1) :=
        bgListen_onMessage env HANDLERS_REGISTERED_BACKGROUND None msg st in
      let '(effs', st2) :=
        bgListen_all env HANDLERS_REGISTERED_BACKGROUND msgs' st1 in
      (effs ++ effs', st2)
  end.

(** The handler executions among some effects: id, name, request. *)
Definition invocations (effs : list effect)
  : list (option string * string * value) :=
  omap (λ e, match e with
             | Invoke id name req => Some (id, name, req)
             | _ => None
             end) effs.

(** The window posts among some effects. *)
Definition posts (effs : list effect)
  : list (Win * SymEncryptedMessage * string) :=
  omap (λ e, match e with
             | PostMessage target m targetOrigin => Some (target, m, targetOrigin)
             | _ => None
             end) effs.

(** The responses among some effects. *)
Definition responses (effs : list effect) : list RawResponse :=
  omap (λ e, match e with Respond r => Some r | _ => None end) effs.

(** An event is part of a delivery of [msg], addressed to [d], to a
    context: [msg] on the direct channel, or a window message from a
    trusted origin that seals [msg] under its id and destination, whole or
    in its halves. *)
Definition delivers (env : Env) (msg : Raw) (d : string) (x : delivery)
  : Prop :=
  match x with
  | Direct msg' => msg' = msg
  | Window origin m _ _ | WindowEvent origin m =>
      trusted_origin env origin = true ∧ sealed m = msg ∧
      euid m = uid msg ∧ eto m = d
  | WindowResumed m _ _ =>
      sealed m = msg ∧ euid m = uid msg ∧ eto m = d
  end.

(** The events that get as far as [handleMsg]: all but the first half of
    a window message. *)
Definition reaches_handleMsg (x : delivery) : bool :=
  match x with
  | WindowEvent _ _ => false
  | _ => true
  end.

(** ** The call to the background page, taken through the transport *)

(** Modelled from the spec: the browser does not hand a message over as
    the object it was given but serialises it ("msg has to be
    serializable", says [sendAwait]; the transports "cannot transfer
    binary objects faithfully", says the spec).  [json] is what a payload
    arrives as under the JSON serialisation of extension messaging: a
    property that holds [undefined] is left out, a [Uint8Array] arrives as
    a plain object of its index keys, at any depth. *)
Fixpoint json (v : value) : value :=
  match v with
  | VObj fields =>
      VObj ((fix props (fields : list (string * value)) :=
               match fields with
               | [] => []
               | (k, VUndefined) :: fields' => props fields'
               | (k, x) :: fields' => (k, json x) :: props fields'
               end) fields)
  | VBuf bytes =>
      VObj (imap (λ i b, (pretty i, VNum (Z.of_N (Byte.to_N b)))) bytes)
  | _ => v
  end.

(** A payload as the other side has it in hand: its top-level byte
    buffers replaced by object URLs, carried by the browser ([wire]), the
    object URLs read back. *)
Definition carried (wire : value → value) (v : value) (st : BlobStore)
  : Promise value * BlobStore :=
  let '(objUrls, v', st1) := replaceBufWithObjUrlInplace v st in
  replaceObjUrlWithBuf (wire v') (Some objUrls) st1.

(** What the browser does between [chrome.runtime.sendMessage(msg, cb)]
    and the listener of [bgListen]: the listener gets the message with its
    payload as carried ([wire]), [cb] gets the response the listener
    sends, its result as carried; a listener that returns [false] "has no
    plans to respond", the port closes and [cb] gets [undefined] with
    [lastError] "The message port closed before a response was received."
    (so the comment in [processRawMsgResponse]); a listener that returned
    [true] and never responds leaves [cb] uncalled. *)
Definition runtime_roundtrip (wire : value → value) (bg : Env)
    (HANDLERS_REGISTERED_BACKGROUND : Handlers) (msg : Raw) (st : BlobStore)
  : Transport * list effect * BlobStore :=
  let received :=
    {| name := name msg; data_bm := wire (data_bm msg);
       data_objUrls := data_objUrls msg; to := to msg; uid := uid msg;
       stack := stack msg; responseName := responseName msg |} in
  let '(willRespond, effs, st') :=
    bgListen_onMessage bg HANDLERS_REGISTERED_BACKGROUND None received st in
  (match responses effs with
   | r :: _ =>
       CallbackWith (Response {| result := wire (result r);
                                 resObjUrls := resObjUrls r;
                                 exception := exception r |}) None
   | [] =>
       if willRespond then NoCallback
       else CallbackWith (NotAnObject PUndefined)
              (Some (Some
                 "The message port closed before a response was received."))
   end, effs, st').

(** [sendAwait(undefined, name, bm, true)] as it runs when it does not
    take the bypass: issued in [sender], a context other than the
    background page, with the message carried by [wire] to the background
    page [bg] and served there. *)
Definition sendAwait_via_transport (wire : value → value) (sender bg : Env)
    (HANDLERS_REGISTERED_BACKGROUND : Handlers) (name : string) (bm : value)
    (iv : string) (st : BlobStore) : Promise value * BlobStore :=
  let bm := if truthy bm then bm else VObj [] in
  let '(objUrls, bm', st1) := replaceBufWithObjUrlInplace bm st in
  let msg := sendRaw_msg sender None name bm' objUrls iv in
  let '(tr, _, st2) :=
    runtime_roundtrip wire bg HANDLERS_REGISTERED_BACKGROUND msg st1 in
  let '(p, _, st3) := sendRaw sender None name bm' objUrls true iv tr st2 in
  (p, st3).


End BrowserMsg.

(* ===================================================================== *)
(** * [Api]: the path-traversal guard and its two callers                 *)
(* ===================================================================== *)

Module Api.

(** What [Api] leans on and the source files do not hold. *)
Record Externals : Type := {
  isContentScript : bool;                       (* Env.isContentScript() *)
  stackTrace : string;                          (* Catch.stackTrace() *)
  newErrorStack : string → string;              (* stack of [new Error(m)] *)
  String_of : thrown → string;                  (* String(e) *)
  (* AjaxErr.fromXhr(rawErr, {url, method}, stack) *)
  fromXhr : value → option string → string → JsError;
}.

(** Requests that leave the page. *)
Inductive request : Type :=
| XhrGet (url : string)                 (* request.open('GET', url); send() *)
| JQueryAjax (url : option string)      (* $.ajax({...req}) *)
| ViaBackground (url : option string).  (* BrowserMsg.send.bg.await.ajax *)

(** [throwIfApiPathTraversalAttempted]: [Some e] when it throws [e]. *)
Definition throwIfApiPathTraversalAttempted (x : Externals)
    (requestUrl : string) : option thrown :=
  if includes "../" requestUrl || includes "/.." requestUrl then
    let message := "API path traversal forbidden: " +:+ requestUrl in
    Some (ThrowErr {| cls := ClsError; message := message;
                      stack := Some (newErrorStack x message) |})
  else None.

(** How the [XMLHttpRequest] of [download] ends: [onload] with a status
    and a body, or [onerror]/[ontimeout] with the event's target
    ([None]: a null target). *)
Inductive XhrEnd : Type :=
| OnLoad (status : Z) (response : list byte) (target : option value)
| OnError (target : option value)
| NeverEnds.

(** [Api.download(url)]. *)
Definition download (x : Externals) (url : string) (xhr : XhrEnd)
  : Promise value * list request :=
  match throwIfApiPathTraversalAttempted x url with
  | Some e => (Rejected e, [])
  | None =>
      let errHandler (target : option value) : Promise value :=
        match target with
        | None =>
            let message := "Api.download(" +:+ url +:+
                           ") failed with a null progressEvent.target" in
            Rejected (ThrowErr {| cls := ClsError; message := message;
                                  stack := Some (newErrorStack x message) |})
        | Some t => Rejected (ThrowErr (fromXhr x t (Some url) (stackTrace x)))
        end in
      (match xhr with
       | OnLoad status response target =>
           if (status <=? 299)%Z then Resolved (VBuf response)
           else errHandler target
       | OnError target => errHandler target
       | NeverEnds => Pending
       end, [XhrGet url])
  end.

(** [isRawAjaxErr] *)
Definition isRawAjaxErr (e : thrown) : bool :=
  match e with
  | ThrowVal (VObj o) =>
      match obj_get "readyState" o with VNum _ => true | _ => false end
  | _ => false
  end.

(** [Api.ajax(req, stack)], for a request whose [url] is [url]; [viaBg] is
    how the background page's answer ends, [jq] how [$.ajax] ends. *)
Definition ajax (x : Externals) (url : option string) (stack : string)
    (viaBg : Promise value) (jq : Promise value)
  : Promise value * list request :=
  if isContentScript x then (viaBg, [ViaBackground url])
  else
    match throwIfApiPathTraversalAttempted x (default "" url) with
    | Some e => (* [e instanceof Error]: thrown on *) (Rejected e, [])
    | None =>
        (match jq with
         | Resolved data => Resolved data
         | Pending => Pending
         | Rejected e =>
             match e with
             | ThrowErr _ => Rejected e
             | ThrowVal v =>
                 if isRawAjaxErr e
                 then Rejected (ThrowErr (fromXhr x v url stack))
                 else
                   let message :=
                     "Unknown Ajax error (" +:+ String_of x e +:+
                     ") type when calling " +:+ show_opt url in
                   Rejected (ThrowErr
                     {| cls := ClsError; message := message;
                        stack := Some (newErrorStack x message) |})
             end
         end, [JQueryAjax url])
    end.

End Api.

(* ===================================================================== *)
(** * [GoogleOAuth]: the outcome of the auth dialog                       *)
(* ===================================================================== *)

Module GoogleOAuth.

(** [GoogleAuthWindowResult$result] *)
Inductive GoogleAuthWindowResult_result : Type :=
| Success
| Denied
| Error
| Closed.

(** [AuthRes = AuthResultSuccess | AuthResultError], as one record. *)
Record AuthRes : Type := {
  result : GoogleAuthWindowResult_result;
  acctEmail : option string;
  id_token : option string;
  error : option string;
}.

(** [Bm.AuthWindowResult] *)
Record AuthWindowResult : Type := {
  aw_url : option string;
  aw_error : option string;
}.

(** [GoogleOAuth.OAUTH.scopes] *)
Definition scope_email : string := "email".
Definition scope_openid : string := "openid".
Definition scope_profile : string :=
  "https://www.googleapis.com/auth/userinfo.profile".
Definition scope_compose : string :=
  "https://www.googleapis.com/auth/gmail.compose".
Definition scope_modify : string :=
  "https://www.googleapis.com/auth/gmail.modify".
Definition scope_readContacts : string :=
  "https://www.googleapis.com/auth/contacts.readonly".
Definition scope_readOtherContacts : string :=
  "https://www.googleapis.com/auth/contacts.other.readonly".
Definition state_header : string := "CRYPTUP_STATE_".

(** What [GoogleOAuth] leans on and the source files do not hold. *)
Record Externals : Type := {
  FLAVOR : string;                               (* core/const.js *)
  toLowerCase : string → string;
  randomFortyHexChars : string;                  (* Api.randomFortyHexChars() *)
  (* JSON.stringify({acctEmail, scopes, csrfToken}) *)
  stringifyAuthReq : option string → list string → string → string;
  (* Url.create(url_code, {.., state, scope, login_hint}) *)
  authCodeUrl : string → list string → option string → string;
  webAuthFlow : string → Promise AuthWindowResult;   (* OAuth2.webAuthFlow *)
  (* Url.parse(['scope','code','state'], url) and the three
     Assert.urlParamRequire reads: scope, code, state, or what is thrown *)
  parseAuthUrl : string → thrown + (string * option string * string);
  retrieveAndSaveAuthToken : string → Promise string;   (* -> id_token *)
  googleAuthGetTokens : string → Promise string;        (* -> id_token *)
  parseIdToken : string → thrown + option string;       (* -> email *)
  (* the ExternalService / AcctStore / AccountServer calls after a grant:
     [Some e] when one of them throws [e] *)
  setUpAccount : string → option thrown;
  isFesUnreachableErr : thrown → string → bool;
  String_of : thrown → string;                   (* String(e) *)
  newErrorStack : string → string;
}.

Definition new_Error (x : Externals) (message : string) : thrown :=
  ThrowErr {| cls := ClsError; message := message;
              stack := Some (newErrorStack x message) |}.

(** [defaultScopes('default')]: the scopes, or what it throws. *)
Definition defaultScopes (x : Externals) : thrown + list string :=
  if bool_decide (FLAVOR x = "consumer") then
    inr [scope_openid; scope_email; scope_profile; scope_compose; scope_modify]
  else if bool_decide (FLAVOR x = "enterprise") then
    inr [scope_openid; scope_email; scope_profile; scope_compose; scope_modify;
         scope_readContacts; scope_readOtherContacts]
  else inl (new_Error x ("Unknown build " +:+ FLAVOR x)).

(** [array.includes(s)] *)
Definition list_includes (s : string) (l : list string) : bool :=
  bool_decide (s ∈ l).

Definition apiGoogleAuthPopupPrepareAuthReqScopes (addScopes : list string)
  : list string :=
  let addScopes :=
    if list_includes scope_email addScopes then addScopes
    else addScopes ++ [scope_email] in
  let addScopes :=
    if list_includes scope_openid addScopes then addScopes
    else addScopes ++ [scope_openid] in
  if list_includes scope_profile addScopes then addScopes
  else addScopes ++ [scope_profile].

Definition denied (acctEmail : option string) (error : string) : AuthRes :=
  {| acctEmail := acctEmail; result := Denied; error := Some error;
     id_token := None |}.

Definition errored (acctEmail : option string) (error : string) : AuthRes :=
  {| acctEmail := acctEmail; result := Error; error := Some error;
     id_token := None |}.

(** The [catch] of [getAuthRes]. *)
Definition getAuthRes_catch (x : Externals) (acctEmail : option string)
    (err : thrown) : AuthRes :=
  match err with
  | ThrowErr {| cls := ClsAssertError |} =>
      errored acctEmail "Could not parse URL returned from Google"
  | _ => denied acctEmail (String_of x err)
  end.

(** The scope check loop of [getAuthRes]: a requested scope among the
    four that was not allowed. *)
Definition missingPermissions (requestedScopes : list string)
    (allowedScopes : string) : bool :=
  existsb (λ scopeToCheck,
             list_includes scopeToCheck requestedScopes
             && negb (includes scopeToCheck allowedScopes))
          [scope_compose; scope_modify; scope_readContacts;
           scope_readOtherContacts].

(** [getAuthRes]; its promise always resolves. *)
Definition getAuthRes (x : Externals) (acctEmail : option string)
    (save : bool) (requestedScopes : list string) (expectedState : string)
    (authWindowResult : AuthWindowResult) : Promise AuthRes :=
  if negb (truthy_str (aw_url authWindowResult)) then
    Resolved (denied acctEmail "Invalid response url")
  else if truthy_str (aw_error authWindowResult) then
    Resolved (denied acctEmail (default "" (aw_error authWindowResult)))
  else
    match parseAuthUrl x (default "" (aw_url authWindowResult)) with
    | inl err => Resolved (getAuthRes_catch x acctEmail err)
    | inr (allowedScopes, code, receivedState) =>
        if missingPermissions requestedScopes allowedScopes then
          Resolved (denied acctEmail "Missing permissions")
        else if negb (truthy_str code) then
          Resolved (denied acctEmail
            "Google auth result was 'Success' but no auth code")
        else if negb (bool_decide (receivedState = expectedState)) then
          Resolved (errored acctEmail
            "Wrong oauth CSRF token. Please try again.")
        else
          match (if save then retrieveAndSaveAuthToken x (default "" code)
                 else googleAuthGetTokens x (default "" code)) with
          | Resolved id_token =>
              match parseIdToken x id_token with
              | inl err => Resolved (getAuthRes_catch x acctEmail err)
              | inr email =>
                  if negb (truthy_str email) then
                    Resolved (getAuthRes_catch x acctEmail
                      (new_Error x "Missing email address in id_token"))
                  else
                    Resolved {| acctEmail := email; result := Success;
                                id_token := Some id_token; error := None |}
              end
          | Rejected err => Resolved (getAuthRes_catch x acctEmail err)
          | Pending => Pending
          end
    end.

(** [newAuthPopup({acctEmail, scopes, save})]. *)
Definition newAuthPopup (x : Externals) (acctEmail : option string)
    (scopes : option (list string)) (save : option bool) : Promise AuthRes :=
  let acctEmail :=
    if truthy_str acctEmail then toLowerCase x <$> acctEmail else acctEmail in
  let save := default true save in
  let prepared : thrown + list string :=
    match scopes with
    | Some scopes =>
        if save then inr (apiGoogleAuthPopupPrepareAuthReqScopes scopes)
        else inr scopes
    | None =>
        match defaultScopes x with
        | inr d => inr (apiGoogleAuthPopupPrepareAuthReqScopes d)
        | inl e => inl e
        end
    end in
  match prepared with
  | inl e => Rejected e
  | inr scopes =>
      let csrfToken := "csrf-" +:+ randomFortyHexChars x in
      let expectedState :=
        state_header +:+ stringifyAuthReq x acctEmail scopes csrfToken in
      let authUrl := authCodeUrl x expectedState scopes acctEmail in
      match webAuthFlow x authUrl with
      | Rejected e => Rejected e
      | Pending => Pending
      | Resolved authWindowResult =>
          match getAuthRes x acctEmail save scopes expectedState
                           authWindowResult with
          | Rejected e => Rejected e
          | Pending => Pending
          | Resolved authRes =>
              match result authRes with
              | Success =>
                  if negb (truthy_str (id_token authRes)) then
                    Resolved {| result := Error;
                      error := Some "Grant was successful but missing id_token";
                      acctEmail := GoogleOAuth.acctEmail authRes;
                      id_token := None |}
                  else if negb (truthy_str (GoogleOAuth.acctEmail authRes)) then
                    Resolved {| result := Error;
                      error := Some "Grant was successful but missing acctEmail";
                      acctEmail := GoogleOAuth.acctEmail authRes;
                      id_token := None |}
                  else
                    let email := default "" (GoogleOAuth.acctEmail authRes) in
                    match setUpAccount x email with
                    | Some e =>
                        if isFesUnreachableErr x e email then
                          Resolved {| result := Error;
                            error := Some (
                              "Cannot reach your company's FlowCrypt External Service (FES). Contact your Help Desk when unsure. ("
                              +:+ String_of x e +:+ ")");
                            acctEmail := GoogleOAuth.acctEmail authRes;
                            id_token := None |}
                        else
                          Resolved {| result := Error;
                            error := Some (
                              "Grant successful but error accessing fc account: "
                              +:+ String_of x e);
                            acctEmail := GoogleOAuth.acctEmail authRes;
                            id_token := None |}
                    | None => Resolved authRes
                    end
              | _ => Resolved authRes
              end
          end
      end
  end.

End GoogleOAuth.

(* ===================================================================== *)
(** * A page: windows with listening contexts, and the posts between them *)
(* ===================================================================== *)

Module Page.

Import BrowserMsg.

(** The context that called [listen(dest)] in a window, and the origin
    its posts carry. *)
Record Frame : Type := {
  frame_env : Env;
  frame_dest : string;
  frame_origin : string;
  frame_handlers : Handlers;
}.

(** A window message under way: [target.postMessage(carried, targetOrigin)]
    called from a window of origin [from_origin]. *)
Record InFlight : Type := {
  target : Win;
  from_origin : string;
  carried : SymEncryptedMessage;
  targetOrigin : string;
}.

Definition in_flight (origin : string) (effs : list effect) : list InFlight :=
  (λ p, {| target := p.1.1; from_origin := origin; carried := p.1.2;
           targetOrigin := p.2 |}) <$> posts effs.

(** What has happened on the page: the ledger and blob store of every
    window, the windows whose listener was called (in order), and the
    handler executions with their window. *)
Record Trace : Type := {
  states : gmap Win State;
  received : list Win;
  ran : list (Win * string);
}.

(** The browser's event loop over the window messages, oldest first: a
    post is delivered when the target has a listener and its origin is the
    [targetOrigin] asked for (or that is ["*"]); the listener's own posts
    join the queue.  Responses are not followed ([NoCallback]). *)
Fixpoint run (fuel : nat) (frames : gmap Win Frame) (queue : list InFlight)
    (t : Trace) : Trace * list InFlight :=
  match fuel, queue with
  | S fuel', ev :: queue' =>
      match frames !! target ev with
      | Some f =>
          if bool_decide (targetOrigin ev = "*")
             || bool_decide (targetOrigin ev = frame_origin f)
          then
            let s := default {| processed := ∅; store := empty_store |}
                             (states t !! target ev) in
            let '(effs, s') :=
              window_onMessage (frame_env f) (frame_handlers f) (frame_dest f)
                (from_origin ev) (carried ev) "iv-response" NoCallback s in
            run fuel' frames (queue' ++ in_flight (frame_origin f) effs)
                {| states := <[target ev := s']> (states t);
                   received := received t ++ [target ev];
                   ran := ran t ++
                     ((λ i, (target ev, i.1.2)) <$> invocations effs) |}
          else run fuel' frames queue' t
      | None => run fuel' frames queue' t
      end
  | _, _ => (t, queue)
  end.


End Page.

(* ===================================================================== *)
(** * Concrete contexts, used to run the definitions                      *)
(* ===================================================================== *)

Module Scenario.

Import BrowserMsg.

(** A [Catch.rewrapErr] that leaves errors alone and wraps other values. *)
Definition rewrap (e : thrown) (info : string) : JsError :=
  match e with
  | ThrowErr e => e
  | ThrowVal _ => {| cls := ClsError; Js.message := info; Js.stack := None |}
  end.

Definition origin : string := "chrome-extension://flowcrypt".

(** A [TypeError] as the language throws it. *)
Definition type_error (message : string) : thrown :=
  ThrowErr {| cls := ClsTypeError; Js.message := message;
              Js.stack := Some ("TypeError: " +:+ message) |}.

(** The members of [Object.prototype] called as a handler is called, with
    the payload as the argument and no receiver.  [constructor] is
    [Object], which returns an object as it is and wraps anything else;
    [toString] renders the missing receiver; [isPrototypeOf] answers
    [false] for an argument that is no object; [__proto__] reads the
    prototype, an object and no function; every other call converts the
    missing receiver to an object, and throws. *)
Definition Object_prototype_call (name : string) (bm : value)
  : thrown + value :=
  if bool_decide (name = "constructor") then
    inr (match bm with
         | VObj _ | VBuf _ => bm
         | VStr s =>
             VObj (imap (λ i c, (pretty i, VStr (String c "")))
                        (String.list_ascii_of_string s))
         | _ => VObj []
         end)
  else if bool_decide (name = "toString") then
    inr (VStr "[object Undefined]")
  else if bool_decide (name = "isPrototypeOf") && negb (typeof_object bm
            && truthy bm) then
    inr (VBool false)
  else if bool_decide (name = "__proto__") then
    inl (type_error "handler is not a function")
  else inl (type_error "Cannot convert undefined or null to object").

(** Windows 0 (top) > 1 > 2 > 3, and 4 a second frame inside 2. *)
Definition frame_at (w : Win) (chain : list Win) (frames : list Iframe) : Env :=
  {| isBackgroundPage := false; extensionOrigin := origin;
     chrome_runtime := true; window := w; parents := chain;
     iframes := frames; activeTabs := []; callInherited := Object_prototype_call;
     stackTrace := "at sender";
     newErrorStack := λ m, "Error: " +:+ m; rewrapErr := rewrap |}.

Definition same_origin_iframe (w : Win) : Iframe :=
  {| contentWindow := Some w; srcOrigin := Some origin |}.

Definition top_env : Env := frame_at 0 [] [same_origin_iframe 1].
Definition env2 : Env :=
  frame_at 2 [1; 0] [same_origin_iframe 3; same_origin_iframe 4].
Definition env3 : Env := frame_at 3 [2; 1; 0] [].

Definition bg_env : Env :=
  {| isBackgroundPage := true; extensionOrigin := origin;
     chrome_runtime := true; window := 0; parents := [];
     iframes := []; activeTabs := [Some 7%Z];
     callInherited := Object_prototype_call; stackTrace := "at background";
     newErrorStack := λ m, "Error: " +:+ m; rewrapErr := rewrap |}.

Definition fresh_state : State := {| processed := ∅; store := empty_store |}.



(** [ping -> {pong: true}] *)
Definition ping : Handler := λ _, Resolved (VObj [("pong", VBool true)]).

Definition not_found : AjaxErrDetails :=
  {| status := 404; url := "https://example.test/key";
     responseText := "not found"; statusText := "Not Found";
     resMsg := None; resDetails := None |}.

Definition ajax_404 : thrown :=
  ThrowErr {| cls := ClsAjaxErr not_found;
              Js.message := "404 when GET-ing key";
              Js.stack := Some "at fetchKey" |}.

(** A handler that fails with the HTTP failure above. *)
Definition failing : Handler := λ _, Rejected ajax_404.

(** A handler that hands its request back, and one whose promise never
    settles. *)
Definition echo : Handler := λ bm, Resolved bm.
Definition never : Handler := λ _, Pending.

Definition ping_msg (id : string) (dest : option string) : Raw :=
  {| name := "ping"; data_bm := VObj []; data_objUrls := [];
     to := dest; uid := id; stack := "at sender"; responseName := None |}.

(** The same message under another name. *)
Definition named_msg (name id : string) (dest : option string) : Raw :=
  {| name := name; data_bm := VObj []; data_objUrls := [];
     to := dest; uid := id; stack := "at sender"; responseName := None |}.


Definition api_externals (contentScript : bool) : Api.Externals :=
  {| Api.isContentScript := contentScript; Api.stackTrace := "at api";
     Api.newErrorStack := λ m, "Error: " +:+ m;
     Api.String_of := λ _, "[object Object]";
     Api.fromXhr := λ _ _ stack,
       {| cls := ClsAjaxErr not_found; Js.message := "ajax";
          Js.stack := Some stack |} |}.

(** An auth dialog that is granted, with identity token [token]. *)
Definition oauth_externals (token : string) : GoogleOAuth.Externals :=
  {| GoogleOAuth.FLAVOR := "consumer";
     GoogleOAuth.toLowerCase := id;
     GoogleOAuth.randomFortyHexChars := "00";
     GoogleOAuth.stringifyAuthReq := λ _ _ csrf, csrf;
     GoogleOAuth.authCodeUrl := λ state _ _, "https://accounts.test/auth?state=" +:+ state;
     GoogleOAuth.webAuthFlow := λ _,
       Resolved {| GoogleOAuth.aw_url := Some "https://www.google.com/robots.txt?code=4";
                   GoogleOAuth.aw_error := None |};
     GoogleOAuth.parseAuthUrl := λ _,
       inr (GoogleOAuth.scope_compose +:+ " " +:+ GoogleOAuth.scope_modify,
            Some "4", "CRYPTUP_STATE_csrf-00");
     GoogleOAuth.retrieveAndSaveAuthToken := λ _, Resolved token;
     GoogleOAuth.googleAuthGetTokens := λ _, Resolved token;
     GoogleOAuth.parseIdToken := λ _, inr (Some "user@example.test");
     GoogleOAuth.setUpAccount := λ _, None;
     GoogleOAuth.isFesUnreachableErr := λ _ _, false;
     GoogleOAuth.String_of := λ _, "Error";
     GoogleOAuth.newErrorStack := λ m, "Error: " +:+ m |}.

End Scenario.

(* ===================================================================== *)
(** * What a run shows of the bus                                         *)
(* ===================================================================== *)

Module Observed.

Import BrowserMsg.

(** The errors handed to [Catch.reportErr]. *)
Definition reports (effs : list effect) : list thrown :=
  omap (λ e, match e with ReportErr e => Some e | _ => None end) effs.

(** The messages handed to [chrome.runtime.sendMessage]. *)
Definition runtime_sends (effs : list effect) : list Raw :=
  omap (λ e, match e with RuntimeSendMessage m => Some m | _ => None end) effs.

(** The messages handed to [chrome.tabs.sendMessage], with the tab. *)
Definition tabs_sends (effs : list effect) : list (option Z * Raw) :=
  omap (λ e, match e with TabsSendMessage t m => Some (t, m) | _ => None end)
       effs.

(** The notices rendered in the corner of the page. *)
Definition notices (effs : list effect) : list (string * string) :=
  omap (λ e, match e with
             | RenderFatalErrCorner m style => Some (m, style)
             | _ => None
             end) effs.

(** [cannotRespondErr instanceof Error && cannotRespondErr.message ===
    'Attempting to use a disconnected port object'] *)
Definition page_closed (cannotRespondErr : thrown) : bool :=
  match cannotRespondErr with
  | ThrowErr e =>
      bool_decide (Js.message e = "Attempting to use a disconnected port object")
  | ThrowVal _ => false
  end.

(** [e instanceof Error && e.message === 'Extension context invalidated.'] *)
Definition context_invalidated (e : thrown) : bool :=
  match e with
  | ThrowErr e => bool_decide (Js.message e = "Extension context invalidated.")
  | ThrowVal _ => false
  end.

(** A window event whose origin the listener does not take. *)
Definition from_untrusted (env : Env) (x : delivery) : bool :=
  match x with
  | Window origin _ _ _ | WindowEvent origin _ => negb (trusted_origin env origin)
  | Direct _ | WindowResumed _ _ _ => false
  end.

(** The window posts of some effects as the events they cause in the
    window they go to, each taken in one piece. *)
Definition arrivals (origin : string) (iv : string) (tr : Transport)
    (effs : list effect) : list delivery :=
  (λ p, Window origin p.1.2 iv tr) <$> posts effs.

(** How the blob store may change while listeners run: the counter does
    not go back, a well-formed store stays so, and a handle that was
    issued and is used up stays used up. *)
Definition store_step (st st' : BlobStore) : Prop :=
  (next_handle st ≤ next_handle st')%N
  ∧ (store_wf st → store_wf st')
  ∧ ∀ n, (n < next_handle st)%N → blobs st !! handle_of n = None →
         blobs st' !! handle_of n = None.


End Observed.

(* ===================================================================== *)
(** * [Api]: tokens and calls                                             *)
(* ===================================================================== *)

Module ApiCall.

Import Api.

(** ** [Api.randomFortyHexChars] *)

Definition hex_digits : list Ascii.ascii :=
  String.list_ascii_of_string "0123456789abcdef".

Definition hex_digit (d : N) : Ascii.ascii :=
  nth (N.to_nat d) hex_digits (Ascii.ascii_of_nat 48).

(** [n.toString(16)] for a number that is a non-negative integer; the
    recursion goes over the bits of [n], of which a digit takes four. *)
Fixpoint toString16_go (bits : nat) (n : N) (acc : string) : string :=
  let acc := String (hex_digit (n mod 16)) acc in
  match bits with
  | S bits' => if (n / 16 =? 0)%N then acc else toString16_go bits' (n / 16) acc
  | O => acc
  end.

Definition toString16 (n : N) : string := toString16_go (N.size_nat n) n "".

(** [s.slice(-k)]: the last [k] characters, all of [s] when it is
    shorter. *)
Definition slice_last (k : nat) (s : string) : string :=
  String.substring (String.length s - k) k s.

(** [b => ('0' + (b & 0xff).toString(16)).slice(-2)] *)
Definition hex_of_byte (b : byte) : string :=
  slice_last 2 ("0" +:+ toString16 (N.land (Byte.to_N b) 255)).

(** [Api.randomFortyHexChars()]; [secureRandomBytes] is the platform's
    (platform/util.ts). *)
Definition randomFortyHexChars (secureRandomBytes : nat → list byte) : string :=
  let bytes := secureRandomBytes 20 in
  String.concat "" (hex_of_byte <$> bytes).

(** Reading a pair of hex digits back, to tell tokens apart. *)
Definition is_hex (a : Ascii.ascii) : bool := bool_decide (a ∈ hex_digits).

Definition hex_value (a : Ascii.ascii) : N :=
  N.of_nat (default 0 (fst <$> list_find (λ d, d = a) hex_digits)).

Definition byte_of_hex (s : string) : option N :=
  match s with
  | String hi (String lo "") =>
      if is_hex hi && is_hex lo then Some (16 * hex_value hi + hex_value lo)%N
      else None
  | _ => None
  end.

(** ** [Api.apiCall] *)

Inductive ReqFmt : Type := JSON | FORM | TEXT.
Inductive ReqMethod : Type := POST | GET | DELETE | PUT.
Inductive ResFmt : Type := Res_json | Res_xhr.

(** A value of a form field: an [Attachment] or a string. *)
Inductive FormField : Type :=
| FieldAttachment (data : list byte) (type name : string)
| FieldString (s : string).

(** [fields?: Dict<unknown> | string] *)
Inductive Fields : Type :=
| FieldsString (s : string)
| FieldsDict (d : Dict FormField).

(** An entry of a [FormData]: [append(name, blob, filename)] or
    [append(name, string)]. *)
Inductive FormEntry : Type :=
| EntryBlob (data : list byte) (type filename : string)
| EntryString (s : string).

(** [formattedData: FormData | string | undefined] *)
Inductive Data : Type :=
| DataUndefined
| DataString (s : string)
| DataForm (entries : list (string * FormEntry)).

(** [ProgressCbs]: whether [upload] and [download] are functions. *)
Record ProgressCbs : Type := {
  upload : bool;
  download : bool;
}.

(** The [JQuery.AjaxSettings] that [apiCall] builds; [crossDomain],
    [processData] and [async] are constants. *)
Record AjaxSettings : Type := {
  xhr : option ProgressCbs;      (* the factory, over its callbacks *)
  req_url : string;
  method : ReqMethod;
  data : Data;
  dataType : ResFmt;
  headers : option (Dict string);
  contentType : option string;   (* [None]: [false] *)
  timeout : option Z;
}.

Definition String_of_fmt (fmt : option ReqFmt) : string :=
  match fmt with
  | Some JSON => "JSON" | Some FORM => "FORM" | Some TEXT => "TEXT"
  | None => "undefined"
  end.

(** Truthiness of [fields]. *)
Definition truthy_fields (fields : option Fields) : bool :=
  match fields with
  | Some (FieldsString s) => negb (bool_decide (s = ""))
  | Some (FieldsDict _) => true
  | None => false
  end.

(** [Api.getAjaxProgressXhrFactory]: [None] for [undefined], otherwise the
    factory, which closes over the callbacks. *)
Definition getAjaxProgressXhrFactory (x : Externals)
    (progressCbs : option ProgressCbs) : option ProgressCbs :=
  match progressCbs with
  | Some cbs =>
      if isContentScript x || negb (upload cbs || download cbs) then None
      else Some cbs
  | None => None
  end.

(** The loop of the [FORM] branch over [Object.keys(fields)]. *)
Definition formData (fields : Dict FormField) : list (string * FormEntry) :=
  omap (λ formFieldName,
          match dict_get formFieldName fields with
          | Some (FieldAttachment data type name) =>
              Some (formFieldName, EntryBlob data type name)
          | Some (FieldString a) => Some (formFieldName, EntryString a)
          | None => None
          end) (keys fields).

#[global] Instance ReqFmt_eq_dec : EqDecision ReqFmt.
Proof. solve_decision. Defined.
#[global] Instance ReqMethod_eq_dec : EqDecision ReqMethod.
Proof. solve_decision. Defined.

(** [typeof fields === 'string'], and [fields] as the string or the
    object it then is. *)
Definition is_string (fields : option Fields) : bool :=
  match fields with Some (FieldsString _) => true | _ => false end.
Definition the_string (fields : option Fields) : string :=
  match fields with Some (FieldsString s) => s | _ => "" end.
Definition the_dict (fields : option Fields) : Dict FormField :=
  match fields with Some (FieldsDict d) => d | _ => [] end.

(** [apiCall] up to its call of [Api.ajax]: the request settings, or what
    it throws.  [JSON_stringify] is [JSON.stringify]. *)
Definition apiCall_settings (x : Externals)
    (JSON_stringify : option Fields → string)
    (url path : string) (fields : option Fields) (fmt : option ReqFmt)
    (progress : option ProgressCbs) (headers : option (Dict string))
    (resFmt : ResFmt) (method : ReqMethod) : thrown + AjaxSettings :=
  let progress := default {| upload := false; download := false |} progress in
  let formatted : thrown + (Data * option string) :=
    if bool_decide (fmt = Some JSON) && truthy_fields fields then
      inr (DataString (JSON_stringify fields),
           Some "application/json; charset=UTF-8")
    else if bool_decide (fmt = Some TEXT) && is_string fields then
      inr (DataString (the_string fields), None)
    else if bool_decide (fmt = Some FORM) && truthy_fields fields
            && negb (is_string fields) then
      inr (DataForm (formData (the_dict fields)), None)
    else if bool_decide (fmt = None) && negb (truthy_fields fields)
            && bool_decide (method = GET) then
      inr (DataUndefined, None)
    else
      let message := "unknown format:" +:+ String_of_fmt fmt in
      inl (ThrowErr {| cls := ClsError; message := message;
                       stack := Some (newErrorStack x message) |}) in
  match formatted with
  | inl e => inl e
  | inr (formattedData, contentType) =>
      inr {| xhr := getAjaxProgressXhrFactory x (Some progress);
             req_url := url +:+ path;
             method := method;
             data := formattedData;
             dataType := resFmt;
             headers := headers;
             contentType := contentType;
             timeout := if upload progress || download progress then None
                        else Some 20000%Z |}
  end.

(** [Api.apiCall]: the promise, the requests that leave the page, and the
    settings handed to [Api.ajax] if it got that far. *)
Definition apiCall (x : Externals) (JSON_stringify : option Fields → string)
    (url path : string) (fields : option Fields) (fmt : option ReqFmt)
    (progress : option ProgressCbs) (headers : option (Dict string))
    (resFmt : ResFmt) (method : ReqMethod)
    (viaBg jq : Promise value)
  : Promise value * list request * option AjaxSettings :=
  match apiCall_settings x JSON_stringify url path fields fmt progress headers
                         resFmt method with
  | inl e => (Rejected e, [], None)
  | inr req =>
      let '(res, requests) :=
        ajax x (Some (req_url req)) (stackTrace x) viaBg jq in
      (res, requests, Some req)
  end.

End ApiCall.

(* ===================================================================== *)
(** * Asynchronous code over modules that are not among the source files  *)
(* ===================================================================== *)

Module Async.

(** A function body as a tree of its calls.  [call R] is the family of
    calls into modules outside the source files, [R] being what the call
    returns or its promise resolves with; [output] is what the code sends
    out without using, or waiting for, an answer; [L] is the type of the
    function's mutable locals. *)
Section prog.
Context {call : Type → Type} {output L : Type}.

Inductive Prog : Type → Type :=
| Ret {R} (r : R) : Prog R                               (* return r *)
| Throw {R} (e : thrown) : Prog R                        (* throw e *)
| Call {R} (c : call R) : Prog R                         (* (await) c *)
| Tell (o : output) : Prog unit
| Bind {A R} (p : Prog A) (k : A → Prog R) : Prog R      (* p; then k *)
| TryCatch {R} (p : Prog R) (h : thrown → Prog R) : Prog R
| Get : Prog L
| Put (l : L) : Prog unit.

(** What a run leaves behind: the calls with their answers and the
    outputs, in order. *)
Inductive event : Type :=
| Ev {A} (c : call A) (a : Promise A)
| Told (o : output).

(** The outside: any state, and for every call an answer (a value, an
    error, or none ever) and the state after it. *)
Record World : Type := {
  state : Type;
  answer : ∀ A, call A → state → Promise A * state;
}.

Record Run (w : World) (R : Type) : Type := {
  settled : Promise R;
  trace : list event;
  world : state w;
  locals : L;
}.
Arguments settled {w R} _.
Arguments trace {w R} _.
Arguments world {w R} _.
Arguments locals {w R} _.

(** Running a body.  A call that is answered with an error throws it; a
    call that is never answered leaves the body suspended for good.  The
    locals keep their values across a [throw], as JavaScript variables
    do. *)
Fixpoint run {R} (w : World) (p : Prog R) (s : state w) (l : L) : Run w R :=
  match p in Prog R return Run w R with
  | Ret r => {| settled := Resolved r; trace := []; world := s; locals := l |}
  | Throw e => {| settled := Rejected e; trace := []; world := s; locals := l |}
  | Call c =>
      let '(a, s') := answer w _ c s in
      {| settled := a; trace := [Ev c a]; world := s'; locals := l |}
  | Tell o =>
      {| settled := Resolved tt; trace := [Told o]; world := s; locals := l |}
  | Bind p k =>
      let r := run w p s l in
      match settled r with
      | Resolved a =>
          let r' := run w (k a) (world r) (locals r) in
          {| settled := settled r'; trace := trace r ++ trace r';
             world := world r'; locals := locals r' |}
      | Rejected e =>
          {| settled := Rejected e; trace := trace r; world := world r;
             locals := locals r |}
      | Pending =>
          {| settled := Pending; trace := trace r; world := world r;
             locals := locals r |}
      end
  | TryCatch p h =>
      let r := run w p s l in
      match settled r with
      | Rejected e =>
          let r' := run w (h e) (world r) (locals r) in
          {| settled := settled r'; trace := trace r ++ trace r';
             world := world r'; locals := locals r' |}
      | _ => r
      end
  | Get => {| settled := Resolved l; trace := []; world := s; locals := l |}
  | Put l' =>
      {| settled := Resolved tt; trace := []; world := s; locals := l' |}
  end.

End prog.

Arguments Prog : clear implicits.
Arguments event : clear implicits.
Arguments World : clear implicits.
Arguments Run {call output L} w R.
Arguments settled {call output L w R} _.
Arguments trace {call output L w R} _.
Arguments world {call output L w R} _.
Arguments locals {call output L w R} _.

#[global] Instance Prog_bind call output L : MBind (Prog call output L) :=
  λ A B k p, Bind p k.
#[global] Instance Prog_ret call output L : MRet (Prog call output L) :=
  λ A r, Ret r.

(** [for (const a of l) { body }], for a body that neither breaks nor
    continues. *)
Fixpoint for_of {call output L A} (l : list A)
    (body : A → Prog call output L unit) : Prog call output L unit :=
  match l with
  | [] => Ret tt
  | a :: l => Bind (body a) (λ _, for_of l body)
  end.

End Async.

(* ===================================================================== *)
(** * [GoogleOAuth]: tokens                                               *)
(* ===================================================================== *)

Module GoogleOAuthTokens.

Import Async.

(** [GoogleAuthTokensResponse], as the source types the answer of the
    token endpoint. *)
Record GoogleAuthTokensResponse : Type := {
  access_token : string;
  expires_in : Z;
  refresh_token : option string;
  id_token : string;
}.

(** The [Ajax] request of api.ts, with the fields these functions set. *)
Record Ajax : Type := {
  url : string;
  method : string;
  timeout : option Z;
  stack : string;
  headers : option (Dict string);
}.

(** [InMemoryStoreKeys] (core/const.ts), the two that are used. *)
Inductive InMemoryStoreKey : Type := ID_TOKEN | GOOGLE_TOKEN_ACCESS.

(** What the identity token says ([OAuth.parseIdToken]). *)
Record Claims : Type := {
  email : option string;
  name : option string;
  picture : option string;
}.

(** The type an answer of [Api.ajax] is cast to. *)
Inductive ResTy : Type := AsTokens | AsJson.

Definition res (t : ResTy) : Type :=
  match t with AsTokens => GoogleAuthTokensResponse | AsJson => value end.

(** The calls into [AcctStore], [InMemoryStore], [Api.ajax] (as this file
    calls it, with the response format as second argument) and the clock. *)
Inductive call : Type → Type :=
| AcctStore_get (acctEmail : string) (keys : list string) : call (Dict string)
| AcctStore_set (acctEmail : string) (values : Dict (option string)) : call unit
| InMemoryStore_get (acctEmail : string) (key : InMemoryStoreKey)
  : call (option string)
| InMemoryStore_set (acctEmail : string) (key : InMemoryStoreKey)
    (value : string) (expiration : option Z) : call unit
| Api_ajax (t : ResTy) (req : Ajax) (resFmt : string) : call (res t)
| Date_now : call Z.

(** Nothing is sent out unanswered here, and no function has locals that
    change. *)
Abbreviation Prog := (Async.Prog call Empty_set unit).

Record Externals : Type := {
  OAUTH_GOOGLE_API_HOST : string;                  (* core/const.ts *)
  Url_create : string → Dict string → string;      (* Url.create *)
  stackTrace : string;                             (* Catch.stackTrace() *)
  newErrorStack : string → string;
  GoogleAuthErr : string → JsError;                (* new GoogleAuthErr(m) *)
  isAuthErr : thrown → bool;                       (* ApiErr.isAuthErr *)
  parseIdToken : string → thrown + Claims;         (* OAuth.parseIdToken *)
}.

(** [GoogleOAuth.OAUTH] *)
Definition client_id : string :=
  "717284730244-5oejn54f10gnrektjdc4fv4rbic1bj1p.apps.googleusercontent.com".
Definition client_secret : string := "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".
Definition redirect_uri : string := "https://www.google.com/robots.txt".
Definition url_tokens (x : Externals) : string :=
  OAUTH_GOOGLE_API_HOST x +:+ "/token".

Definition new_Error (x : Externals) (message : string) : thrown :=
  ThrowErr {| cls := ClsError; Js.message := message;
              Js.stack := Some (newErrorStack x message) |}.

(** [a || b] on optional strings. *)
Definition or_else (a b : option string) : option string :=
  if truthy_str a then a else b.

Definition googleAuthGetTokens (x : Externals) (code : string)
  : Prog GoogleAuthTokensResponse :=
  Call (Api_ajax AsTokens
          {| url := Url_create x (url_tokens x)
                      [("grant_type", "authorization_code"); ("code", code);
                       ("client_id", client_id);
                       ("client_secret", client_secret);
                       ("redirect_uri", redirect_uri)];
             method := "POST"; stack := stackTrace x;
             timeout := None; headers := None |}
          "json").

Definition googleAuthRefreshToken (x : Externals) (refreshToken : string)
  : Prog GoogleAuthTokensResponse :=
  let url := Url_create x (url_tokens x)
               [("grant_type", "refresh_token"); ("refreshToken", refreshToken);
                ("client_id", client_id); ("client_secret", client_secret)] in
  let req := {| url := url; method := "POST"; stack := stackTrace x;
                timeout := None; headers := None |} in
  Call (Api_ajax AsTokens req "json").

Definition googleAuthSaveTokens (x : Externals) (acctEmail : string)
    (tokensObj : GoogleAuthTokensResponse) : Prog unit :=
  match parseIdToken x (id_token tokensObj) with
  | inl e => Throw e
  | inr parsedOpenId =>
      stored ← Call (AcctStore_get acctEmail ["full_name"; "picture"]);
      now ← Call Date_now;
      (* let our copy expire 2 minutes beforehand *)
      let googleTokenExpires := (now + (expires_in tokensObj - 120) * 1000)%Z in
      let toSave :=
        [("full_name", or_else (dict_get "full_name" stored) (name parsedOpenId));
         ("picture", or_else (dict_get "picture" stored) (picture parsedOpenId))] in
      let toSave :=
        match refresh_token tokensObj with
        | Some refresh_token =>
            dict_set "google_token_refresh" (Some refresh_token) toSave
        | None => toSave
        end in
      _ ← Call (AcctStore_set acctEmail toSave);
      _ ← Call (InMemoryStore_set acctEmail ID_TOKEN (id_token tokensObj) None);
      Call (InMemoryStore_set acctEmail GOOGLE_TOKEN_ACCESS
              (access_token tokensObj) (Some googleTokenExpires))
  end.

(** [retrieveAndSaveAuthToken]; it returns [{ id_token }]. *)
Definition retrieveAndSaveAuthToken (x : Externals) (authCode : string)
  : Prog string :=
  tokensObj ← googleAuthGetTokens x authCode;
  match parseIdToken x (id_token tokensObj) with
  | inl e => Throw e
  | inr claims =>
      if negb (truthy_str (email claims)) then
        Throw (new_Error x "Missing email address in id_token")
      else
        _ ← googleAuthSaveTokens x (default "" (email claims)) tokensObj;
        mret (id_token tokensObj)
  end.

(** [googleApiAuthHeader] from [// refresh token] on, where the source
    arrives from two places: when a refresh is forced and when the
    in-memory store has no access token. *)
Definition googleApiAuthHeader_refresh (x : Externals) (acctEmail : string)
    (google_token_refresh : string) : Prog string :=
  refreshTokenRes ← googleAuthRefreshToken x google_token_refresh;
  let giveUp : Prog string :=
    now ← Call Date_now;
    Throw (ThrowErr (GoogleAuthErr x
      ("Could not refresh google auth token - did not become valid (access:"
       +:+ access_token refreshTokenRes +:+ ",expires_in:" +:+
       pretty (expires_in refreshTokenRes) +:+ ",now:" +:+ pretty now
       +:+ ")"))) in
  if negb (bool_decide (access_token refreshTokenRes = "")) then
    _ ← googleAuthSaveTokens x acctEmail refreshTokenRes;
    googleAccessToken ← Call (InMemoryStore_get acctEmail GOOGLE_TOKEN_ACCESS);
    if truthy_str googleAccessToken
    then mret ("Bearer " +:+ default "" googleAccessToken)
    else giveUp
  else giveUp.

Definition googleApiAuthHeader (x : Externals) (acctEmail : string)
    (forceRefresh : bool) : Prog string :=
  if bool_decide (acctEmail = "") then
    Throw (new_Error x "missing account_email in api_gmail_call")
  else
    storage ← Call (AcctStore_get acctEmail ["google_token_refresh"]);
    let google_token_refresh := dict_get "google_token_refresh" storage in
    if negb (truthy_str google_token_refresh) then
      Throw (ThrowErr (GoogleAuthErr x
        ("Account " +:+ acctEmail +:+
         " not connected to FlowCrypt Browser Extension")))
    else
      let refresh :=
        googleApiAuthHeader_refresh x acctEmail
          (default "" google_token_refresh) in
      if negb forceRefresh then
        googleAccessToken ←
          Call (InMemoryStore_get acctEmail GOOGLE_TOKEN_ACCESS);
        if truthy_str googleAccessToken
        then mret ("Bearer " +:+ default "" googleAccessToken)
        else refresh
      else refresh.

(** [{ ...req, headers: { ...(req.headers ?? {}), authorization },
       stack: Catch.stackTrace() }] *)
Definition authorized (x : Externals) (req : Ajax) (authorization : string)
  : Ajax :=
  {| url := url req; method := method req; timeout := timeout req;
     headers := Some (dict_set "authorization" authorization
                               (default [] (headers req)));
     stack := stackTrace x |}.

Definition apiGoogleCallRetryAuthErrorOneTime (x : Externals)
    (acctEmail : string) (req : Ajax) : Prog value :=
  TryCatch (Call (Api_ajax AsJson req "json"))
    (λ firstAttemptErr,
       if isAuthErr x firstAttemptErr then
         (* force refresh token *)
         authorization ← googleApiAuthHeader x acctEmail true;
         Call (Api_ajax AsJson (authorized x req authorization) "json")
       else Throw firstAttemptErr).

(** ** What a run shows *)

(** The requests handed to [Api.ajax]. *)
Definition requests (t : list (event call Empty_set)) : list Ajax :=
  omap (λ ev, match ev with
              | Ev c _ =>
                  match c with Api_ajax _ req _ => Some req | _ => None end
              | Told _ => None
              end) t.

(** The writes to the two stores: account, key, value. *)
Definition saved_in_memory (t : list (event call Empty_set))
  : list (string * InMemoryStoreKey * string * option Z) :=
  omap (λ ev, match ev with
              | Ev c _ =>
                  match c with
                  | InMemoryStore_set a k v e => Some (a, k, v, e)
                  | _ => None
                  end
              | Told _ => None
              end) t.

Definition saved_in_account (t : list (event call Empty_set))
  : list (string * Dict (option string)) :=
  omap (λ ev, match ev with
              | Ev c _ =>
                  match c with
                  | AcctStore_set a values => Some (a, values)
                  | _ => None
                  end
              | Told _ => None
              end) t.

(** The reads of the in-memory store, with their answers. *)
Definition read_in_memory (t : list (event call Empty_set))
  : list (string * InMemoryStoreKey * Promise (option string)) :=
  omap (λ ev, match ev with
              | Ev c a =>
                  match c in call A return Promise A → option _ with
                  | InMemoryStore_get acct k => λ a, Some (acct, k, a)
                  | _ => λ _, None
                  end a
              | Told _ => None
              end) t.

(** The request that trades an authorization code for tokens. *)
Definition code_request (x : Externals) (code : string) : Ajax :=
  {| url := Url_create x (url_tokens x)
              [("grant_type", "authorization_code"); ("code", code);
               ("client_id", client_id); ("client_secret", client_secret);
               ("redirect_uri", redirect_uri)];
     method := "POST"; stack := stackTrace x;
     timeout := None; headers := None |}.

(** The request that asks the token endpoint to refresh. *)
Definition refresh_request (x : Externals) (refreshToken : string) : Ajax :=
  {| url := Url_create x (url_tokens x)
              [("grant_type", "refresh_token"); ("refreshToken", refreshToken);
               ("client_id", client_id); ("client_secret", client_secret)];
     method := "POST"; stack := stackTrace x;
     timeout := None; headers := None |}.

End GoogleOAuthTokens.

(* ===================================================================== *)
(** * The pass phrase dialog ([PassphraseView])                           *)
(* ===================================================================== *)

Module PassphraseView.

Import Async.

(** [KeyInfoWithIdentity], the fields the view reads. *)
Record KeyInfo : Type := {
  private : string;
  longid : string;
  fingerprints : list string;
}.

Inductive StorageType : Type := session | local.

(** The fields of the view that [closeDialog] and [submitHandler] read. *)
Record View : Type := {
  acctEmail : string;
  parentTabId : string;
  longids : list string;
  initiatorFrameId : option string;
  fesUrl : option string;
}.

(** The locals of [submitHandler] that are assigned to. *)
Record Locals : Type := {
  atLeastOneMatched : bool;
  unlockCount : nat;              (* may include non-matching keys *)
}.

Section view.

(** A parsed key ([Key] of core/crypto/key.ts). *)
Context {Key : Type}.

(** What the view reads from the page and asks of the other modules.  The
    reads of the page are calls too: they may throw. *)
Inductive call : Type → Type :=
| passphrase_val : call string        (* String($('#passphrase').val()) *)
| forget_checked : call bool
    (* $('.forget-pass-phrase-checkbox').prop('checked'), as a condition *)
| forbidStoringPassPhrase : call bool (* of this.clientConfiguration *)
| KeyStore_get (acctEmail : string) : call (list KeyInfo)
| KeyUtil_parse (text : string) : call Key
| KeyUtil_decrypt (prv : Key) (passphrase : string) : call bool
| PassphraseStore_set (storageType : StorageType) (acctEmail : string)
    (keyinfo : KeyInfo) (passphrase : string) : call unit
| Ui_modal_error (msg : string) : call unit.

(** The function a timeout is set for. *)
Inductive callback : Type := call_renderNormalPpPrompt.

(** What the view does without using an answer: the calls of
    [BrowserMsg.send] with the arguments the view passes, the writes to the
    page, the toast and the timeout. *)
Inductive output : Type :=
| BrowserMsg_send_closeDialog (arg : string)
| BrowserMsg_send_passphraseEntry (arg : string) (entered : bool)
    (initiatorFrameId : option string)
| BrowserMsg_send_addEndSessionBtn (arg : string)
| Ui_toast (text : string)
| jq_val (selector value : string)
| jq_css (selector property value : string)
| jq_attr (selector name value : string)
| jq_focus (selector : string)
| Catch_setHandledTimeout (cb : callback) (ms : Z).

Abbreviation Prog := (Async.Prog call output Locals).

Record Externals : Type := {
  String_of : JsError → string;                   (* String(e) *)
  contactMinimalSubsentence : bool → string;      (* Lang.general *)
}.

Definition renderNormalPpPrompt : Prog unit :=
  _ ← Tell (jq_css "#passphrase" "border-color" "");
  _ ← Tell (jq_css "#passphrase" "color" "black");
  Tell (jq_focus "#passphrase").

Definition renderFailedEntryPpPrompt : Prog unit :=
  _ ← Tell (jq_val "#passphrase" "");
  _ ← Tell (jq_css "#passphrase" "border-color" "red");
  _ ← Tell (jq_css "#passphrase" "color" "red");
  Tell (jq_attr "#passphrase" "placeholder" "Please try again").

(** [closeDialog(entered = false, initiatorFrameId?)], the defaults
    written out by the callers. *)
Definition closeDialog (v : View) (entered : bool)
    (initiatorFrameId : option string) : Prog unit :=
  _ ← Tell (BrowserMsg_send_closeDialog (parentTabId v));
  Tell (BrowserMsg_send_passphraseEntry "broadcast" entered initiatorFrameId).

Definition newline : string := String (Ascii.ascii_of_nat 10) "".

(** The [catch] block of the loop of [submitHandler]. *)
Definition submitHandler_catch (x : Externals) (v : View) (keyinfo : KeyInfo)
    (e : thrown) : Prog unit :=
  match e with
  | ThrowErr err =>
      if bool_decide (message err = "Unknown s2k type.") then
        let msg :=
          "Your key with fingerprint "
          +:+ show_opt (head (fingerprints keyinfo))
          +:+ " is not supported yet (" +:+ String_of x err +:+ ")." in
        let msg :=
          msg +:+ newline +:+ newline +:+ "Please "
          +:+ contactMinimalSubsentence x (truthy_str (fesUrl v))
          +:+ " with details about how this key was created." in
        Call (Ui_modal_error msg)
      else Throw e
  | ThrowVal _ => Throw e
  end.

(** The body of the loop of [submitHandler], for one key. *)
Definition submitHandler_key (x : Externals) (v : View) (pass : string)
    (storageType : StorageType) (keyinfo : KeyInfo) : Prog unit :=
  prv ← Call (KeyUtil_parse (private keyinfo));
  TryCatch
    (decrypted ← Call (KeyUtil_decrypt prv pass);
     if (decrypted : bool) then
       l ← Get;
       _ ← Put {| atLeastOneMatched := atLeastOneMatched l;
                  unlockCount := S (unlockCount l) |};
       _ ← Call (PassphraseStore_set storageType (acctEmail v) keyinfo pass);
       _ ← (if bool_decide (longid keyinfo ∈ longids v) then
              l ← Get;
              Put {| atLeastOneMatched := true; unlockCount := unlockCount l |}
            else mret tt);
       match storageType with
       | session => Tell (BrowserMsg_send_addEndSessionBtn (parentTabId v))
       | local => mret tt
       end
     else mret tt)
    (submitHandler_catch x v keyinfo).

Definition toast_text (unlockCount length : nat) : string :=
  pretty unlockCount +:+ " of " +:+ pretty length +:+ " keys "
  +:+ (if 1 <? unlockCount then "were" else "was")
  +:+ " unlocked by this pass phrase".

(** [submitHandler] from the declaration of its two counters on, with
    the pass phrase and the storage type it has read. *)
Definition submitHandler_with (x : Externals) (v : View) (pass : string)
    (storageType : StorageType) : Prog unit :=
  _ ← Put {| atLeastOneMatched := false; unlockCount := 0 |};
  allPrivateKeys ← Call (KeyStore_get (acctEmail v));
  (* if passphrase matches more keys, it will save the pass phrase for all
     keys *)
  _ ← for_of allPrivateKeys (submitHandler_key x v pass storageType);
  l ← Get;
  _ ← (if negb (unlockCount l =? 0) && (1 <? length allPrivateKeys) then
         Tell (Ui_toast (toast_text (unlockCount l) (length allPrivateKeys)))
       else mret tt);
  if atLeastOneMatched l then closeDialog v true (initiatorFrameId v)
  else
    _ ← renderFailedEntryPpPrompt;
    Tell (Catch_setHandledTimeout call_renderNormalPpPrompt 1500).

Definition submitHandler (x : Externals) (v : View) : Prog unit :=
  pass ← Call passphrase_val;
  checked ← Call forget_checked;
  (* checked || this.clientConfiguration.forbidStoringPassPhrase() *)
  forget ← (if (checked : bool) then mret true
            else Call forbidStoringPassPhrase);
  submitHandler_with x v pass (if (forget : bool) then session else local).

(** ** What a run shows *)

(** The calls of [PassphraseStore.set], with their answers. *)
Definition stores (t : list (event call output))
  : list (StorageType * string * KeyInfo * string * Promise unit) :=
  omap (λ ev, match ev with
              | Ev c a =>
                  match c in call A return Promise A → option _ with
                  | PassphraseStore_set st acct ki pp =>
                      λ a, Some (st, acct, ki, pp, a)
                  | _ => λ _, None
                  end a
              | Told _ => None
              end) t.

(** The pass phrase is in store for this key. *)
Definition stored (e : StorageType * string * KeyInfo * string * Promise unit)
  : bool :=
  match e.2 with Resolved _ => true | _ => false end.

(** A key that the dialog was opened for has its pass phrase in store. *)
Definition matched (v : View) (t : list (event call output)) : bool :=
  existsb (λ e, stored e && bool_decide (longid e.1.1.2 ∈ longids v))
          (stores t).

Definition outputs (t : list (event call output)) : list output :=
  omap (λ ev, match ev with Told o => Some o | Ev _ _ => None end) t.

End view.

Arguments call : clear implicits.

End PassphraseView.

(* ===================================================================== *)
(** * Further concrete inputs                                             *)
(* ===================================================================== *)

Module Examples.

Import BrowserMsg.



(** A build of an unknown flavor, and an auth window whose flow fails. *)
Definition oauth_build (flavor : string)
    (flow : Promise GoogleOAuth.AuthWindowResult) : GoogleOAuth.Externals :=
  {| GoogleOAuth.FLAVOR := flavor;
     GoogleOAuth.toLowerCase := id;
     GoogleOAuth.randomFortyHexChars := "00";
     GoogleOAuth.stringifyAuthReq := λ _ _ csrf, csrf;
     GoogleOAuth.authCodeUrl := λ state _ _,
       "https://accounts.test/auth?state=" +:+ state;
     GoogleOAuth.webAuthFlow := λ _, flow;
     GoogleOAuth.parseAuthUrl := λ _,
       inr (GoogleOAuth.scope_compose, Some "4", "CRYPTUP_STATE_csrf-00");
     GoogleOAuth.retrieveAndSaveAuthToken := λ _, Resolved "id-token";
     GoogleOAuth.googleAuthGetTokens := λ _, Resolved "id-token";
     GoogleOAuth.parseIdToken := λ _, inr (Some "user@example.test");
     GoogleOAuth.setUpAccount := λ _, None;
     GoogleOAuth.isFesUnreachableErr := λ _ _, false;
     GoogleOAuth.String_of := λ _, "Error";
     GoogleOAuth.newErrorStack := λ m, "Error: " +:+ m |}.

(** The token functions in a build whose identity tokens are the email
    address itself, and where an authorization error is one whose message
    is "401". *)
Definition token_build : GoogleOAuthTokens.Externals :=
  {| GoogleOAuthTokens.OAUTH_GOOGLE_API_HOST := "https://oauth2.test";
     GoogleOAuthTokens.Url_create := λ url params,
       url +:+ "?" +:+ String.concat "&" ((λ kv, kv.1 +:+ "=" +:+ kv.2) <$> params);
     GoogleOAuthTokens.stackTrace := "";
     GoogleOAuthTokens.newErrorStack := λ m, "Error: " +:+ m;
     GoogleOAuthTokens.GoogleAuthErr := λ m,
       {| cls := ClsError; message := m; Js.stack := None |};
     GoogleOAuthTokens.isAuthErr := λ e,
       match e with
       | ThrowErr err => bool_decide (message err = "401")
       | _ => false
       end;
     GoogleOAuthTokens.parseIdToken := λ id_token,
       inr {| GoogleOAuthTokens.email := Some id_token;
              GoogleOAuthTokens.name := Some "A. User";
              GoogleOAuthTokens.picture := None |} |}.

(** An outside whose state is the access token in the in-memory store.
    The account has a refresh token; the token endpoint hands out
    [ya29.fresh] for an hour; the Google API takes that token only, and
    answers any other request with a 401. *)
Definition token_world : Async.World GoogleOAuthTokens.call :=
  {| Async.state := option string;
     Async.answer := λ A c,
       match c in GoogleOAuthTokens.call A
             return option string → Promise A * option string with
       | GoogleOAuthTokens.AcctStore_get _ keys => λ s,
           (Resolved
              (filter (λ kv, kv.1 ∈ keys)
                 [("google_token_refresh", "1//refresh");
                  ("full_name", "A. User")]), s)
       | GoogleOAuthTokens.AcctStore_set _ _ => λ s, (Resolved tt, s)
       | GoogleOAuthTokens.InMemoryStore_get _ k => λ s,
           match k with
           | GoogleOAuthTokens.GOOGLE_TOKEN_ACCESS => (Resolved s, s)
           | GoogleOAuthTokens.ID_TOKEN => (Resolved None, s)
           end
       | GoogleOAuthTokens.InMemoryStore_set _ k v _ => λ s,
           match k with
           | GoogleOAuthTokens.GOOGLE_TOKEN_ACCESS => (Resolved tt, Some v)
           | GoogleOAuthTokens.ID_TOKEN => (Resolved tt, s)
           end
       | GoogleOAuthTokens.Api_ajax t req _ => λ s,
           match t return Promise (GoogleOAuthTokens.res t) * option string with
           | GoogleOAuthTokens.AsTokens =>
               (Resolved
                  {| GoogleOAuthTokens.access_token := "ya29.fresh";
                     GoogleOAuthTokens.expires_in := 3600;
                     GoogleOAuthTokens.refresh_token := None;
                     GoogleOAuthTokens.id_token := "user@example.test" |}, s)
           | GoogleOAuthTokens.AsJson =>
               (if bool_decide
                     (GoogleOAuthTokens.headers req
                      = Some [("authorization", "Bearer ya29.fresh")])
                then Resolved (VObj [("id", VStr "m1")])
                else Rejected (ThrowErr {| cls := ClsError; message := "401";
                                           Js.stack := None |}), s)
           end
       | GoogleOAuthTokens.Date_now => λ s, (Resolved 1700000000000%Z, s)
       end |}.

(** A call of the Gmail API with no authorization header. *)
Definition list_messages : GoogleOAuthTokens.Ajax :=
  {| GoogleOAuthTokens.url := "https://gmail.test/gmail/v1/users/me/messages";
     GoogleOAuthTokens.method := "GET";
     GoogleOAuthTokens.timeout := None;
     GoogleOAuthTokens.stack := "";
     GoogleOAuthTokens.headers := None |}.

(** A pass phrase dialog opened from frame 7 for the first of the two keys
    of the account. *)
Definition dialog : PassphraseView.View :=
  {| PassphraseView.acctEmail := "user@example.test";
     PassphraseView.parentTabId := "tab-1";
     PassphraseView.longids := ["AAAA1111"];
     PassphraseView.initiatorFrameId := Some "frame-7";
     PassphraseView.fesUrl := None |}.

Definition key1 : PassphraseView.KeyInfo :=
  {| PassphraseView.private := "prv-1";
     PassphraseView.longid := "AAAA1111";
     PassphraseView.fingerprints := ["F1"] |}.

Definition key2 : PassphraseView.KeyInfo :=
  {| PassphraseView.private := "prv-2";
     PassphraseView.longid := "BBBB2222";
     PassphraseView.fingerprints := ["F2"] |}.

Definition dialog_build : PassphraseView.Externals :=
  {| PassphraseView.String_of := λ e, "Error: " +:+ message e;
     PassphraseView.contactMinimalSubsentence := λ _, "contact us" |}.

(** An outside where a parsed key is its text, the box to forget the pass
    phrase is ticked, and the typed pass phrase decrypts the first key;
    [second] is how decrypting the second key goes. *)
Definition dialog_world (second : Promise bool)
  : Async.World (PassphraseView.call string) :=
  {| Async.state := unit;
     Async.answer := λ A c s,
       (match c in PassphraseView.call _ A return Promise A with
        | PassphraseView.passphrase_val => Resolved "correct horse"
        | PassphraseView.forget_checked => Resolved true
        | PassphraseView.forbidStoringPassPhrase => Resolved false
        | PassphraseView.KeyStore_get _ => Resolved [key1; key2]
        | PassphraseView.KeyUtil_parse text => Resolved text
        | PassphraseView.KeyUtil_decrypt prv pass =>
            if bool_decide (prv = "prv-1")
            then Resolved (bool_decide (pass = "correct horse"))
            else second
        | PassphraseView.PassphraseStore_set _ _ _ _ => Resolved ()
        | PassphraseView.Ui_modal_error _ => Resolved ()
        end, s) |}.

(** The locals of a function that has not run yet. *)
Definition no_locals : PassphraseView.Locals :=
  {| PassphraseView.atLeastOneMatched := false;
     PassphraseView.unlockCount := 0 |}.

End Examples.

Import BrowserMsg.

(* ===================================================================== *)
(** * Properties                                                          *)
(* ===================================================================== *)

(** ** Objects as ordered dictionaries *)

Section dict_facts.
Context {A : Type}.
Implicit Types (d : Dict A) (k : string) (v : A).








End dict_facts.

(** ** The blob store *)

Lemma handle_of_inj n m : handle_of n = handle_of m → n = m.
Proof.
  unfold handle_of. intros H.
  apply (inj (String.app "blob:")) in H. by apply (inj pretty) in H.
Qed.

Lemma objUrlCreate_wf content st :
  store_wf st → store_wf (objUrlCreate content st).2.
Proof.
  intros Hwf n. simpl. rewrite lookup_insert. case_decide as Heq.
  - apply handle_of_inj in Heq. intros _. lia.
  - intros H. apply Hwf in H. lia.
Qed.

Lemma objUrlConsume_wf h st :
  store_wf st → store_wf (objUrlConsume h st).2.
Proof.
  intros Hwf n. unfold objUrlConsume.
  destruct (blobs st !! h) eqn:E; simpl; [|apply Hwf].
  rewrite lookup_delete. case_decide; [by intros [? ?]|apply Hwf].
Qed.

(** ** Encoding: [replaceBufWithObjUrlInplace] *)



(** ** Decoding: [replaceObjUrlWithBuf] *)



(** ** Binary indirection round trip *)



Lemma store_wf_empty : store_wf empty_store.
Proof. intros n [b Hb]. simpl in Hb. by rewrite lookup_empty in Hb. Qed.


(** ** Reading a registry *)

Lemma HANDLERS_get_own H name handler :
  H !! name = Some handler → HANDLERS_get H name = Some (OwnHandler handler).
Proof. intros Hh. unfold HANDLERS_get. by rewrite Hh. Qed.

Lemma HANDLERS_get_None H name :
  HANDLERS_get H name = None
  ↔ H !! name = None ∧ name ∉ Object_prototype_names.
Proof.
  unfold HANDLERS_get. destruct (H !! name).
  { split; [done|]. by intros []. }
  case_bool_decide; split; try done. by intros [].
Qed.

Lemma HANDLERS_get_inherited H name :
  H !! name = None → name ∈ Object_prototype_names →
  HANDLERS_get H name = Some (Inherited name).
Proof.
  intros Hh Hin. unfold HANDLERS_get. by rewrite Hh, bool_decide_eq_true_2.
Qed.

(** ** Error marshalling *)

(** C6.  A handler failure marshalled with [errToJson] and rebuilt with
    [jsonToErr] on the caller's side has the message
    [BrowserMsg(<name>) <remote message>], and its stack ends with the
    caller's send-time stack and the responder's stack between their
    markers.  An [AjaxErr] comes back as an [AjaxErr] with the very same
    status, url, responseText and statusText, the remote message and the
    responder's stack being those of the original.  Any other failure
    comes back as a plain [Error]; the remote message and the responder's
    stack are those of the failure as [Catch.rewrapErr] hands it on, and
    the stack starts with the stack of the error made on the caller's
    side. *)
Theorem error_marshalling_fidelity (responder caller : Env) (e : thrown)
    (msg : Raw) :
  let record := errToJson responder e in
  let e' := jsonToErr caller record msg in
  let between (responderStack : option string) :=
    nl +:+ nl +:+ "[callerStack]" +:+ nl +:+ stack msg +:+ nl
    +:+ "[/callerStack]" +:+ nl +:+ nl +:+ "[responderStack]" +:+ nl
    +:+ show_opt responderStack +:+ nl +:+ "[/responderStack]" +:+ nl in
  Js.message e' = "BrowserMsg(" +:+ name msg +:+ ") " +:+ json_message record
  ∧ (∃ pre, Js.stack e' = Some (pre +:+ between (json_stack record)))
  ∧ match e with
    | ThrowErr {| cls := ClsAjaxErr d; Js.message := m; Js.stack := s |} =>
        record = AjaxErrAsJson s m d
        ∧ e' = {| cls := ClsAjaxErr d;
                  Js.message := "BrowserMsg(" +:+ name msg +:+ ") " +:+ m;
                  Js.stack := Some (between s) |}
    | _ =>
        let rewrapped := rewrapErr responder e "sendRawResponse" in
        record = StandardErrAsJson (Js.stack rewrapped) (Js.message rewrapped)
        ∧ e' = {| cls := ClsError;
                  Js.message := "BrowserMsg(" +:+ name msg +:+ ") "
                                +:+ Js.message rewrapped;
                  Js.stack :=
                    Some (newErrorStack caller
                            ("BrowserMsg(" +:+ name msg +:+ ") "
                             +:+ Js.message rewrapped)
                          +:+ between (Js.stack rewrapped)) |}
    end.
Proof.
  intros record e' between. subst record e' between.
  destruct e as [[c m s]|v]; [destruct c|]; simpl;
    (split; [reflexivity|]); (split; [|done]);
    first [by exists "" | by eexists (newErrorStack caller _)].
Qed.

(** The 404 of the spec's scenario, as the caller sees it. *)
Example error_fidelity_404 :
  let e' := jsonToErr Scenario.env3 (errToJson Scenario.bg_env Scenario.ajax_404)
                      (Scenario.ping_msg "id-1" None) in
  (∃ d, cls e' = ClsAjaxErr d ∧ status d = 404%Z ∧ responseText d = "not found")
  ∧ Js.message e' = "BrowserMsg(ping) 404 when GET-ing key".
Proof. split; [by eexists|reflexivity]. Qed.

(** ** The reply callback *)

(** How [processRawMsgResponse] settles an awaited call whose reply is not
    an object, by what [chrome.runtime.lastError] holds at that moment. *)
Lemma reply_not_object (env : Env) (destString : option string) (msg : Raw)
    (r : prim) (lastError : option (option string)) (st : BlobStore) :
  ∃ e,
    processRawMsgResponse env destString msg true (NotAnObject r) lastError st
      = (Rejected (ThrowErr e), st)
    ∧ Js.stack e = Some (stack msg +:+ nl +:+ nl +:+
                         newErrorStack env (Js.message e))
    ∧ (destString = None → r = PUndefined →
       (∀ text, lastError = Some (Some text) →
          (text = "Could not establish connection. Receiving end does not exist."
           ∨ text = "The message port closed before a response was received." →
             cls e = ClsBgNotReadyErr ∧
             Js.message e = "BgNotReadyErr: BrowserMsg.sendAwait(" +:+ name msg
                            +:+ ") failed with lastError: " +:+ text)
          ∧ (text = "The object could not be cloned." →
             cls e = ClsError ∧
             Js.message e = "BrowserMsg.sendAwait(" +:+ name msg +:+
                            ") failed with lastError: " +:+ text)
          ∧ (text ≠ "" →
             text ≠ "Could not establish connection. Receiving end does not exist." →
             text ≠ "The message port closed before a response was received." →
             text ≠ "The object could not be cloned." →
             cls e = ClsError ∧
             Js.message e = "BrowserMsg.sendAwait(" +:+ name msg +:+
                            ") failed with unknown lastError: " +:+ text)
          ∧ (text = "" →
             cls e = ClsError ∧
             Js.message e = "BrowserMsg.sendAwait(" +:+ name msg +:+
                            ") failed with unknown lastError: (empty lastError)"))
       ∧ (lastError = Some None →
            cls e = ClsError ∧
            Js.message e = "BrowserMsg.sendAwait(" +:+ name msg +:+
                           ") failed with unknown lastError: (empty lastError)")
       ∧ (lastError = None →
            cls e = ClsError ∧
            Js.message e = "BrowserMsg.sendAwait(" +:+ name msg +:+
                           ") failed with unknown lastError: (no lastError)"))
    ∧ (¬ (destString = None ∧ r = PUndefined) →
         cls e = ClsError ∧
         Js.message e
         = "BrowserMsg.sendAwait(" +:+ name msg +:+ ") returned("
           +:+ String_of_prim r +:+ ") with lastError: "
           +:+ match lastError with
               | Some (Some text) =>
                   if bool_decide (text = "") then "(empty lastError)" else text
               | Some None => "(empty lastError)"
               | None => "(no lastError)"
               end).
Proof.
  unfold processRawMsgResponse. cbn [negb]. cbv iota.
  assert (Htext : lastError_text lastError
                  = match lastError with
                    | Some (Some text) =>
                        if bool_decide (text = "") then "(empty lastError)"
                        else text
                    | Some None => "(empty lastError)"
                    | None => "(no lastError)"
                    end).
  { destruct lastError as [[text|]|]; [|done..]. simpl.
    by destruct (bool_decide (text = "")). }
  destruct destString as [d|]; [|destruct r].
  2: {
    destruct lastError as [[text|]|].
    - destruct (decide (text = "")) as [->|Hne].
      { eexists. split; [reflexivity|]. split; [reflexivity|]. split.
        - intros _ _. split_and!; try done.
          intros text [= <-]. split_and!; try done. by intros [?|?].
        - intros H. by destruct H. }
      rewrite Htext, (bool_decide_eq_false_2 _ Hne).
      destruct (decide (text = "The object could not be cloned.")) as [Hc|Hc].
      { rewrite (bool_decide_eq_true_2 _ Hc).
        eexists. split; [reflexivity|]. split; [reflexivity|]. split.
        - intros _ _. split_and!; try done.
          intros text' [= <-]. split_and!; try done.
          intros [H|H]; rewrite Hc in H; discriminate.
        - intros H. by destruct H. }
      rewrite (bool_decide_eq_false_2 _ Hc).
      destruct (decide (text = "Could not establish connection. Receiving end does not exist.")) as [Hn|Hn].
      { rewrite (bool_decide_eq_true_2 _ Hn). cbn [orb].
        eexists. split; [reflexivity|]. split; [reflexivity|]. split.
        - intros _ _. split_and!; try done.
          intros text' [= <-]. split_and!; try done.
        - intros H. by destruct H. }
      rewrite (bool_decide_eq_false_2 _ Hn). cbn [orb].
      destruct (decide (text = "The message port closed before a response was received.")) as [Hp|Hp].
      { rewrite (bool_decide_eq_true_2 _ Hp).
        eexists. split; [reflexivity|]. split; [reflexivity|]. split.
        - intros _ _. split_and!; try done.
          intros text' [= <-]. split_and!; try done.
        - intros H. by destruct H. }
      rewrite (bool_decide_eq_false_2 _ Hp).
      eexists. split; [reflexivity|]. split; [reflexivity|]. split.
      + intros _ _. split_and!; try done.
        intros text' [= <-]. split_and!; try done. by intros [?|?].
      + intros H. by destruct H.
    - eexists. split; [reflexivity|]. split; [reflexivity|]. split.
      + intros _ _. split_and!; done.
      + intros H. by destruct H.
    - eexists. split; [reflexivity|]. split; [reflexivity|]. split.
      + intros _ _. split_and!; done.
      + intros H. by destruct H. }
  all: rewrite Htext.
  all: eexists; split; [reflexivity|]; split; [reflexivity|]; split;
    [intros; discriminate|intros _; split; reflexivity].
Qed.

(** With a callback from the browser, [sendRaw] outside the background
    page settles as [processRawMsgResponse] says. *)
Lemma sendRaw_runtime_reply (env : Env) destString nm bm objUrls awaitRes
    iv r lastError st :
  isBackgroundPage env = false → chrome_runtime env = true →
  let sent := sendRaw env destString nm bm objUrls awaitRes iv
                      (CallbackWith r lastError) st in
  (sent.1.1, sent.2)
  = processRawMsgResponse env destString
      (sendRaw_msg env destString nm bm objUrls iv) awaitRes r lastError st.
Proof.
  intros Hbg Hrt. unfold sendRaw. rewrite Hbg, Hrt.
  by destruct (processRawMsgResponse _ _ _ _ _ _ _).
Qed.

(** C2.  An awaited call that goes through [chrome.runtime.sendMessage]
    and whose reply is not an object is rejected, with an error of one of
    four shapes and nothing else.  With no destination and an [undefined]
    reply: a [BgNotReadyErr] when [chrome.runtime.lastError] holds one of
    the two "not ready" texts, a plain [Error] when it holds the "not
    cloned" text, and for any other text, or none, a plain [Error] that
    names the message and quotes the text (or says that there is none).
    In every other case a plain [Error] that names the message, the reply
    and the text.  The stack is the sender's stack, a blank line, and the
    stack of the error made on receipt. *)
Theorem malformed_reply_classification (env : Env) (BG : Handlers)
    (destString : option string) (nm : string) (bm : value) (iv : string)
    (r : prim) (lastError : option (option string)) (st : BlobStore) :
  isBackgroundPage env = false → chrome_runtime env = true →
  ∃ e effs st',
    sendAwait env BG destString nm bm true iv
              (CallbackWith (NotAnObject r) lastError) st
      = (Rejected (ThrowErr e), effs, st')
    ∧ Js.stack e = Some (stackTrace env +:+ nl +:+ nl +:+
                         newErrorStack env (Js.message e))
    ∧ (destString = None → r = PUndefined →
       (∀ text, lastError = Some (Some text) →
          (text = "Could not establish connection. Receiving end does not exist."
           ∨ text = "The message port closed before a response was received." →
             cls e = ClsBgNotReadyErr ∧
             Js.message e = "BgNotReadyErr: BrowserMsg.sendAwait(" +:+ nm
                            +:+ ") failed with lastError: " +:+ text)
          ∧ (text = "The object could not be cloned." →
             cls e = ClsError ∧
             Js.message e = "BrowserMsg.sendAwait(" +:+ nm +:+
                            ") failed with lastError: " +:+ text)
          ∧ (text ≠ "" →
             text ≠ "Could not establish connection. Receiving end does not exist." →
             text ≠ "The message port closed before a response was received." →
             text ≠ "The object could not be cloned." →
             cls e = ClsError ∧
             Js.message e = "BrowserMsg.sendAwait(" +:+ nm +:+
                            ") failed with unknown lastError: " +:+ text)
          ∧ (text = "" →
             cls e = ClsError ∧
             Js.message e = "BrowserMsg.sendAwait(" +:+ nm +:+
                            ") failed with unknown lastError: (empty lastError)"))
       ∧ (lastError = Some None →
            cls e = ClsError ∧
            Js.message e = "BrowserMsg.sendAwait(" +:+ nm +:+
                           ") failed with unknown lastError: (empty lastError)")
       ∧ (lastError = None →
            cls e = ClsError ∧
            Js.message e = "BrowserMsg.sendAwait(" +:+ nm +:+
                           ") failed with unknown lastError: (no lastError)"))
    ∧ (¬ (destString = None ∧ r = PUndefined) →
         cls e = ClsError ∧
         Js.message e
         = "BrowserMsg.sendAwait(" +:+ nm +:+ ") returned("
           +:+ String_of_prim r +:+ ") with lastError: "
           +:+ match lastError with
               | Some (Some text) =>
                   if bool_decide (text = "") then "(empty lastError)" else text
               | Some None => "(empty lastError)"
               | None => "(no lastError)"
               end).
Proof.
  intros Hbg Hrt. unfold sendAwait. rewrite Hbg. cbn [andb].
  destruct (replaceBufWithObjUrlInplace _ st) as [[objUrls bm'] st1].
  pose proof (sendRaw_runtime_reply env destString nm bm' objUrls true iv
                (NotAnObject r) lastError st1 Hbg Hrt) as Hreply.
  cbv zeta in Hreply.
  destruct (reply_not_object env destString
              (sendRaw_msg env destString nm bm' objUrls iv) r lastError st1)
    as (e & He & Hstack & Hcases).
  rewrite He in Hreply.
  destruct (sendRaw _ _ _ _ _ _ _ _ _) as [[p effs] st'].
  cbn [fst snd] in Hreply. injection Hreply as -> ->.
  exists e, effs, st1. split; [done|]. split; [exact Hstack|exact Hcases].
Qed.

(** The background page has no listener yet: the call from a frame is
    rejected with the transient kind. *)
Lemma malformed_reply_classification_witness :
  ∃ e,
    (sendAwait Scenario.env3 ∅ None "ping" (VObj []) true "iv-1"
       (CallbackWith (NotAnObject PUndefined)
          (Some (Some "Could not establish connection. Receiving end does not exist.")))
       empty_store).1.1 = Rejected (ThrowErr e)
    ∧ cls e = ClsBgNotReadyErr
    ∧ Js.message e
      = "BgNotReadyErr: BrowserMsg.sendAwait(ping) failed with lastError: Could not establish connection. Receiving end does not exist.".
Proof.
  destruct (malformed_reply_classification Scenario.env3 ∅ None "ping"
              (VObj []) "iv-1" PUndefined
              (Some (Some "Could not establish connection. Receiving end does not exist."))
              empty_store eq_refl eq_refl)
    as (e & effs & st' & Hrun & _ & Hcases & _).
  exists e. rewrite Hrun.
  destruct (Hcases eq_refl eq_refl) as [Htext _].
  destruct (Htext _ eq_refl) as [Hready _].
  destruct (Hready (or_introl eq_refl)) as [Hcls Hmsg].
  split_and!; [reflexivity|exact Hcls|exact Hmsg].
Defined.

(** A send that is not awaited leaves the blob store alone. *)
Lemma sendRaw_unawaited_store env destString nm bm objUrls iv tr st :
  (sendRaw env destString nm bm objUrls false iv tr st).2 = st.
Proof.
  unfold sendRaw. destruct (chrome_runtime env); [|done].
  destruct (isBackgroundPage env), tr as [r le| |[e|v]]; simpl; try done.
  all: by destruct (bool_decide _).
Qed.

(** "No receiving end" is the transient kind, "could not be cloned" a
    permanent one. *)
Example transient_and_permanent :
  let settle text :=
    (processRawMsgResponse Scenario.env3 None (Scenario.ping_msg "id-1" None)
       true (NotAnObject PUndefined) (Some (Some text)) empty_store).1 in
  (∃ e, settle no_receiving_end = Rejected (ThrowErr e)
        ∧ cls e = ClsBgNotReadyErr)
  ∧ (∃ e, settle not_cloned = Rejected (ThrowErr e) ∧ cls e = ClsError).
Proof. split; eexists; split; reflexivity. Qed.

(** An awaited call to the background page, issued elsewhere, whose
    callback gets something that is not an object: the whole call
    rejects, with a plain [Error] or a [BgNotReadyErr]. *)
Lemma awaited_call_rejects (env : Env) (BG : Handlers) (nm : string)
    (bm : value) (iv : string) (r : prim) (lastError : option (option string))
    (st : BlobStore) :
  isBackgroundPage env = false → chrome_runtime env = true →
  ∃ e effs st',
    sendAwait env BG None nm bm true iv
              (CallbackWith (NotAnObject r) lastError) st
    = (Rejected (ThrowErr e), effs, st')
    ∧ (cls e = ClsError ∨ cls e = ClsBgNotReadyErr).
Proof.
  intros Hbg Hrt. unfold sendAwait. rewrite Hbg. cbn [andb].
  destruct (replaceBufWithObjUrlInplace _ st) as [[objUrls bm'] st1].
  pose proof (sendRaw_runtime_reply env None nm bm' objUrls true iv
                (NotAnObject r) lastError st1 Hbg Hrt) as Hreply.
  cbv zeta in Hreply.
  destruct (sendRaw _ _ _ _ _ _ _ _ _) as [[p effs] st'].
  unfold processRawMsgResponse in Hreply. cbn [negb fst snd] in Hreply.
  injection Hreply as -> ->. eexists _, effs, st1. split; [reflexivity|].
  destruct r; simpl; auto.
  repeat (destruct (bool_decide _); simpl; auto).
Qed.

(** ** Fire and forget *)

(** C8 (as the code has it).  A send with [awaitRes = false] that leaves a
    context other than the background page, where [chrome.runtime] is
    there, resolves with no value when the browser calls back, whatever it
    calls back with: a response, an error record, or nothing at all
    because no handler is registered; as long as the browser does not call
    back, the promise is pending; it rejects only when handing the message
    over throws, and not even then when the error says that the extension
    context is invalidated.  [sendCatch] hands the rejection of
    [sendAwait], if there is one, to [Catch.reportErr], and to nobody
    else.  The background page's call to itself runs the handler
    in-process and settles as the handler does, awaited or not; there
    [sendCatch] reports the handler's rejection. *)
Theorem fire_and_forget_resolves (env : Env) (BG : Handlers)
    (dest : option string) (name : string) (bm : value) (iv : string)
    (st : BlobStore) :
  (isBackgroundPage env = false → chrome_runtime env = true →
   ∀ tr, ∃ effs st',
     sendAwait env BG dest name bm false iv tr st
       = (match tr with
          | CallbackWith _ _ => Resolved VUndefined
          | NoCallback => Pending
          | SendThrows e =>
              if Observed.context_invalidated e then Pending else Rejected e
          end, effs, st')
     ∧ sendCatch env BG dest name bm iv tr st
       = (match tr with
          | SendThrows e =>
              if Observed.context_invalidated e then effs
              else effs ++ [ReportErr e]
          | _ => effs
          end, st'))
  ∧ (isBackgroundPage env = true → dest = None →
     ∀ handler tr, BG !! name = Some handler →
       let req := if truthy bm then bm else VObj [] in
       (∀ awaitRes,
          sendAwait env BG dest name bm awaitRes iv tr st
          = (handler req, [Invoke None name req], st))
       ∧ sendCatch env BG dest name bm iv tr st
         = (Invoke None name req
              :: match handler req with
                 | Rejected e => [ReportErr e]
                 | _ => []
                 end, st)).
Proof.
  split.
  - intros Hbg Hrt tr. unfold sendCatch, sendAwait.
    rewrite Hbg. cbn [andb].
    destruct (replaceBufWithObjUrlInplace _ st) as [[objUrls bm'] st1].
    unfold sendRaw. rewrite Hbg, Hrt.
    destruct tr as [r le| |[e|v]]; cbn [Observed.context_invalidated].
    + unfold processRawMsgResponse. cbn [negb]. by eexists _, _.
    + by eexists _, _.
    + destruct (bool_decide _); by eexists _, _.
    + by eexists _, _.
  - intros Hbg -> handler tr Hh req.
    assert (Hrun : ∀ awaitRes,
      sendAwait env BG None name bm awaitRes iv tr st
      = (handler req, [Invoke None name req], st)).
    { intros awaitRes. unfold sendAwait. rewrite Hbg.
      rewrite bool_decide_eq_true_2 by done. cbn [andb].
      by rewrite (HANDLERS_get_own _ _ _ Hh). }
    split; [exact Hrun|]. unfold sendCatch. rewrite Hrun.
    by destruct (handler req).
Qed.

(** Nobody listens for [update_uninstall_url]: the browser calls back at
    once with nothing, and the send resolves. *)
Lemma fire_and_forget_resolves_witness :
  ∃ effs st',
     sendAwait Scenario.env3 ∅ None "update_uninstall_url" (VObj []) false
               "iv-1" (CallbackWith (NotAnObject PUndefined)
                                    (Some (Some port_closed))) empty_store
       = (Resolved VUndefined, effs, st')
     ∧ sendCatch Scenario.env3 ∅ None "update_uninstall_url" (VObj [])
               "iv-1" (CallbackWith (NotAnObject PUndefined)
                                    (Some (Some port_closed))) empty_store
       = (effs, st').
Proof.
  exact (proj1 (fire_and_forget_resolves Scenario.env3 ∅ None
                  "update_uninstall_url" (VObj []) "iv-1" empty_store)
               eq_refl eq_refl
               (CallbackWith (NotAnObject PUndefined)
                             (Some (Some port_closed)))).
Defined.

(** C8 as stated fails in two ways.  On the background page's call to
    itself the handler is called in-process whatever [awaitRes] is, so the
    promise settles as the handler does, and with no handler registered it
    rejects.  And a send from a frame that the browser has accepted does
    not resolve by that: with a handler on the background page that never
    settles, the listener there has said it will respond, the browser
    never calls the reply callback, and the promise of the send stays
    pending. *)
Lemma fire_and_forget_bypass_counterexample :
  (∃ e, sendAwait Scenario.bg_env ∅ None "settings" (VObj []) false
                  "iv-1" NoCallback empty_store
        = (Rejected e, [], empty_store))
  ∧ sendAwait Scenario.bg_env {[ "ping" := Scenario.ping ]} None "ping"
              (VObj []) false "iv-1" NoCallback empty_store
    = (Resolved (VObj [("pong", VBool true)]),
       [Invoke None "ping" (VObj [])], empty_store)
  ∧ (let msg := sendRaw_msg Scenario.env3 None "settings" (VObj []) [] "iv-1" in
     let tr := (runtime_roundtrip json Scenario.bg_env
                  {[ "settings" := Scenario.never ]} msg empty_store).1.1 in
     tr = NoCallback
     ∧ sendAwait Scenario.env3 ∅ None "settings" (VObj []) false "iv-1" tr
                 empty_store
       = (Pending, [RuntimeSendMessage msg], empty_store)).
Proof.
  split; [by eexists|]. split; [reflexivity|]. split; reflexivity.
Qed.

(** ** The path-traversal guard *)

Lemma prefix_spec (n h : string) :
  String.prefix n h = true ↔ ∃ post, h = n +:+ post.
Proof.
  revert h. induction n as [|a n IH]; intros [|b h]; simpl.
  - split; [intros _; by exists ""|done].
  - split; [intros _; by exists (String b h)|done].
  - split; [done|intros [? ?]; discriminate].
  - destruct (Ascii.ascii_dec a b) as [->|Hne].
    + rewrite IH. split; intros [post H]; exists post.
      * simpl. by rewrite H.
      * simpl in H. by injection H.
    + split; [done|]. intros [post H]. simpl in H. injection H as H1 H2.
      done.
Qed.

Lemma includes_spec (n h : string) : includes n h = true ↔ contains n h.
Proof.
  unfold contains. induction h as [|b h IH]; cbn [includes].
  - rewrite orb_false_r, prefix_spec. split.
    + intros [post H]. by exists "", post.
    + intros (pre & post & H). destruct pre; [by exists post|discriminate].
  - rewrite orb_true_iff, prefix_spec, IH. split.
    + intros [[post H]|(pre & post & H)].
      * by exists "", post.
      * exists (String b pre), post. simpl. by rewrite H.
    + intros (pre & post & H). destruct pre as [|c pre].
      * left. by exists post.
      * right. exists pre, post. simpl in H. by injection H.
Qed.

(** C10.  A URL that has [../] or [/..] as a substring makes the guard
    throw the path-traversal error; [Api.download], and [Api.ajax] outside
    a content script, then reject with that error and issue no request.  A
    URL with neither substring passes the guard. *)
Theorem path_traversal_guard (x : Api.Externals) (url : string) :
  (contains "../" url ∨ contains "/.." url →
   ∃ e, Api.throwIfApiPathTraversalAttempted x url = Some (ThrowErr e)
        ∧ cls e = ClsError
        ∧ Js.message e = "API path traversal forbidden: " +:+ url
        ∧ (∀ xhr, Api.download x url xhr = (Rejected (ThrowErr e), []))
        ∧ (Api.isContentScript x = false →
           ∀ stack viaBg jq,
             Api.ajax x (Some url) stack viaBg jq = (Rejected (ThrowErr e), [])))
  ∧ (¬ contains "../" url → ¬ contains "/.." url →
     Api.throwIfApiPathTraversalAttempted x url = None).
Proof.
  split.
  - intros H. rewrite <- !includes_spec, <- orb_true_iff in H.
    unfold Api.download, Api.ajax, Api.throwIfApiPathTraversalAttempted.
    change (default "" (Some url)) with url.
    rewrite H. eexists. split_and!; try reflexivity.
    intros ->. reflexivity.
  - intros H1 H2. rewrite <- includes_spec in H1, H2.
    unfold Api.throwIfApiPathTraversalAttempted.
    apply not_true_is_false in H1, H2. by rewrite H1, H2.
Qed.

Lemma path_traversal_guard_witness :
  (∃ e, Api.throwIfApiPathTraversalAttempted (Scenario.api_externals false)
          "https://api.test/v1/../admin" = Some (ThrowErr e)
        ∧ cls e = ClsError
        ∧ Js.message e = "API path traversal forbidden: " +:+
                         "https://api.test/v1/../admin"
        ∧ (∀ xhr, Api.download (Scenario.api_externals false)
                    "https://api.test/v1/../admin" xhr
                  = (Rejected (ThrowErr e), []))
        ∧ (Api.isContentScript (Scenario.api_externals false) = false →
           ∀ stack viaBg jq,
             Api.ajax (Scenario.api_externals false)
                      (Some "https://api.test/v1/../admin") stack viaBg jq
             = (Rejected (ThrowErr e), []))).
Proof.
  apply (proj1 (path_traversal_guard (Scenario.api_externals false)
                  "https://api.test/v1/../admin")).
  left. by exists "https://api.test/v1/", "admin".
Defined.

(** ** The auth dialog *)

Lemma truthy_str_spec (s : option string) :
  truthy_str s = true ↔ ∃ v, s = Some v ∧ v ≠ "".
Proof.
  destruct s as [v|]; simpl.
  - rewrite negb_true_iff, bool_decide_eq_false. naive_solver.
  - naive_solver.
Qed.

Lemma getAuthRes_shape x acctEmail save requested expected aw a :
  GoogleOAuth.getAuthRes x acctEmail save requested expected aw = Resolved a →
  match GoogleOAuth.result a with
  | GoogleOAuth.Success =>
      truthy_str (GoogleOAuth.acctEmail a) = true
      ∧ is_Some (GoogleOAuth.id_token a)
  | GoogleOAuth.Denied | GoogleOAuth.Error => is_Some (GoogleOAuth.error a)
  | GoogleOAuth.Closed => False
  end.
Proof.
  unfold GoogleOAuth.getAuthRes, GoogleOAuth.getAuthRes_catch,
    GoogleOAuth.denied, GoogleOAuth.errored.
  intros H. repeat case_match; simplify_eq; simpl; eauto.
  all: split; [by apply negb_false_iff|eauto].
Qed.

(** C9.  Whatever [newAuthPopup] returns is tagged; a result tagged
    [Success] carries an account email and an identity token, neither
    empty (a grant that lacks one comes back tagged [Error]); a result
    tagged [Denied] or [Error] carries an error reason; no result is
    tagged [Closed]. *)
Theorem auth_popup_discriminated_result (x : GoogleOAuth.Externals)
    (acctEmail : option string) (scopes : option (list string))
    (save : option bool) (r : GoogleOAuth.AuthRes) :
  GoogleOAuth.newAuthPopup x acctEmail scopes save = Resolved r →
  match GoogleOAuth.result r with
  | GoogleOAuth.Success =>
      (∃ email, GoogleOAuth.acctEmail r = Some email ∧ email ≠ "")
      ∧ (∃ token, GoogleOAuth.id_token r = Some token ∧ token ≠ "")
  | GoogleOAuth.Denied | GoogleOAuth.Error =>
      ∃ reason, GoogleOAuth.error r = Some reason
  | GoogleOAuth.Closed => False
  end.
Proof.
  unfold GoogleOAuth.newAuthPopup. intros H.
  repeat match type of H with
  | context [match ?d with _ => _ end] =>
      lazymatch d with
      | GoogleOAuth.getAuthRes _ _ _ _ _ _ => fail
      | _ => destruct d eqn:?; try discriminate
      end
  end.
  all: destruct (GoogleOAuth.getAuthRes _ _ _ _ _ _) as [res| |] eqn:Hget;
    try discriminate.
  all: apply getAuthRes_shape in Hget.
  all: destruct (GoogleOAuth.result res) eqn:Hres.
  all: repeat match type of H with
  | context [if ?d then _ else _] => destruct d eqn:?
  | context [match ?d with _ => _ end] => destruct d eqn:?
  end; simplify_eq; simpl; rewrite ?Hres; eauto.
  all: try (destruct Hget as [? ?]; eauto; fail).
  all: split; apply truthy_str_spec; by apply negb_false_iff.
Qed.

Lemma auth_popup_discriminated_result_witness :
  (∃ email, Some "user@example.test" = Some email ∧ email ≠ "")
  ∧ (∃ token, Some "id-token" = Some token ∧ token ≠ "").
Proof.
  exact (auth_popup_discriminated_result (Scenario.oauth_externals "id-token")
           (Some "user@example.test") None None
           {| GoogleOAuth.result := GoogleOAuth.Success;
              GoogleOAuth.acctEmail := Some "user@example.test";
              GoogleOAuth.id_token := Some "id-token";
              GoogleOAuth.error := None |} eq_refl).
Defined.

(** A grant whose identity token is empty comes back as an error. *)
Example auth_popup_missing_token :
  GoogleOAuth.newAuthPopup (Scenario.oauth_externals "")
                           (Some "user@example.test") None None
  = Resolved {| GoogleOAuth.result := GoogleOAuth.Error;
                GoogleOAuth.acctEmail := Some "user@example.test";
                GoogleOAuth.id_token := None;
                GoogleOAuth.error :=
                  Some "Grant was successful but missing id_token" |}.
Proof. reflexivity. Qed.

(** ** Handler executions in a run *)

Lemma invocations_app effs effs' :
  invocations (effs ++ effs') = invocations effs ++ invocations effs'.
Proof. apply omap_app. Qed.

Lemma posts_app effs effs' : posts (effs ++ effs') = posts effs ++ posts effs'.
Proof. apply omap_app. Qed.

Lemma invocations_sendUpParentLine env m :
  invocations (sendUpParentLine env m) = [].
Proof.
  unfold sendUpParentLine. destruct (parents env) as [|p chain]; [done|].
  generalize (p :: chain). intros l. by induction l.
Qed.

Lemma invocations_sendToChildren env m :
  invocations (sendToChildren env m) = [].
Proof.
  unfold sendToChildren. induction (childFramesWithExtensionOrigin env)
    as [|f l IH]; [done|].
  simpl. destruct (contentWindow f); simpl; exact IH.
Qed.

Lemma invocations_sendRaw env destString name bm objUrls awaitRes iv tr st :
  invocations (sendRaw env destString name bm objUrls awaitRes iv tr st).1.2
  = [].
Proof.
  unfold sendRaw.
  set (viaWindow := match to _ with Some _ => _ | None => _ end).
  assert (Hv : invocations viaWindow = []).
  { subst viaWindow. destruct (to _); [|done].
    destruct (isBackgroundPage env); [done|]. cbn [negb].
    rewrite invocations_app, invocations_sendToChildren.
    apply (invocations_sendUpParentLine env). }
  destruct (chrome_runtime env); [|exact Hv].
  assert (Ht : ∀ msg, invocations ((λ tabId, TabsSendMessage tabId msg)
                                     <$> activeTabs env) = []).
  { intros msg. by induction (activeTabs env). }
  destruct (isBackgroundPage env), tr as [r le| |[e|v]]; simpl;
    rewrite ?invocations_app, ?Ht; try exact Hv.
  all: try (destruct (bool_decide _); simpl; exact Hv).
  destruct (processRawMsgResponse _ _ _ _ _ _ _). simpl. exact Hv.
Qed.

Lemma invocations_respondAsNewRequest env msg iv tr r st :
  invocations (respondAsNewRequest env msg iv tr r st) = [].
Proof.
  unfold respondAsNewRequest. repeat case_match; try done.
  all: match goal with
       | H : sendRaw ?a ?b ?c ?d ?e ?f ?g ?h ?i = _ |- _ =>
           pose proof (invocations_sendRaw a b c d e f g h i) as Hs;
           rewrite H in Hs; simpl in Hs
       end; rewrite ?invocations_app, ?Hs; done.
Qed.

(** The chain of a listener runs the handler at most once: once, when
    the binary fields of the request can be read. *)
Lemma dispatch_invocations env handler msg rawRespond st :
  (∀ r st, invocations (rawRespond r st) = []) →
  invocations (dispatch env handler msg rawRespond st).1
  = match replaceObjUrlWithBuf (data_bm msg) (Some (data_objUrls msg)) st with
    | (Resolved bm, _) => [(Some (uid msg), name msg, bm)]
    | _ => []
    end.
Proof.
  intros Hr. unfold dispatch.
  destruct (replaceObjUrlWithBuf _ _ st) as [[bm|e|] st']; simpl.
  - destruct (sendRawResponse env (handler bm) st') as [[r|] st'']; simpl;
      by rewrite ?Hr.
  - by rewrite Hr.
  - done.
Qed.

Lemma dispatch_inherited_invocations env inherited msg rawRespond st :
  (∀ r st, invocations (rawRespond r st) = []) →
  invocations (dispatch_inherited env inherited msg rawRespond st).1 = [].
Proof.
  intros Hr. unfold dispatch_inherited.
  destruct (replaceObjUrlWithBuf _ _ st) as [[bm|e|] st']; simpl; [|done..].
  destruct (callInherited env inherited bm); simpl; done.
Qed.

Lemma handleMsg_seen env H msg rawRespond s :
  uid msg ∈ processed s → handleMsg env H msg rawRespond s = (false, [], s).
Proof. intros Hin. unfold handleMsg. by rewrite decide_True. Qed.

Lemma handleMsg_fresh env H msg rawRespond s handled effs s' :
  (∀ r st, invocations (rawRespond r st) = []) →
  uid msg ∉ processed s →
  handleMsg env H msg rawRespond s = (handled, effs, s') →
  processed s' = {[uid msg]} ∪ processed s
  ∧ handled = bool_decide (is_Some (HANDLERS_get H (name msg)))
  ∧ invocations effs
    = match H !! name msg,
            replaceObjUrlWithBuf (data_bm msg) (Some (data_objUrls msg))
                                 (store s) with
      | Some _, (Resolved bm, _) => [(Some (uid msg), name msg, bm)]
      | _, _ => []
      end.
Proof.
  intros Hr Hnin. unfold handleMsg. rewrite decide_False by done.
  unfold HANDLERS_get. destruct (H !! name msg) as [handler|] eqn:Hh.
  - pose proof (dispatch_invocations env handler msg rawRespond (store s) Hr)
      as Hd.
    destruct (dispatch env handler msg rawRespond (store s)) as [effs0 st'].
    intros [= <- <- <-]. simpl in *. split_and!; [done|done|exact Hd].
  - case_bool_decide.
    + pose proof (dispatch_inherited_invocations env (name msg) msg rawRespond
                    (store s) Hr) as Hd.
      destruct (dispatch_inherited _ _ _ _ _) as [effs0 st'].
      intros [= <- <- <-]. simpl in *. split_and!; [done|done|exact Hd].
    + intros [= <- <- <-]. simpl. split_and!; done.
Qed.

Lemma propagate_spec env m handled s effs s' :
  propagate env m handled s = (effs, s') →
  invocations effs = []
  ∧ processed s ⊆ processed s'
  ∧ store s' = store s.
Proof.
  unfold propagate. destruct (negb handled && epropagateToParent m);
    intros [= <- <-]; simpl.
  - rewrite invocations_sendUpParentLine. split_and!; [done|set_solver|done].
  - done.
Qed.

(** One step of a context's listeners runs at most one handler, and only
    for an id that was not in the ledger before and is in it after. *)
Lemma deliver_step env H dest d s effs s' :
  deliver env H dest d s = (effs, s') →
  processed s ⊆ processed s'
  ∧ (invocations effs = []
     ∨ ∃ id nm r, (invocations effs = [(Some id, nm, r)])
                 ∧ (id ∉ processed s) ∧ id ∈ processed s').
Proof.
  assert (Hhandle : ∀ msg rawRespond handled effs1 s1,
    (∀ r st, invocations (rawRespond r st) = []) →
    handleMsg env H msg rawRespond s = (handled, effs1, s1) →
    processed s ⊆ processed s1
    ∧ (invocations effs1 = []
       ∨ ∃ id nm r, (invocations effs1 = [(Some id, nm, r)])
                   ∧ (id ∉ processed s) ∧ id ∈ processed s1)).
  { intros msg rawRespond handled effs1 s1 Hr Hrun.
    destruct (decide (uid msg ∈ processed s)) as [Hin|Hnin].
    - rewrite handleMsg_seen in Hrun by done. simplify_eq. by split; [|left].
    - apply handleMsg_fresh in Hrun as (Hp & _ & Hi); [|done..].
      split; [set_solver|]. rewrite Hi.
      destruct (H !! name msg); [|by left].
      destruct (replaceObjUrlWithBuf _ _ _) as [[bm| |] ?]; try by left.
      right. exists (uid msg), (name msg), bm. split_and!; [done|done|].
      set_solver. }
  destruct d as [msg|origin m iv tr|origin m|m iv tr]; simpl.
  - unfold listen_onMessage. destruct (to msg) as [t|].
    2: { intros [= <- <-]. by split; [|left]. }
    destruct (negb _ && _).
    2: { intros [= <- <-]. by split; [|left]. }
    destruct (handleMsg _ _ _ _ _) as [[handled effs1] s1] eqn:Hrun.
    intros [= <- <-]. eapply Hhandle; [|done]. done.
  - unfold window_onMessage, window_onMessage_begin.
    destruct (negb (trusted_origin env origin)).
    { intros [= <- <-]. by split; [|left]. }
    destruct (decide (euid m ∈ processed s)).
    { intros [= <- <-]. by split; [|left]. }
    destruct (addressed dest (eto m)).
    + unfold window_onMessage_resume.
      destruct (handleMsg _ _ _ _ _) as [[handled effs1] s1] eqn:Hrun.
      destruct (propagate _ _ _ _) as [effs2 s2] eqn:Hprop.
      intros [= <- <-].
      apply Hhandle in Hrun as [Hsub Hinv];
        [|intros; apply invocations_respondAsNewRequest].
      apply propagate_spec in Hprop as (Hi2 & Hsub2 & _).
      rewrite invocations_app, Hi2, app_nil_r.
      split; [set_solver|]. destruct Hinv as [?|(id & nm & r & ? & ? & ?)];
        [by left|right]. exists id, nm, r. split_and!; [done|done|set_solver].
    + destruct (propagate _ _ _ _) as [effs2 s2] eqn:Hprop.
      intros [= <- <-]. apply propagate_spec in Hprop as (Hi2 & Hsub2 & _).
      split; [done|by left].
  - unfold window_onMessage_begin.
    destruct (negb (trusted_origin env origin)).
    { intros [= <- <-]. by split; [|left]. }
    destruct (decide (euid m ∈ processed s)).
    { intros [= <- <-]. by split; [|left]. }
    destruct (addressed dest (eto m)).
    { intros [= <- <-]. by split; [|left]. }
    destruct (propagate _ _ _ _) as [effs2 s2] eqn:Hprop.
    intros [= <- <-]. apply propagate_spec in Hprop as (Hi2 & Hsub2 & _).
    split; [done|by left].
  - unfold window_onMessage_resume.
    destruct (handleMsg _ _ _ _ _) as [[handled effs1] s1] eqn:Hrun.
    destruct (propagate _ _ _ _) as [effs2 s2] eqn:Hprop.
    intros [= <- <-].
    apply Hhandle in Hrun as [Hsub Hinv];
      [|intros; apply invocations_respondAsNewRequest].
    apply propagate_spec in Hprop as (Hi2 & Hsub2 & _).
    rewrite invocations_app, Hi2, app_nil_r.
    split; [set_solver|]. destruct Hinv as [?|(id & nm & r & ? & ? & ?)];
      [by left|right]. exists id, nm, r. split_and!; [done|done|set_solver].
Qed.

(** In any run, every id a handler runs for was new to the ledger, is in
    the ledger afterwards, and occurs once. *)
Lemma deliver_all_once env H dest ds : ∀ s effs s',
  deliver_all env H dest ds s = (effs, s') →
  processed s ⊆ processed s'
  ∧ NoDup (invocations effs).*1.*1
  ∧ (∀ id, id ∈ (invocations effs).*1.*1 →
       ∃ u, id = Some u ∧ (u ∉ processed s) ∧ u ∈ processed s').
Proof.
  induction ds as [|d ds IH]; intros s effs s'; simpl.
  - intros [= <- <-]. split_and!; [done|constructor|].
    intros id Hin. by apply elem_of_nil in Hin.
  - destruct (deliver env H dest d s) as [effs1 s1] eqn:Hd.
    destruct (deliver_all env H dest ds s1) as [effs2 s2] eqn:Hds.
    intros [= <- <-]. apply deliver_step in Hd as [Hsub1 Hinv1].
    apply IH in Hds as (Hsub2 & Hnd2 & Hids2).
    rewrite invocations_app, !fmap_app.
    split; [set_solver|].
    destruct Hinv1 as [->|(id & nm & r & -> & Hnew & Hnow)]; simpl.
    + split; [done|]. intros id Hin.
      destruct (Hids2 id Hin) as (u & -> & ? & ?). exists u. set_solver.
    + split.
      * constructor; [|done]. intros Hin.
        destruct (Hids2 _ Hin) as (u & [= <-] & ? & ?). done.
      * intros id' [->|Hin]%elem_of_cons.
        -- exists id. split_and!; [done|done|set_solver].
        -- destruct (Hids2 id' Hin) as (u & -> & ? & ?). exists u. set_solver.
Qed.

(** An event of a message whose id is in the ledger runs no handler. *)
Lemma deliver_seen env H dest msg d x s :
  uid msg ∈ processed s → delivers env msg d x →
  ∃ effs s', deliver env H dest x s = (effs, s')
             ∧ invocations effs = [] ∧ uid msg ∈ processed s'.
Proof.
  intros Hin Hx. destruct x as [msg'|origin m iv tr|origin m|m iv tr];
    simpl in Hx; simpl.
  - subst msg'. unfold listen_onMessage. destruct (to msg); [|by eauto].
    destruct (negb _ && _); [|by eauto]. rewrite handleMsg_seen by done.
    by eauto.
  - destruct Hx as (Ho & Hs & Hu & Ht).
    unfold window_onMessage, window_onMessage_begin. rewrite Ho. simpl.
    rewrite decide_True by (by rewrite Hu). by eauto.
  - destruct Hx as (Ho & Hs & Hu & Ht).
    unfold window_onMessage_begin. rewrite Ho. simpl.
    rewrite decide_True by (by rewrite Hu). by eauto.
  - destruct Hx as (Hs & Hu & Ht).
    unfold window_onMessage_resume, decrypt. rewrite Hs.
    rewrite handleMsg_seen by done.
    destruct (propagate _ _ _ _) as [effs2 s2] eqn:Hprop.
    apply propagate_spec in Hprop as (Hi2 & Hsub & _).
    exists ([] ++ effs2), s2. split_and!; [done|done|set_solver].
Qed.

Lemma deliver_all_seen env H dest msg d ds : ∀ s,
  uid msg ∈ processed s → Forall (delivers env msg d) ds →
  ∃ effs s', deliver_all env H dest ds s = (effs, s')
             ∧ invocations effs = [].
Proof.
  induction ds as [|x ds IH]; intros s Hin Hall; [by eexists [], s|].
  apply Forall_cons in Hall as [Hx Hall]. simpl.
  destruct (deliver_seen env H dest msg d x s Hin Hx)
    as (effs1 & s1 & -> & Hi1 & Hin1).
  destruct (IH s1 Hin1 Hall) as (effs2 & s2 & -> & Hi2).
  exists (effs1 ++ effs2), s2. split; [done|].
  by rewrite invocations_app, Hi1, Hi2.
Qed.

(** The first half of a window message for the context changes nothing. *)
Lemma deliver_suspended env H dest msg d x s :
  uid msg ∉ processed s → addressed dest d = true →
  delivers env msg d x → reaches_handleMsg x = false →
  deliver env H dest x s = ([], s).
Proof.
  intros Hnin Haddr Hx Hr. destruct x as [|?|origin m|?]; try done.
  destruct Hx as (Ho & Hs & Hu & Ht). simpl.
  unfold window_onMessage_begin. rewrite Ho. simpl.
  rewrite decide_False by (by rewrite Hu). by rewrite Ht, Haddr.
Qed.

(** The first event of a message addressed to the context that gets as
    far as [handleMsg] runs its handler. *)
Lemma deliver_first env H dest msg d handler bm st1 x s :
  uid msg ∉ processed s → H !! name msg = Some handler →
  to msg = Some d → d ≠ "" → addressed dest d = true →
  replaceObjUrlWithBuf (data_bm msg) (Some (data_objUrls msg)) (store s)
    = (Resolved bm, st1) →
  delivers env msg d x → reaches_handleMsg x = true →
  ∃ effs s', deliver env H dest x s = (effs, s')
             ∧ invocations effs = [(Some (uid msg), name msg, bm)]
             ∧ uid msg ∈ processed s'.
Proof.
  intros Hnin Hh Hto Hd Haddr Hdec Hx Hr.
  assert (Hresume : ∀ m iv tr,
    sealed m = msg →
    ∃ effs s', window_onMessage_resume env H m iv tr s = (effs, s')
               ∧ invocations effs = [(Some (uid msg), name msg, bm)]
               ∧ uid msg ∈ processed s').
  { intros m iv tr Hs. unfold window_onMessage_resume, decrypt. rewrite Hs.
    destruct (handleMsg _ _ _ _ _) as [[handled effs] s'] eqn:Hrun.
    apply handleMsg_fresh in Hrun as (Hp & Hhd & Hi);
      [|intros; apply invocations_respondAsNewRequest|done].
    rewrite Hh, Hdec in Hi.
    rewrite (HANDLERS_get_own _ _ _ Hh) in Hhd. subst handled.
    unfold propagate. simpl. exists (effs ++ []), s'.
    rewrite app_nil_r. split_and!; [done..|]. rewrite Hp. set_solver. }
  destruct x as [msg'|origin m iv tr|origin m|m iv tr]; simpl in Hx;
    [subst msg'| |done|]; simpl.
  - unfold listen_onMessage. rewrite Hto, Haddr.
    rewrite bool_decide_eq_false_2 by done. simpl.
    destruct (handleMsg _ _ _ _ _) as [[handled effs] s'] eqn:Hrun.
    apply handleMsg_fresh in Hrun as (Hp & _ & Hi); [|done..].
    rewrite Hh, Hdec in Hi. exists effs, s'. split_and!; [done..|].
    rewrite Hp. set_solver.
  - destruct Hx as (Ho & Hs & Hu & Ht).
    unfold window_onMessage, window_onMessage_begin. rewrite Ho. simpl.
    rewrite decide_False by (by rewrite Hu). rewrite Ht, Haddr.
    by apply Hresume.
  - destruct Hx as (Hs & _). by apply Hresume.
Qed.

(** Deliveries of one message addressed to the context, in any order and
    with the halves of window messages apart, run its handler once. *)
Lemma deliver_all_exactly_once env H dest msg d handler bm ds : ∀ st1 s,
  uid msg ∉ processed s → H !! name msg = Some handler →
  to msg = Some d → d ≠ "" → addressed dest d = true →
  replaceObjUrlWithBuf (data_bm msg) (Some (data_objUrls msg)) (store s)
    = (Resolved bm, st1) →
  Forall (delivers env msg d) ds → Exists (λ x, reaches_handleMsg x = true) ds →
  ∃ effs s', deliver_all env H dest ds s = (effs, s')
             ∧ invocations effs = [(Some (uid msg), name msg, bm)].
Proof.
  induction ds as [|x ds IH];
    intros st1 s Hnin Hh Hto Hd Haddr Hdec Hall Hex; [by inversion Hex|].
  apply Forall_cons in Hall as [Hx Hall]. simpl.
  destruct (reaches_handleMsg x) eqn:Hr.
  - destruct (deliver_first env H dest msg d handler bm st1 x s)
      as (effs1 & s1 & -> & Hi1 & Hin1); [done..|].
    destruct (deliver_all_seen env H dest msg d ds s1 Hin1 Hall)
      as (effs2 & s2 & -> & Hi2).
    exists (effs1 ++ effs2), s2. split; [done|].
    by rewrite invocations_app, Hi1, Hi2.
  - rewrite (deliver_suspended env H dest msg d x s) by done.
    apply Exists_cons in Hex as [Hex|Hex]; [congruence|].
    destruct (IH st1 s) as (effs & s' & -> & Hi); [done..|].
    by exists effs, s'.
Qed.

(** The background listener keeps no ledger: a message that carries no
    object URLs runs its handler at every delivery. *)
Lemma bgListen_all_replicate bg BG msg handler n : ∀ st,
  BG !! name msg = Some handler → data_objUrls msg = [] →
  invocations (bgListen_all bg BG (replicate n msg) st).1
  = replicate n (Some (uid msg), name msg, data_bm msg).
Proof.
  intros st Hh Hurls. revert st. induction n as [|n IH]; intros st; [done|].
  simpl. unfold bgListen_onMessage. rewrite Hh.
  pose proof (dispatch_invocations bg handler msg
                (respondIfPageStillOpen bg msg None) st (λ _ _, eq_refl))
    as Hd.
  rewrite Hurls in Hd.
  assert (replaceObjUrlWithBuf (data_bm msg) (Some []) st
          = (Resolved (data_bm msg), st)) as Hdec
    by (by destruct (data_bm msg)).
  rewrite Hdec in Hd.
  destruct (dispatch _ _ _ _ _) as [effs1 st1]. specialize (IH st1).
  destruct (bgListen_all _ _ _ _) as [effs2 st2].
  cbn [fst] in *. by rewrite invocations_app, Hd, IH.
Qed.

(** C1 (as the code has it).  In a context that listens with
    [listen(dest)], over any run of its two listeners (the halves of the
    window listener interleaved at will), a handler runs at most once per
    id, and never for an id that is in the ledger; and [N >= 1] deliveries
    of one message addressed to the context, over any mix of the two
    listeners, run its handler exactly once, provided a handler is
    registered under its name and its binary fields can be read.  On the
    background page there is no ledger: [n] deliveries of a message that
    names no object URLs run its handler [n] times. *)
Theorem at_most_once_dispatch (env : Env) (H : Handlers) (dest : string) :
  (∀ ds s effs s',
     deliver_all env H dest ds s = (effs, s') →
     NoDup (invocations effs).*1.*1
     ∧ ∀ id, id ∈ (invocations effs).*1.*1 →
             ∃ u, id = Some u ∧ (u ∉ processed s) ∧ u ∈ processed s')
  ∧ (∀ msg d handler bm st1 ds s,
       uid msg ∉ processed s → H !! name msg = Some handler →
       to msg = Some d → d ≠ "" → addressed dest d = true →
       replaceObjUrlWithBuf (data_bm msg) (Some (data_objUrls msg)) (store s)
         = (Resolved bm, st1) →
       Forall (delivers env msg d) ds →
       Exists (λ x, reaches_handleMsg x = true) ds →
       ∃ effs s',
         deliver_all env H dest ds s = (effs, s')
         ∧ invocations effs = [(Some (uid msg), name msg, bm)])
  ∧ (∀ (bg : Env) (BG : Handlers) msg handler n st,
       BG !! name msg = Some handler → data_objUrls msg = [] →
       invocations (bgListen_all bg BG (replicate n msg) st).1
       = replicate n (Some (uid msg), name msg, data_bm msg)).
Proof.
  split_and!.
  - intros ds s effs s' Hrun.
    by apply deliver_all_once in Hrun as (_ & ? & ?).
  - intros msg d handler bm st1 ds s Hnin Hh Hto Hd Haddr Hdec Hall Hex.
    by eapply deliver_all_exactly_once.
  - intros bg BG msg handler n st Hh Hurls.
    by apply (bgListen_all_replicate bg BG msg handler).
Qed.

(** Four deliveries of one [ping], two direct and two by window message,
    one of these with another delivery inside its [await]: one execution. *)
Lemma at_most_once_dispatch_witness :
  ∃ effs s',
    deliver_all Scenario.env3 {[ "ping" := Scenario.ping ]} "frame-3"
      [WindowEvent Scenario.origin
         (encrypt "frame-3" (Scenario.ping_msg "id-1" (Some "frame-3")));
       Direct (Scenario.ping_msg "id-1" (Some "frame-3"));
       WindowResumed
         (encrypt "frame-3" (Scenario.ping_msg "id-1" (Some "frame-3")))
         "iv-2" NoCallback;
       Window Scenario.origin
              (encrypt "frame-3" (Scenario.ping_msg "id-1" (Some "frame-3")))
              "iv-3" NoCallback;
       Direct (Scenario.ping_msg "id-1" (Some "frame-3"))]
      Scenario.fresh_state = (effs, s')
    ∧ invocations effs = [(Some "id-1", "ping", VObj [])].
Proof.
  refine (proj1 (proj2 (at_most_once_dispatch Scenario.env3
                          {[ "ping" := Scenario.ping ]} "frame-3"))
            (Scenario.ping_msg "id-1" (Some "frame-3")) "frame-3"
            Scenario.ping (VObj []) empty_store _ Scenario.fresh_state
            _ _ _ _ _ _ _ _).
  - simpl. set_solver.
  - reflexivity.
  - reflexivity.
  - discriminate.
  - reflexivity.
  - reflexivity.
  - repeat constructor.
  - apply Exists_cons. right. apply Exists_cons. by left.
Defined.

(** C1 as stated fails on the background page: [bgListen] keeps no
    ledger, and two deliveries of one id run the handler twice.  In a
    frame, a delivery runs no handler at all when an object URL of the
    message cannot be read, when it is a window message from another
    origin, or when the message is addressed to another context, or to
    the empty name, be it this context's own. *)
Lemma background_dispatch_counterexample :
  let run ds :=
    invocations (deliver_all Scenario.env3 {[ "ping" := Scenario.ping ]}
                   "frame-3" ds Scenario.fresh_state).1 in
  let unreadable :=
    {| name := "ping"; data_bm := VObj [("chunk", VUndefined)];
       data_objUrls := [("chunk", "blob:0")]; to := Some "frame-3";
       uid := "id-1"; stack := "at sender"; responseName := None |} in
  invocations
    (bgListen_all Scenario.bg_env {[ "ping" := Scenario.ping ]}
       [Scenario.ping_msg "id-1" None; Scenario.ping_msg "id-1" None]
       empty_store).1
  = [(Some "id-1", "ping", VObj []); (Some "id-1", "ping", VObj [])]
  ∧ run [Direct unreadable] = []
  ∧ run [Window "https://other.example"
           (encrypt "frame-3" (Scenario.ping_msg "id-1" (Some "frame-3")))
           "iv-2" NoCallback] = []
  ∧ run [Direct (Scenario.ping_msg "id-1" (Some "frame-4"))] = []
  ∧ run [Direct (Scenario.ping_msg "id-1" (Some "frame-3"))]
    = [(Some "id-1", "ping", VObj [])]
  ∧ invocations (deliver_all Scenario.env3 {[ "ping" := Scenario.ping ]} ""
                   [Direct (Scenario.ping_msg "id-1" (Some ""))]
                   Scenario.fresh_state).1 = [].
Proof. cbv zeta. split_and!; reflexivity. Qed.

(** ** Window posts *)

(** [sendUpParentLine] posts one flagged copy per window between this one
    and the top, every copy to [window.parent]; from the top window it
    posts nothing. *)
Lemma sendUpParentLine_posts env m :
  posts (sendUpParentLine env m)
  = match parents env with
    | [] => []
    | window_parent :: _ =>
        (λ _, (window_parent, withPropagationFlag m, "*")) <$> parents env
    end.
Proof.
  unfold sendUpParentLine. destruct (parents env) as [|p chain]; [done|].
  generalize (p :: chain). intros l. induction l as [|w l IH]; [done|].
  simpl. f_equal. exact IH.
Qed.


(** The window posts of [sendRaw]. *)
Lemma sendRaw_posts env destString name bm objUrls awaitRes iv tr st :
  posts (sendRaw env destString name bm objUrls awaitRes iv tr st).1.2
  = match to (sendRaw_msg env destString name bm objUrls iv) with
    | Some dest =>
        if isBackgroundPage env then []
        else
          let m := encrypt dest
                     (sendRaw_msg env destString name bm objUrls iv) in
          posts (sendToChildren env m) ++ [(window env, m, "*")]
            ++ posts (sendUpParentLine env m)
    | None => []
    end.
Proof.
  unfold sendRaw.
  set (msg := sendRaw_msg env destString name bm objUrls iv).
  set (viaWindow := match to msg with Some _ => _ | None => _ end).
  assert (Hv : posts viaWindow
               = match to msg with
                 | Some dest =>
                     if isBackgroundPage env then []
                     else posts (sendToChildren env (encrypt dest msg))
                          ++ [(window env, encrypt dest msg, "*")]
                          ++ posts (sendUpParentLine env (encrypt dest msg))
                 | None => []
                 end).
  { subst viaWindow. destruct (to msg); [|done].
    destruct (isBackgroundPage env); [done|]. cbn [negb].
    by rewrite posts_app. }
  destruct (chrome_runtime env); [|exact Hv].
  assert (Ht : posts ((λ tabId, TabsSendMessage tabId msg) <$> activeTabs env)
               = []).
  { by induction (activeTabs env). }
  destruct (isBackgroundPage env) eqn:Hbg, tr as [r le| |[e|v]]; simpl;
    rewrite ?posts_app, ?Ht; try exact Hv.
  all: try (destruct (bool_decide _); simpl; exact Hv).
  destruct (processRawMsgResponse _ _ _ _ _ _ _). simpl. exact Hv.
Qed.







(** ** Outbound propagation *)




(** ** Inbound propagation *)



(** The listener is suspended at [await decrypt]: of two copies of a
    flagged message that both arrive before either is decrypted, the first
    to resume runs the handler, and the second, for which [handleMsg]
    reports a duplicate, forwards the message up all the same. *)
Example duplicate_resumed_after_dispatch :
  let m := withPropagationFlag
             (encrypt "frame-2" (Scenario.ping_msg "id-1" (Some "frame-2"))) in
  let run := deliver_all Scenario.env2 {[ "ping" := Scenario.ping ]} "frame-2"
               [WindowEvent Scenario.origin m; WindowEvent Scenario.origin m;
                WindowResumed m "iv-2" NoCallback;
                WindowResumed m "iv-3" NoCallback] Scenario.fresh_state in
  invocations run.1 = [(Some "id-1", "ping", VObj [])]
  ∧ posts run.1 = [(1, m, "*"); (1, m, "*")].
Proof. split; reflexivity. Qed.


(** ** The in-process call and the transport *)

Lemma replaceBuf_loop_wf names : ∀ obj U st U' O' st',
  store_wf st → replaceBuf_loop names obj U st = (U', O', st') → store_wf st'.
Proof.
  induction names as [|k names IH]; intros obj U st U' O' st' Hwf Hrun;
    simpl in Hrun; [by simplify_eq|].
  destruct (obj_get k obj); try (by eapply IH).
  eapply IH; [|done]. by apply (objUrlCreate_wf bytes st).
Qed.

Lemma replaceObjUrl_loop_wf names : ∀ (U : Dict string) (O : Dict value) st,
  store_wf st → store_wf (replaceObjUrl_loop names U O st).2.
Proof.
  induction names as [|k names IH]; intros U O st Hwf; simpl; [done|].
  destruct (dict_get k U) as [h|]; [|by apply IH].
  pose proof (objUrlConsume_wf h st Hwf) as Hwf'.
  destruct (objUrlConsume h st) as [[e|content] st']; simpl in *; [done|].
  by apply IH.
Qed.







(** A request whose top-level byte buffer comes last goes through the
    JSON serialisation as it is sent: the frame gets its bytes back. *)
Example transport_top_level_buffer :
  let bm := VObj [("msgId", VStr "m1"); ("chunk", VBuf [x01; x02]%byte)] in
  (sendAwait Scenario.bg_env {[ "echo" := Scenario.echo ]} None "echo" bm
             true "iv-1" NoCallback empty_store).1.1 = Resolved bm
  ∧ (sendAwait_via_transport json Scenario.env3 Scenario.bg_env
       {[ "echo" := Scenario.echo ]} "echo" bm "iv-1" empty_store).1
    = Resolved bm.
Proof. split; reflexivity. Qed.


(* ===================================================================== *)
(** * Further properties of the bus                                       *)
(* ===================================================================== *)

Import Observed.

Lemma responses_app effs effs' :
  responses (effs ++ effs') = responses effs ++ responses effs'.
Proof. apply omap_app. Qed.

Lemma reports_app effs effs' :
  reports (effs ++ effs') = reports effs ++ reports effs'.
Proof. apply omap_app. Qed.

Lemma runtime_sends_app effs effs' :
  runtime_sends (effs ++ effs') = runtime_sends effs ++ runtime_sends effs'.
Proof. apply omap_app. Qed.

(** The chain of a listener, case by case: a request whose binary fields
    cannot be read is answered with the failure and the handler is not
    run; a handler that fails is answered with its failure; a handler
    that never settles is not answered. *)
Lemma dispatch_cases env handler msg rawRespond st :
  let failure e :=
    {| result := VUndefined; resObjUrls := [];
       exception := Some (errToJson env e) |} in
  let ran bm := Invoke (Some (uid msg)) (name msg) bm in
  match replaceObjUrlWithBuf (data_bm msg) (Some (data_objUrls msg)) st with
  | (Rejected e, st1) =>
      dispatch env handler msg rawRespond st = (rawRespond (failure e) st1, st1)
  | (Resolved bm, st1) =>
      match handler bm with
      | Pending => dispatch env handler msg rawRespond st = ([ran bm], st1)
      | Rejected e =>
          dispatch env handler msg rawRespond st
          = (ran bm :: rawRespond (failure e) st1, st1)
      | Resolved v =>
          let '(u, v', st2) := replaceBufWithObjUrlInplace v st1 in
          dispatch env handler msg rawRespond st
          = (ran bm :: rawRespond {| result := v'; resObjUrls := u;
                                     exception := None |} st2, st2)
      end
  | (Pending, st1) => dispatch env handler msg rawRespond st = ([], st1)
  end.
Proof.
  unfold dispatch.
  destruct (replaceObjUrlWithBuf _ _ st) as [[bm|e|] st1]; simpl; [|done..].
  destruct (handler bm) as [v|e|]; simpl; [|done..].
  by destruct (replaceBufWithObjUrlInplace v st1) as [[u v'] st2].
Qed.

(** ** The background listener and a page that has closed *)

(** X1.  When the port of the asking page throws on the response, the
    background listener runs the handler and leaves the blob store exactly
    as when the page takes the response; it sends no response; and it
    reports nothing when the port is disconnected (the page has closed),
    while any other failure to respond is handed to [Catch.reportErr],
    once, rewrapped under the listener's name (an [Error] with the
    sender's stack appended to its own). *)
Theorem background_respond_to_closed_page (env : Env) (BG : Handlers)
    (msg : Raw) (st : BlobStore) (cannotRespondErr : thrown) :
  let answered := bgListen_onMessage env BG None msg st in
  let thrown_at := bgListen_onMessage env BG (Some cannotRespondErr) msg st in
  thrown_at.1.1 = answered.1.1 ∧ thrown_at.2 = answered.2
  ∧ invocations thrown_at.1.2 = invocations answered.1.2
  ∧ responses thrown_at.1.2 = []
  ∧ length (responses answered.1.2) ≤ 1
  ∧ if page_closed cannotRespondErr then reports thrown_at.1.2 = []
    else
      ∃ e', reports thrown_at.1.2
            = (λ _, ThrowErr (rewrapErr env e'
                     ("BrowserMsg.bgListen.respondIfPageStillOpen:" +:+ name msg)))
              <$> responses answered.1.2
          ∧ match cannotRespondErr with
            | ThrowErr e =>
                e' = ThrowErr
                  {| cls := cls e; Js.message := Js.message e;
                     Js.stack := Some (show_opt (Js.stack e) +:+ nl +:+ nl +:+
                       "Original msg sender stack: " +:+ stack msg) |}
            | ThrowVal _ => e' = cannotRespondErr
            end.
Proof.
  intros answered thrown_at. subst answered thrown_at.
  unfold bgListen_onMessage. destruct (BG !! name msg) as [handler|].
  2: { simpl. split_and!; try done; [lia|]. destruct (page_closed _); [done|].
       destruct cannotRespondErr; by eexists. }
  pose proof (dispatch_cases env handler msg
                (respondIfPageStillOpen env msg None) st) as Ha.
  pose proof (dispatch_cases env handler msg
                (respondIfPageStillOpen env msg (Some cannotRespondErr)) st)
    as Ht.
  cbv zeta in Ha, Ht.
  destruct (replaceObjUrlWithBuf _ _ st) as [[bm|e|] st1].
  - destruct (handler bm) as [v|e|].
    + destruct (replaceBufWithObjUrlInplace v st1) as [[u v'] st2].
      rewrite Ha, Ht. simpl.
      destruct cannotRespondErr as [e|v0]; simpl;
        [destruct (bool_decide _); simpl|];
        split_and!; try done; try lia; by eexists.
    + rewrite Ha, Ht. simpl.
      destruct cannotRespondErr as [e0|v0]; simpl;
        [destruct (bool_decide _); simpl|];
        split_and!; try done; try lia; by eexists.
    + rewrite Ha, Ht. simpl. split_and!; try done; [lia|].
      destruct (page_closed _); [done|].
      destruct cannotRespondErr; by eexists.
  - rewrite Ha, Ht. simpl.
    destruct cannotRespondErr as [e0|v0]; simpl;
      [destruct (bool_decide _); simpl|];
      split_and!; try done; try lia; by eexists.
  - rewrite Ha, Ht. simpl. split_and!; try done; [lia|].
    destruct (page_closed _); [done|].
    destruct cannotRespondErr; by eexists.
Qed.

(** ** What the direct-channel listener of a frame answers *)

(** Reading the object URLs back settles: it yields the value or fails. *)
Lemma replaceObjUrlWithBuf_settles v objUrls st :
  (replaceObjUrlWithBuf v objUrls st).1 ≠ Pending.
Proof.
  unfold replaceObjUrlWithBuf. destruct v, objUrls as [u|]; try done.
  all: by destruct (replaceObjUrl_loop _ _ _ _) as [[?|?] ?].
Qed.

(** X2.  The listener of [listen(dest)] says it will respond exactly for a
    message with a non-empty destination that is [dest] or [broadcast];
    any other message leaves no trace, not even in the ledger.  A message
    it takes is in the ledger afterwards; and when that message is a
    duplicate, or the registry has nothing under its name (neither a
    registered handler nor a member inherited from [Object.prototype]),
    the listener has said it will respond and then does nothing at all: no
    handler, no response.  A first delivery under an inherited name with
    no handler registered, [toString] say, is answered: with one error
    record, and no handler runs. *)
Theorem listen_will_respond (env : Env) (H : Handlers) (dest : string)
    (msg : Raw) (s : State) :
  ∃ willRespond effs s',
    listen_onMessage env H dest msg s = (willRespond, effs, s')
    ∧ willRespond
      = match to msg with
        | Some t => negb (bool_decide (t = "")) && addressed dest t
        | None => false
        end
    ∧ (willRespond = false → effs = [] ∧ s' = s)
    ∧ (willRespond = true → uid msg ∈ processed s'
       ∧ (uid msg ∈ processed s
          ∨ (H !! name msg = None ∧ name msg ∉ Object_prototype_names) →
          effs = [] ∧ store s' = store s)
       ∧ (uid msg ∉ processed s → H !! name msg = None →
          name msg ∈ Object_prototype_names →
          ∃ e, effs = [Respond {| result := VUndefined; resObjUrls := [];
                                  exception := Some (errToJson env e) |}])).
Proof.
  unfold listen_onMessage. destruct (to msg) as [t|].
  2: { eexists _, _, _. split; [done|]. by split_and!. }
  destruct (negb (bool_decide (t = "")) && addressed dest t).
  2: { eexists _, _, _. split; [done|]. by split_and!. }
  unfold handleMsg. case_decide as Hseen.
  { eexists _, _, _. split; [done|]. by split_and!. }
  destruct (HANDLERS_get H (name msg)) as [[handler|inherited]|] eqn:Hh.
  - destruct (dispatch _ _ _ _ _) as [effs st'].
    eexists _, _, _. split; [done|]. split_and!; [done..|].
    intros _. split; [simpl; set_solver|]. split.
    + intros [?|Hnone]; [done|]. apply HANDLERS_get_None in Hnone. congruence.
    + intros _ Hnone Hinh.
      rewrite (HANDLERS_get_inherited _ _ Hnone Hinh) in Hh. done.
  - pose proof (replaceObjUrlWithBuf_settles (data_bm msg)
                  (Some (data_objUrls msg)) (store s)) as Hsettles.
    unfold dispatch_inherited.
    destruct (replaceObjUrlWithBuf _ _ (store s)) as [[bm|e|] st1];
      [| |done].
    + destruct (callInherited env inherited bm) as [e|v];
        (eexists _, _, _; split; [done|]; split_and!; [done..|]);
        intros _; (split; [simpl; set_solver|]); (split; [|by eauto]).
      all: intros [?|Hnone]; [done|]; apply HANDLERS_get_None in Hnone;
        congruence.
    + eexists _, _, _. split; [done|]. split_and!; [done..|].
      intros _. split; [simpl; set_solver|]. split; [|by eauto].
      intros [?|Hnone]; [done|]. apply HANDLERS_get_None in Hnone. congruence.
  - eexists _, _, _. split; [done|]. split_and!; [done..|].
    intros _. split; [simpl; set_solver|]. split; [done|].
    intros _ Hnone Hinh.
    rewrite (HANDLERS_get_inherited _ _ Hnone Hinh) in Hh. done.
Qed.

(** A message named [toString], for which nothing is registered, asked of
    frame 3: the inherited member is called, and what it returns is no
    promise. *)
Example listen_inherited_name :
  (listen_onMessage Scenario.env3 ∅ "frame-3"
     (Scenario.named_msg "toString" "id-1" (Some "frame-3"))
     Scenario.fresh_state).1
  = (true, [Respond {| result := VUndefined; resObjUrls := [];
                       exception :=
                         Some (StandardErrAsJson
                                 (Some "Error: handlerPromise.then is not a function")
                                 "handlerPromise.then is not a function") |}]).
Proof. reflexivity. Qed.

(** X3.  A message the listener takes for the first time and has a
    handler for is answered at most once.  When its binary fields cannot
    be read the handler is not run and the answer is the failure, as an
    error record with no result; when the handler rejects, the answer is
    the handler's failure as an error record and the blob store is as the
    reading left it; when the handler resolves, the answer carries the
    result as [replaceBufWithObjUrlInplace] leaves it, with the object
    URLs; when the handler never settles, there is no answer. *)
Theorem listener_answers (env : Env) (H : Handlers) (dest d : string)
    (msg : Raw) (s : State) (handler : Handler) :
  to msg = Some d → d ≠ "" → addressed dest d = true →
  uid msg ∉ processed s → H !! name msg = Some handler →
  let failure e :=
    {| result := VUndefined; resObjUrls := [];
       exception := Some (errToJson env e) |} in
  let ran bm := Invoke (Some (uid msg)) (name msg) bm in
  ∃ effs s',
    listen_onMessage env H dest msg s = (true, effs, s')
    ∧ length (responses effs) ≤ 1
    ∧ match replaceObjUrlWithBuf (data_bm msg) (Some (data_objUrls msg))
                                 (store s) with
      | (Rejected e, st1) => effs = [Respond (failure e)] ∧ store s' = st1
      | (Resolved bm, st1) =>
          match handler bm with
          | Pending => effs = [ran bm] ∧ store s' = st1
          | Rejected e =>
              effs = [ran bm; Respond (failure e)] ∧ store s' = st1
          | Resolved v =>
              effs = [ran bm;
                      Respond {| result := (replaceBufWithObjUrlInplace v st1).1.2;
                                 resObjUrls := (replaceBufWithObjUrlInplace v st1).1.1;
                                 exception := None |}]
              ∧ store s' = (replaceBufWithObjUrlInplace v st1).2
          end
      | (Pending, st1) => effs = []
      end.
Proof.
  intros Hto Hd Haddr Hnew Hh failure ran.
  unfold listen_onMessage. rewrite Hto, Haddr.
  rewrite bool_decide_eq_false_2 by done. cbn [negb andb].
  unfold handleMsg. rewrite decide_False by done.
  rewrite (HANDLERS_get_own _ _ _ Hh).
  pose proof (dispatch_cases env handler msg (λ r _, [Respond r]) (store s))
    as Hd'. cbv zeta in Hd'.
  destruct (replaceObjUrlWithBuf _ _ (store s)) as [[bm|e|] st1].
  - destruct (handler bm) as [v|e|].
    + destruct (replaceBufWithObjUrlInplace v st1) as [[u v'] st2].
      rewrite Hd'. eexists _, _. split; [done|]. simpl.
      split_and!; [lia|done|done].
    + rewrite Hd'. eexists _, _. split; [done|]. simpl.
      split_and!; [lia|done|done].
    + rewrite Hd'. eexists _, _. split; [done|]. simpl.
      split_and!; [lia|done|done].
  - rewrite Hd'. eexists _, _. split; [done|]. simpl.
    split_and!; [lia|done|done].
  - rewrite Hd'. eexists _, _. split; [done|]. simpl. split; [lia|done].
Qed.

(** A [fetch] that fails with the 404, asked of frame 3. *)
Lemma listener_answers_witness :
  ∃ effs s',
    listen_onMessage Scenario.env3 {[ "ping" := Scenario.failing ]} "frame-3"
      (Scenario.ping_msg "id-1" (Some "frame-3")) Scenario.fresh_state
    = (true, effs, s')
    ∧ length (responses effs) ≤ 1
    ∧ effs = [Invoke (Some "id-1") "ping" (VObj []);
              Respond {| result := VUndefined; resObjUrls := [];
                         exception := Some (errToJson Scenario.env3
                                              Scenario.ajax_404) |}]
    ∧ store s' = empty_store.
Proof.
  exact (listener_answers Scenario.env3 {[ "ping" := Scenario.failing ]}
           "frame-3" "frame-3" (Scenario.ping_msg "id-1" (Some "frame-3"))
           Scenario.fresh_state Scenario.failing eq_refl
           ltac:(discriminate) eq_refl ltac:(simpl; set_solver)
           ltac:(apply lookup_singleton_eq)).
Defined.

(** ** Handles are read once *)

(** Encoding makes handles numbered from the counter on and touches no
    other. *)
Lemma replaceBuf_loop_frame names : ∀ obj U st U' O' st',
  replaceBuf_loop names obj U st = (U', O', st') →
  (next_handle st ≤ next_handle st')%N
  ∧ ∀ h, (∀ n, (next_handle st ≤ n)%N → h ≠ handle_of n) →
         blobs st' !! h = blobs st !! h.
Proof.
  induction names as [|k names IH]; intros obj U st U' O' st' Hrun;
    simpl in Hrun; [by simplify_eq|].
  destruct (obj_get k obj); try (by eapply IH).
  apply IH in Hrun as [Hle Hframe]. simpl in Hle, Hframe.
  split; [lia|]. intros h Hh. rewrite Hframe.
  - apply lookup_insert_ne. intros <-. by eapply Hh.
  - intros n Hn. apply Hh. lia.
Qed.

Lemma encode_frame v st u v' st' :
  replaceBufWithObjUrlInplace v st = (u, v', st') →
  (next_handle st ≤ next_handle st')%N
  ∧ ∀ h, (∀ n, (next_handle st ≤ n)%N → h ≠ handle_of n) →
         blobs st' !! h = blobs st !! h.
Proof.
  unfold replaceBufWithObjUrlInplace. destruct v; try by intros [= <- <- <-].
  destruct (replaceBuf_loop _ _ _ _) as [[U O'] st1] eqn:Hloop.
  intros [= <- <- <-]. by eapply replaceBuf_loop_frame.
Qed.

Lemma encode_wf v st :
  store_wf st → store_wf (replaceBufWithObjUrlInplace v st).2.
Proof.
  intros Hwf. unfold replaceBufWithObjUrlInplace. destruct v; try done.
  destruct (replaceBuf_loop _ _ _ _) as [[U O'] st1] eqn:Hloop.
  by eapply replaceBuf_loop_wf.
Qed.

(** Decoding keeps the counter, and only ever removes handles. *)
Lemma replaceObjUrl_loop_frame names : ∀ (U : Dict string) (O : Dict value) st,
  next_handle (replaceObjUrl_loop names U O st).2 = next_handle st
  ∧ ∀ h, blobs st !! h = None →
         blobs (replaceObjUrl_loop names U O st).2 !! h = None.
Proof.
  induction names as [|k names IH]; intros U O st; simpl; [done|].
  destruct (dict_get k U) as [h0|]; [|apply IH].
  unfold objUrlConsume. destruct (blobs st !! h0) as [content|] eqn:Hh0;
    simpl; [|done].
  destruct (IH U (dict_set k (VBuf content) O)
              {| next_handle := next_handle st;
                 blobs := delete h0 (blobs st) |}) as [Hn Hd].
  split; [exact Hn|]. intros h Hh. apply Hd. simpl.
  rewrite lookup_delete. case_decide; done.
Qed.

Lemma decode_wf v u st :
  store_wf st → store_wf (replaceObjUrlWithBuf v u st).2.
Proof.
  unfold replaceObjUrlWithBuf. intros Hwf.
  destruct v, u as [u|]; try done.
  all: pose proof (replaceObjUrl_loop_wf (keys u) u) as Hl.
  - specialize (Hl [] st Hwf). by destruct (replaceObjUrl_loop _ _ _ _) as [[?|?] ?].
  - specialize (Hl fields st Hwf).
    by destruct (replaceObjUrl_loop _ _ _ _) as [[?|?] ?].
Qed.

Lemma decode_next v u st :
  next_handle (replaceObjUrlWithBuf v u st).2 = next_handle st.
Proof.
  unfold replaceObjUrlWithBuf.
  destruct v, u as [u|]; try done.
  all: pose proof (replaceObjUrl_loop_frame (keys u) u) as Hl.
  - destruct (Hl [] st) as [Hn _].
    by destruct (replaceObjUrl_loop _ _ _ _) as [[?|?] ?].
  - destruct (Hl fields st) as [Hn _].
    by destruct (replaceObjUrl_loop _ _ _ _) as [[?|?] ?].
Qed.



(** ** Sending without a working transport *)

(** Effects that are window posts and nothing else. *)
Lemma only_posts effs :
  Forall (λ e, ∃ w m o, e = PostMessage w m o) effs →
  notices effs = [] ∧ runtime_sends effs = [] ∧ reports effs = []
  ∧ responses effs = [].
Proof.
  induction 1 as [|e effs (w & m & o & ->) _ IH]; [done|]. exact IH.
Qed.


Lemma sendUpParentLine_only_posts env m :
  Forall (λ e, ∃ w m' o, e = PostMessage w m' o) (sendUpParentLine env m).
Proof.
  unfold sendUpParentLine. destruct (parents env) as [|p chain]; [done|].
  generalize (p :: chain). intros l. induction l; constructor; eauto.
Qed.

Lemma sendToChildren_only_posts env m :
  Forall (λ e, ∃ w m' o, e = PostMessage w m' o) (sendToChildren env m).
Proof.
  unfold sendToChildren.
  induction (childFramesWithExtensionOrigin env) as [|f l IH]; [done|].
  simpl. destruct (contentWindow f); [constructor; eauto|done].
Qed.

(** The sends to the tabs are no window posts, no runtime sends and no
    notices. *)
Lemma toTabs_silent (msg : Raw) (tabs : list (option Z)) :
  let toTabs := (λ tabId, TabsSendMessage tabId msg) <$> tabs in
  posts toTabs = [] ∧ runtime_sends toTabs = [] ∧ notices toTabs = []
  ∧ reports toTabs = [] ∧ tabs_sends toTabs = (λ t, (t, msg)) <$> tabs.
Proof.
  induction tabs as [|t tabs (? & ? & ? & ? & IH)]; [done|].
  split_and!; try done. simpl. by f_equal.
Qed.

(** What [sendRaw] does besides its window posts. *)
Lemma sendRaw_split env destString nm bm objUrls awaitRes iv tr st :
  ∃ viaWindow,
    Forall (λ e, ∃ w m o, e = PostMessage w m o) viaWindow
    ∧ (isBackgroundPage env = true → viaWindow = [])
    ∧ sendRaw env destString nm bm objUrls awaitRes iv tr st
      = let msg := sendRaw_msg env destString nm bm objUrls iv in
        if chrome_runtime env then
          match tr with
          | CallbackWith r lastError =>
              if isBackgroundPage env
              then (Resolved (RawReply_value r),
                    ((λ tabId, TabsSendMessage tabId msg) <$> activeTabs env)
                      ++ viaWindow, st)
              else
                let '(p, st') :=
                  processRawMsgResponse env destString msg awaitRes r
                                        lastError st in
                (p, RuntimeSendMessage msg :: viaWindow, st')
          | NoCallback =>
              (Pending,
               (if isBackgroundPage env
                then (λ tabId, TabsSendMessage tabId msg) <$> activeTabs env
                else [RuntimeSendMessage msg]) ++ viaWindow, st)
          | SendThrows e =>
              if context_invalidated e
              then (Pending,
                    RenderFatalErrCorner "Restart browser to re-enable FlowCrypt"
                                         "GREEN-NOTIFICATION" :: viaWindow, st)
              else (Rejected e, viaWindow, st)
          end
        else
          (Pending,
           RenderFatalErrCorner "Error: missing chrome.runtime"
                                "RED-RELOAD-PROMPT" :: viaWindow, st).
Proof.
  unfold sendRaw.
  set (msg := sendRaw_msg env destString nm bm objUrls iv).
  set (viaWindow := match to msg with Some _ => _ | None => _ end).
  exists viaWindow. split_and!.
  - subst viaWindow. destruct (to msg); [|done].
    destruct (isBackgroundPage env); [done|]. cbn [negb].
    apply Forall_app. split; [apply sendToChildren_only_posts|].
    constructor; [by eauto|apply sendUpParentLine_only_posts].
  - intros Hbg. subst viaWindow. rewrite Hbg. by destruct (to msg).
  - cbv zeta. destruct (chrome_runtime env); [|done].
    destruct (isBackgroundPage env), tr as [r le| |[e|v]]; simpl; try done.
    all: by destruct (bool_decide _).
Qed.

(** X5.  When [chrome.runtime] is missing, [sendRaw] hands nothing to the
    browser, shows the red reload prompt, and its promise never settles.
    When handing the message over throws, the promise never settles and
    the green "restart" notice is shown if the error says the extension
    context is invalidated; it rejects with what was thrown, and nothing
    is shown, otherwise.  In all these cases the blob store is untouched,
    and the window posts are the same as when the transport works. *)
Theorem sendRaw_without_transport (env : Env) (destString : option string)
    (nm : string) (bm : value) (objUrls : Dict string) (awaitRes : bool)
    (iv : string) (st : BlobStore) :
  let send := sendRaw env destString nm bm objUrls awaitRes iv in
  (chrome_runtime env = false → ∀ tr,
     (send tr st).1.1 = Pending
     ∧ notices (send tr st).1.2
       = [("Error: missing chrome.runtime", "RED-RELOAD-PROMPT")]
     ∧ runtime_sends (send tr st).1.2 = [] ∧ (send tr st).2 = st)
  ∧ (chrome_runtime env = true → ∀ e,
       runtime_sends (send (SendThrows e) st).1.2 = []
       ∧ (send (SendThrows e) st).2 = st
       ∧ if context_invalidated e
         then (send (SendThrows e) st).1.1 = Pending
              ∧ notices (send (SendThrows e) st).1.2
                = [("Restart browser to re-enable FlowCrypt",
                    "GREEN-NOTIFICATION")]
         else (send (SendThrows e) st).1.1 = Rejected e
              ∧ notices (send (SendThrows e) st).1.2 = [])
  ∧ (∀ tr, posts (send tr st).1.2 = posts (send NoCallback st).1.2).
Proof.
  intros send. subst send. split_and!.
  - intros Hrt tr.
    destruct (sendRaw_split env destString nm bm objUrls awaitRes iv tr st)
      as (viaWindow & Hposts & _ & ->).
    apply only_posts in Hposts as (Hn & Hs & _ & _).
    cbv zeta. rewrite Hrt. unfold notices, runtime_sends in *.
    cbn. by rewrite Hn, Hs.
  - intros Hrt e.
    destruct (sendRaw_split env destString nm bm objUrls awaitRes iv
                (SendThrows e) st) as (viaWindow & Hposts & _ & ->).
    apply only_posts in Hposts as (Hn & Hs & _ & _).
    cbv zeta. rewrite Hrt. unfold notices, runtime_sends in *.
    destruct (context_invalidated e); cbn; by rewrite ?Hn, ?Hs.
  - intros tr. by rewrite !sendRaw_posts.
Qed.

(** X6.  From the background page, [sendRaw] posts no window message and
    hands nothing to [chrome.runtime.sendMessage]; when the browser calls
    back it resolves with the reply as it came: an error record in the
    reply does not reject the promise, and no object URL is read. *)
Theorem sendRaw_from_background (env : Env) (destString : option string)
    (nm : string) (bm : value) (objUrls : Dict string) (awaitRes : bool)
    (iv : string) (st : BlobStore) :
  isBackgroundPage env = true → chrome_runtime env = true →
  (∀ tr, posts (sendRaw env destString nm bm objUrls awaitRes iv tr st).1.2 = []
         ∧ runtime_sends
             (sendRaw env destString nm bm objUrls awaitRes iv tr st).1.2 = []
         ∧ (sendRaw env destString nm bm objUrls awaitRes iv tr st).2 = st)
  ∧ ∀ r lastError,
      (sendRaw env destString nm bm objUrls awaitRes iv
               (CallbackWith r lastError) st).1.1
      = Resolved (RawReply_value r).
Proof.
  intros Hbg Hrt. split.
  - intros tr.
    destruct (sendRaw_split env destString nm bm objUrls awaitRes iv tr st)
      as (viaWindow & _ & Hnone & ->).
    rewrite (Hnone Hbg). cbv zeta. rewrite Hrt, Hbg.
    destruct (toTabs_silent (sendRaw_msg env destString nm bm objUrls iv)
                (activeTabs env)) as (Hp & Hs & _).
    destruct tr as [r le| |e]; cbn [fst snd]; rewrite ?app_nil_r; [done..|].
    by destruct (context_invalidated e).
  - intros r lastError.
    destruct (sendRaw_split env destString nm bm objUrls awaitRes iv
                (CallbackWith r lastError) st) as (viaWindow & _ & _ & ->).
    cbv zeta. by rewrite Hrt, Hbg.
Qed.

(** An awaited call from the background page to a tab whose handler
    failed: the caller gets the error record as a value. *)
Lemma sendRaw_from_background_witness :
  (sendRaw Scenario.bg_env (Some "tab-0") "ping" (VObj []) [] true "iv-1"
     (CallbackWith
        (Response {| result := VUndefined; resObjUrls := [];
                     exception := Some (errToJson Scenario.env3
                                          Scenario.ajax_404) |}) None)
     empty_store).1.1
  = Resolved (RawReply_value
      (Response {| result := VUndefined; resObjUrls := [];
                   exception := Some (errToJson Scenario.env3
                                        Scenario.ajax_404) |})).
Proof.
  exact (proj2 (sendRaw_from_background Scenario.bg_env (Some "tab-0") "ping"
                  (VObj []) [] true "iv-1" empty_store eq_refl eq_refl) _ _).
Defined.

(** X28.  From the background page, [sendRaw] hands the message to
    [chrome.tabs.sendMessage] once for every tab that [chrome.tabs.query]
    finds, in the order of the tabs and each time the same message, under
    the one id it drew; when no tab is found nothing is sent to anybody,
    and when the query itself throws nothing is sent either. *)
Theorem sendRaw_to_every_active_tab (env : Env) (destString : option string)
    (nm : string) (bm : value) (objUrls : Dict string) (awaitRes : bool)
    (iv : string) (tr : Transport) (st : BlobStore) :
  isBackgroundPage env = true → chrome_runtime env = true →
  let sent := (sendRaw env destString nm bm objUrls awaitRes iv tr st).1.2 in
  match tr with
  | SendThrows _ => tabs_sends sent = []
  | _ =>
      sent = (λ tabId, TabsSendMessage tabId
                         (sendRaw_msg env destString nm bm objUrls iv))
             <$> activeTabs env
      ∧ tabs_sends sent
        = (λ tabId, (tabId, sendRaw_msg env destString nm bm objUrls iv))
          <$> activeTabs env
  end.
Proof.
  intros Hbg Hrt sent. subst sent.
  destruct (sendRaw_split env destString nm bm objUrls awaitRes iv tr st)
    as (viaWindow & _ & Hnone & ->).
  rewrite (Hnone Hbg). cbv zeta. rewrite Hrt, Hbg.
  destruct (toTabs_silent (sendRaw_msg env destString nm bm objUrls iv)
              (activeTabs env)) as (_ & _ & _ & _ & Htabs).
  destruct tr as [r le| |e]; cbn [fst snd]; rewrite ?app_nil_r; [done..|].
  by destruct (context_invalidated e).
Qed.

(** The background page with one active tab, number 7. *)
Lemma sendRaw_to_every_active_tab_witness :
  let sent := (sendRaw Scenario.bg_env (Some "tab-0") "ping" (VObj []) []
                       false "iv-1" NoCallback empty_store).1.2 in
  sent = [TabsSendMessage (Some 7%Z)
            (sendRaw_msg Scenario.bg_env (Some "tab-0") "ping" (VObj []) []
                         "iv-1")]
  ∧ tabs_sends sent
    = [(Some 7%Z, sendRaw_msg Scenario.bg_env (Some "tab-0") "ping" (VObj [])
                              [] "iv-1")].
Proof.
  exact (sendRaw_to_every_active_tab Scenario.bg_env (Some "tab-0") "ping"
           (VObj []) [] false "iv-1" NoCallback empty_store eq_refl eq_refl).
Defined.

(** ** The blob store under a run of the listeners *)

Lemma store_step_refl st : store_step st st.
Proof. by split_and!. Qed.

Lemma store_step_trans st1 st2 st3 :
  store_step st1 st2 → store_step st2 st3 → store_step st1 st3.
Proof.
  intros (Hn1 & Hw1 & Hd1) (Hn2 & Hw2 & Hd2). split_and!; [lia|tauto|].
  intros n Hn Hnone. apply Hd2; [lia|]. by apply Hd1.
Qed.

Lemma encode_step v st : store_step st (replaceBufWithObjUrlInplace v st).2.
Proof.
  destruct (replaceBufWithObjUrlInplace v st) as [[u v'] st'] eqn:Henc.
  pose proof (encode_wf v st) as Hwf. rewrite Henc in Hwf.
  apply encode_frame in Henc as [Hle Hframe]. split_and!; [done|done|].
  intros n Hn Hnone. simpl. rewrite Hframe; [done|].
  intros m Hm Heq%handle_of_inj. lia.
Qed.

Lemma decode_step v u st : store_step st (replaceObjUrlWithBuf v u st).2.
Proof.
  split_and!.
  - by rewrite decode_next.
  - apply decode_wf.
  - intros n _ Hnone. unfold replaceObjUrlWithBuf.
    destruct v, u as [u|]; try done.
    all: pose proof (replaceObjUrl_loop_frame (keys u) u) as Hl.
    + destruct (Hl [] st) as [_ Hd]. specialize (Hd _ Hnone).
      by destruct (replaceObjUrl_loop _ _ _ _) as [[?|?] ?].
    + destruct (Hl fields st) as [_ Hd]. specialize (Hd _ Hnone).
      by destruct (replaceObjUrl_loop _ _ _ _) as [[?|?] ?].
Qed.

Lemma dispatch_step env handler msg rawRespond st :
  store_step st (dispatch env handler msg rawRespond st).2.
Proof.
  pose proof (dispatch_cases env handler msg rawRespond st) as Hd.
  pose proof (decode_step (data_bm msg) (Some (data_objUrls msg)) st) as H1.
  cbv zeta in Hd.
  destruct (replaceObjUrlWithBuf _ _ st) as [[bm|e|] st1]; simpl in H1.
  - destruct (handler bm) as [v|e|]; try (by rewrite Hd).
    pose proof (encode_step v st1) as H2.
    destruct (replaceBufWithObjUrlInplace v st1) as [[u v'] st2].
    rewrite Hd. by eapply store_step_trans.
  - by rewrite Hd.
  - by rewrite Hd.
Qed.

Lemma dispatch_inherited_step env inherited msg rawRespond st :
  store_step st (dispatch_inherited env inherited msg rawRespond st).2.
Proof.
  pose proof (decode_step (data_bm msg) (Some (data_objUrls msg)) st) as H1.
  unfold dispatch_inherited.
  destruct (replaceObjUrlWithBuf _ _ st) as [[bm|e|] st1]; simpl in H1;
    [|done..].
  by destruct (callInherited env inherited bm).
Qed.

Lemma handleMsg_step env H msg rawRespond s :
  store_step (store s) (store (handleMsg env H msg rawRespond s).2).
Proof.
  unfold handleMsg. case_decide; [apply store_step_refl|].
  destruct (HANDLERS_get H (name msg)) as [[handler|inherited]|];
    [| |apply store_step_refl].
  - pose proof (dispatch_step env handler msg rawRespond (store s)) as Hd.
    by destruct (dispatch _ _ _ _ _).
  - pose proof (dispatch_inherited_step env inherited msg rawRespond (store s))
      as Hd.
    by destruct (dispatch_inherited _ _ _ _ _).
Qed.

Lemma deliver_store_step env H dest x s :
  store_step (store s) (store (deliver env H dest x s).2).
Proof.
  assert (Hresume : ∀ m iv tr,
    store_step (store s) (store (window_onMessage_resume env H m iv tr s).2)).
  { intros m iv tr. unfold window_onMessage_resume.
    pose proof (handleMsg_step env H (decrypt m)
                  (respondAsNewRequest env (decrypt m) iv tr) s) as Hh.
    destruct (handleMsg _ _ _ _ _) as [[handled effs] s1].
    destruct (propagate env m handled s1) as [effs2 s2] eqn:Hp.
    apply propagate_spec in Hp as (_ & _ & Hs). simpl in *. by rewrite Hs. }
  assert (Hbegin : ∀ origin m effs s1,
    window_onMessage_begin env dest origin m s = Returned effs s1 →
    store s1 = store s).
  { intros origin m effs s1. unfold window_onMessage_begin.
    destruct (negb _); [by intros [= _ <-]|].
    case_decide; [by intros [= _ <-]|].
    destruct (addressed _ _); [done|].
    destruct (propagate _ _ _ _) as [effs2 s2] eqn:Hp.
    apply propagate_spec in Hp as (_ & _ & Hs). by intros [= _ <-]. }
  destruct x as [msg|origin m iv tr|origin m|m iv tr]; simpl.
  - unfold listen_onMessage. destruct (to msg); [|apply store_step_refl].
    destruct (negb _ && _); [|apply store_step_refl].
    pose proof (handleMsg_step env H msg (λ r _, [Respond r]) s) as Hh.
    by destruct (handleMsg _ _ _ _ _) as [[handled effs] s1].
  - unfold window_onMessage.
    destruct (window_onMessage_begin _ _ _ _ _) as [effs s1|] eqn:Hb.
    + apply Hbegin in Hb. simpl. rewrite Hb. apply store_step_refl.
    + apply Hresume.
  - destruct (window_onMessage_begin _ _ _ _ _) as [effs s1|] eqn:Hb.
    + apply Hbegin in Hb. simpl. rewrite Hb. apply store_step_refl.
    + apply store_step_refl.
  - apply Hresume.
Qed.

(** X7.  Over any run of a context's two listeners the ledger only
    grows, the counter of the blob store never goes back and the store
    stays well-formed, and an object URL that has been read stays
    unreadable: no later message can bring a used handle back. *)
Theorem listeners_keep_the_store (env : Env) (H : Handlers) (dest : string)
    (ds : list delivery) (s : State) :
  store_wf (store s) →
  let s' := (deliver_all env H dest ds s).2 in
  processed s ⊆ processed s'
  ∧ store_wf (store s')
  ∧ (next_handle (store s) ≤ next_handle (store s'))%N
  ∧ ∀ n, (n < next_handle (store s))%N →
         blobs (store s) !! handle_of n = None →
         blobs (store s') !! handle_of n = None.
Proof.
  intros Hwf s'. subst s'.
  assert (Hstep : store_step (store s) (store (deliver_all env H dest ds s).2)).
  { clear Hwf. revert s. induction ds as [|x ds IH]; intros s; simpl;
      [apply store_step_refl|].
    pose proof (deliver_store_step env H dest x s) as H1.
    destruct (deliver env H dest x s) as [effs1 s1].
    specialize (IH s1).
    destruct (deliver_all env H dest ds s1) as [effs2 s2].
    by eapply store_step_trans. }
  destruct Hstep as (Hn & Hw & Hd).
  split_and!; [|by apply Hw|done|done].
  destruct (deliver_all env H dest ds s) as [effs s'] eqn:Hrun.
  by apply deliver_all_once in Hrun as (? & _).
Qed.

(** The five deliveries of the [ping] scenario, from a fresh state. *)
Lemma listeners_keep_the_store_witness :
  let s' := (deliver_all Scenario.env3 {[ "ping" := Scenario.ping ]} "frame-3"
               [Direct (Scenario.ping_msg "id-1" (Some "frame-3"));
                Window Scenario.origin
                  (encrypt "frame-3" (Scenario.ping_msg "id-2" (Some "frame-3")))
                  "iv-3" NoCallback]
               Scenario.fresh_state).2 in
  processed Scenario.fresh_state ⊆ processed s'
  ∧ store_wf (store s')
  ∧ (next_handle (store Scenario.fresh_state) ≤ next_handle (store s'))%N
  ∧ ∀ n, (n < next_handle (store Scenario.fresh_state))%N →
         blobs (store Scenario.fresh_state) !! handle_of n = None →
         blobs (store s') !! handle_of n = None.
Proof.
  apply (listeners_keep_the_store Scenario.env3 {[ "ping" := Scenario.ping ]}
           "frame-3" _ Scenario.fresh_state).
  apply store_wf_empty.
Defined.

(** ** Responses to window messages *)

Lemma decode_without_urls (bm : value) (st : BlobStore) :
  replaceObjUrlWithBuf bm (Some []) st = (Resolved bm, st).
Proof. by destruct bm. Qed.



(** ** A call to the parent window *)

(** X9.  [sendToParentWindow] from a frame [n >= 1] levels below the top
    hands nothing to [chrome.runtime]; it posts [n] copies of the
    encrypted request, all to [window.parent], all flagged for
    propagation and addressed to [parentTabId].  When these copies arrive
    at a context that listens as [parentTabId] and has a handler for the
    request, the handler runs once, on the payload as it was sent. *)
Theorem parent_window_call_runs_once (env penv : Env) (H : Handlers)
    (handler : Handler) (parentTabId nm : string) (bm : value)
    (rn : option string) (iv origin iv' : string) (tr : Transport)
    (s : State) :
  parents env ≠ [] → parentTabId ≠ "" →
  trusted_origin penv origin = true → iv ∉ processed s →
  H !! nm = Some handler →
  let sent := sendToParentWindow env parentTabId nm bm rn iv in
  runtime_sends sent = []
  ∧ length (posts sent) = length (parents env)
  ∧ Forall (λ p, head (parents env) = Some p.1.1
                 ∧ epropagateToParent p.1.2 = true ∧ eto p.1.2 = parentTabId
                 ∧ euid p.1.2 = iv ∧ p.2 = "*") (posts sent)
  ∧ ∃ effs s',
      deliver_all penv H parentTabId (arrivals origin iv' tr sent) s
      = (effs, s')
      ∧ invocations effs = [(Some iv, nm, bm)].
Proof.
  intros Hdeep Hdest Ho Hnew Hh sent. subst sent.
  unfold sendToParentWindow.
  set (raw := {| name := nm; data_bm := bm; data_objUrls := [];
                 to := Some parentTabId; uid := iv; stack := "";
                 responseName := rn |}).
  pose proof (sendUpParentLine_posts env (encrypt parentTabId raw)) as Hposts.
  destruct (parents env) as [|p chain] eqn:Hp; [done|].
  split_and!.
  - by destruct (only_posts _ (sendUpParentLine_only_posts env
                                 (encrypt parentTabId raw))) as (_ & ? & _).
  - rewrite Hposts. by rewrite length_fmap.
  - rewrite Hposts. apply Forall_fmap, Forall_forall. by intros w _.
  - unfold arrivals. rewrite Hposts.
    eapply (deliver_all_exactly_once penv H parentTabId raw parentTabId
              handler bm _ (store s) s); try done.
    + unfold addressed. by rewrite bool_decide_eq_true_2.
    + apply decode_without_urls.
    + apply Forall_fmap, Forall_fmap, Forall_forall. by intros w _.
    + simpl. by apply Exists_cons_hd.
Qed.

(** A dialog two levels below its tab closes itself. *)
Lemma parent_window_call_runs_once_witness :
  let sent := sendToParentWindow Scenario.env2 "tab-0" "close_dialog" (VObj [])
                                 None "iv-1" in
  runtime_sends sent = []
  ∧ length (posts sent) = 2
  ∧ Forall (λ p, Some 1 = Some p.1.1
                 ∧ epropagateToParent p.1.2 = true ∧ eto p.1.2 = "tab-0"
                 ∧ euid p.1.2 = "iv-1" ∧ p.2 = "*") (posts sent)
  ∧ ∃ effs s',
      deliver_all Scenario.top_env {[ "close_dialog" := Scenario.ping ]}
        "tab-0" (arrivals Scenario.origin "iv-2" NoCallback sent)
        Scenario.fresh_state = (effs, s')
      ∧ invocations effs = [(Some "iv-1", "close_dialog", VObj [])].
Proof.
  refine (parent_window_call_runs_once Scenario.env2 Scenario.top_env
            {[ "close_dialog" := Scenario.ping ]} Scenario.ping "tab-0"
            "close_dialog" (VObj []) None "iv-1" Scenario.origin "iv-2"
            NoCallback Scenario.fresh_state _ _ eq_refl _ _).
  - discriminate.
  - discriminate.
  - simpl. set_solver.
  - apply lookup_singleton_eq.
Defined.

(** ** Window messages from other origins *)

(** X10.  Window messages from an origin that is neither
    [https://mail.google.com] nor the extension's own have no effect on a
    context: a run of its listeners does and leaves exactly what the run
    without these messages does and leaves. *)
Theorem untrusted_messages_are_ignored (env : Env) (H : Handlers)
    (dest : string) (ds : list delivery) (s : State) :
  deliver_all env H dest ds s
  = deliver_all env H dest
      (filter (λ x, from_untrusted env x = false) ds) s.
Proof.
  revert s. induction ds as [|x ds IH]; intros s; [done|].
  rewrite filter_cons. destruct (from_untrusted env x) eqn:Hx.
  - rewrite decide_False by done.
    assert (deliver env H dest x s = ([], s)) as Hnone.
    { destruct x as [msg|origin m iv tr|origin m|m iv tr]; try done; simpl.
      - unfold window_onMessage, window_onMessage_begin.
        simpl in Hx. by rewrite Hx.
      - unfold window_onMessage_begin. simpl in Hx. by rewrite Hx. }
    simpl. rewrite Hnone, IH.
    by destruct (deliver_all _ _ _ _ _).
  - rewrite decide_True by done. simpl.
    destruct (deliver env H dest x s) as [effs1 s1]. by rewrite IH.
Qed.

(** ** What the encoding records *)




(* ===================================================================== *)
(** * Further properties of [Api]                                         *)
(* ===================================================================== *)

(** ** What the two request functions reject with *)

(** X12.  [Api.download] and, outside a content script, [Api.ajax] never
    reject with a raw value: every rejection is an [Error] object.  For
    [Api.ajax] an [Error] from [$.ajax] is passed on as it is, a raw
    failure with a numeric [readyState] becomes [AjaxErr.fromXhr] of it,
    the request and the caller's stack, and anything else an [Error]
    that names the value and the url.  [Api.download] resolves only on a
    load with status at most 299, with the body.  Each call issues one
    request, or none when the path-traversal guard stops it; in a content
    script [Api.ajax] issues none itself and is the background page's
    answer. *)
Theorem api_rejections_are_errors (x : Api.Externals) :
  (∀ url xhr,
     let out := Api.download x url xhr in
     (∀ e, out.1 = Rejected e → ∃ err, e = ThrowErr err)
     ∧ (∀ v, out.1 = Resolved v →
          ∃ status body target,
            xhr = Api.OnLoad status body target ∧ (status ≤ 299)%Z
            ∧ v = VBuf body)
     ∧ out.2 = match Api.throwIfApiPathTraversalAttempted x url with
               | Some _ => []
               | None => [Api.XhrGet url]
               end)
  ∧ (∀ url stack viaBg jq,
       let out := Api.ajax x url stack viaBg jq in
       (Api.isContentScript x = true → out = (viaBg, [Api.ViaBackground url]))
       ∧ (Api.isContentScript x = false →
          (∀ e, out.1 = Rejected e → ∃ err, e = ThrowErr err)
          ∧ (∀ v, out.1 = Resolved v → jq = Resolved v)
          ∧ out.2 = match Api.throwIfApiPathTraversalAttempted x
                            (default "" url) with
                    | Some _ => []
                    | None => [Api.JQueryAjax url]
                    end
          ∧ (Api.throwIfApiPathTraversalAttempted x (default "" url) = None →
             (∀ err, jq = Rejected (ThrowErr err) →
                     out.1 = Rejected (ThrowErr err))
             ∧ (∀ raw, jq = Rejected (ThrowVal raw) →
                  out.1 = Rejected (ThrowErr
                    (if Api.isRawAjaxErr (ThrowVal raw)
                     then Api.fromXhr x raw url stack
                     else
                       let message :=
                         "Unknown Ajax error (" +:+
                         Api.String_of x (ThrowVal raw) +:+
                         ") type when calling " +:+ show_opt url in
                       {| cls := ClsError; Js.message := message;
                          Js.stack := Some (Api.newErrorStack x message) |}
                  )))))).
Proof.
  split.
  - intros url xhr out. subst out. unfold Api.download.
    destruct (Api.throwIfApiPathTraversalAttempted x url) as [e0|] eqn:Hg.
    + unfold Api.throwIfApiPathTraversalAttempted in Hg.
      destruct (_ || _); [|done]. injection Hg as <-. simpl.
      split_and!; [intros e [= <-]; by eexists|done|done].
    + simpl. split_and!; [| |done].
      * intros e. destruct xhr as [status body [t|]|[t|]|]; simpl;
          try destruct (status <=? 299)%Z; try done;
          intros [= <-]; by eexists.
      * intros v. destruct xhr as [status body target|[t|]|]; simpl; try done.
        destruct (status <=? 299)%Z eqn:Hs.
        -- intros [= <-]. exists status, body, target.
           split_and!; [done|lia|done].
        -- by destruct target.
  - intros url stack viaBg jq out. subst out. unfold Api.ajax. split.
    + by intros ->.
    + intros ->.
      destruct (Api.throwIfApiPathTraversalAttempted x (default "" url))
        as [e0|] eqn:Hg.
      * unfold Api.throwIfApiPathTraversalAttempted in Hg.
        destruct (_ || _); [|done]. injection Hg as <-. simpl.
        split_and!; [intros e [= <-]; by eexists|done|done|done].
      * simpl. split_and!; [| |done|].
        -- intros e. destruct jq as [v|[err|raw]|]; cbn [fst]; try done.
           ++ intros [= <-]. by eexists.
           ++ destruct (Api.isRawAjaxErr (ThrowVal raw)); intros [= <-];
                by eexists.
        -- intros v. destruct jq as [v'|[err|raw]|]; cbn [fst]; try done.
           by destruct (Api.isRawAjaxErr (ThrowVal raw)).
        -- intros _. split.
           ++ by intros err ->.
           ++ intros raw ->. cbn [fst]. unfold Api.isRawAjaxErr.
              by repeat case_match.
Qed.

(** ** The random token *)

Lemma hex_of_byte_reads_back (b : byte) :
  ApiCall.byte_of_hex (ApiCall.hex_of_byte b) = Some (Byte.to_N b).
Proof. destruct b; vm_compute; reflexivity. Qed.

Lemma concat_empty_cons (x : string) (xs : list string) :
  String.concat "" (x :: xs) = x +:+ String.concat "" xs.
Proof.
  destruct xs as [|y xs]; [|done]. cbn [String.concat].
  induction x as [|a x IH]; [done|].
  change (String a x = String a (x +:+ "")). by f_equal.
Qed.

(** Every byte gives two hex digits. *)
Lemma hex_of_byte_pair (b : byte) :
  ∃ hi lo, ApiCall.hex_of_byte b = String hi (String lo "")
           ∧ hi ∈ ApiCall.hex_digits ∧ lo ∈ ApiCall.hex_digits.
Proof.
  pose proof (hex_of_byte_reads_back b) as Hb.
  destruct (ApiCall.hex_of_byte b) as [|hi [|lo [|? ?]]]; try done.
  simpl in Hb. exists hi, lo. split; [done|].
  unfold ApiCall.is_hex in Hb.
  destruct (bool_decide (hi ∈ _)) eqn:Hhi; [|done].
  destruct (bool_decide (lo ∈ _)) eqn:Hlo; [|done].
  by apply bool_decide_eq_true in Hhi, Hlo.
Qed.

Lemma hex_of_byte_inj (b b' : byte) :
  ApiCall.hex_of_byte b = ApiCall.hex_of_byte b' → b = b'.
Proof.
  intros Heq. pose proof (hex_of_byte_reads_back b) as Hb.
  rewrite Heq, hex_of_byte_reads_back in Hb. injection Hb as Hb.
  pose proof (Byte.of_to_N b) as H1. pose proof (Byte.of_to_N b') as H2.
  rewrite <- Hb in H1. congruence.
Qed.

Lemma hex_pair_app (hi lo : Ascii.ascii) (t : string) :
  String hi (String lo "") +:+ t = String hi (String lo t).
Proof. reflexivity. Qed.

Lemma hex_of_bytes_spec (bytes : list byte) :
  String.length (String.concat "" (ApiCall.hex_of_byte <$> bytes))
  = 2 * length bytes
  ∧ Forall (λ a, a ∈ ApiCall.hex_digits)
           (String.list_ascii_of_string
              (String.concat "" (ApiCall.hex_of_byte <$> bytes)))
  ∧ ∀ bytes', String.concat "" (ApiCall.hex_of_byte <$> bytes')
              = String.concat "" (ApiCall.hex_of_byte <$> bytes) →
              bytes' = bytes.
Proof.
  induction bytes as [|b bytes (IHlen & IHhex & IHinj)].
  - split_and!; [done|done|]. intros [|b' bytes']; [done|].
    rewrite fmap_cons, concat_empty_cons.
    destruct (hex_of_byte_pair b') as (hi & lo & -> & _).
    by rewrite hex_pair_app.
  - rewrite fmap_cons, concat_empty_cons.
    destruct (hex_of_byte_pair b) as (hi & lo & Hb & Hhi & Hlo).
    rewrite Hb, hex_pair_app. split_and!.
    + cbn [String.length]. rewrite IHlen. cbn [length]. lia.
    + cbn [String.list_ascii_of_string].
      apply Forall_cons; split; [done|]. by apply Forall_cons.
    + intros [|b' bytes']; [done|].
      rewrite fmap_cons, concat_empty_cons.
      destruct (hex_of_byte_pair b') as (hi' & lo' & Hb' & _).
      rewrite Hb', hex_pair_app. intros [= -> -> Hrest].
      f_equal; [|by apply IHinj].
      apply hex_of_byte_inj. by rewrite Hb, Hb'.
Qed.

(** X13.  [Api.randomFortyHexChars] turns the twenty random bytes into
    forty characters, all of them lower-case hex digits, two per byte, and
    loses nothing on the way: two different byte strings never give the
    same token. *)
Theorem random_token_is_forty_hex_chars (secureRandomBytes : nat → list byte) :
  length (secureRandomBytes 20) = 20 →
  let token := ApiCall.randomFortyHexChars secureRandomBytes in
  String.length token = 40
  ∧ Forall (λ a, a ∈ ApiCall.hex_digits) (String.list_ascii_of_string token)
  ∧ ∀ other, ApiCall.randomFortyHexChars other = token →
             other 20 = secureRandomBytes 20.
Proof.
  intros Hlen token. subst token. unfold ApiCall.randomFortyHexChars.
  destruct (hex_of_bytes_spec (secureRandomBytes 20)) as (Hl & Hh & Hi).
  split_and!; [by rewrite Hl, Hlen|done|]. intros other. apply Hi.
Qed.

Lemma random_token_is_forty_hex_chars_witness :
  let token := ApiCall.randomFortyHexChars (λ n, replicate n xa7%byte) in
  String.length token = 40
  ∧ Forall (λ a, a ∈ ApiCall.hex_digits) (String.list_ascii_of_string token)
  ∧ ∀ other, ApiCall.randomFortyHexChars other = token →
             other 20 = replicate 20 xa7%byte.
Proof.
  exact (random_token_is_forty_hex_chars (λ n, replicate n xa7%byte) eq_refl).
Defined.

(** ** [Api.apiCall] *)

(** X14.  [Api.apiCall] takes four combinations of format and fields:
    [JSON] with fields that are truthy, [TEXT] with a string (the empty
    string too), [FORM] with an object, and no format with no fields for
    a [GET].  Any other combination rejects with
    [Error('unknown format:' + fmt)] before anything is sent, in a content
    script as well.  For a combination it takes, the body is the
    stringified fields, the string itself, the form entries in the order
    of the fields, or nothing; and the content type is JSON's for [JSON]
    and [false] otherwise. *)
Theorem apiCall_formats (x : Api.Externals)
    (JSON_stringify : option ApiCall.Fields → string) (url path : string)
    (fields : option ApiCall.Fields) (fmt : option ApiCall.ReqFmt)
    (progress : option ApiCall.ProgressCbs) (headers : option (Dict string))
    (resFmt : ApiCall.ResFmt) (method : ApiCall.ReqMethod)
    (viaBg jq : Promise value) :
  let taken :=
    (fmt = Some ApiCall.JSON ∧ ApiCall.truthy_fields fields = true)
    ∨ (fmt = Some ApiCall.TEXT ∧ ∃ s, fields = Some (ApiCall.FieldsString s))
    ∨ (fmt = Some ApiCall.FORM ∧ ∃ d, fields = Some (ApiCall.FieldsDict d))
    ∨ (fmt = None ∧ ApiCall.truthy_fields fields = false
       ∧ method = ApiCall.GET) in
  let out := ApiCall.apiCall x JSON_stringify url path fields fmt progress
                             headers resFmt method viaBg jq in
  (taken →
   ∃ req, out.2 = Some req
     ∧ ApiCall.data req
       = match fmt, fields with
         | Some ApiCall.JSON, _ => ApiCall.DataString (JSON_stringify fields)
         | Some ApiCall.TEXT, Some (ApiCall.FieldsString s) =>
             ApiCall.DataString s
         | Some ApiCall.FORM, Some (ApiCall.FieldsDict d) =>
             ApiCall.DataForm (ApiCall.formData d)
         | _, _ => ApiCall.DataUndefined
         end
     ∧ ApiCall.contentType req
       = match fmt with
         | Some ApiCall.JSON => Some "application/json; charset=UTF-8"
         | _ => None
         end)
  ∧ (¬ taken →
     ∃ e, out = (Rejected (ThrowErr e), [], None) ∧ cls e = ClsError
          ∧ Js.message e = "unknown format:" +:+ ApiCall.String_of_fmt fmt).
Proof.
  intros taken out. subst taken out.
  unfold ApiCall.apiCall.
  split.
  - intros Htaken.
    assert (∃ req,
      ApiCall.apiCall_settings x JSON_stringify url path fields fmt progress
                               headers resFmt method = inr req
      ∧ ApiCall.data req
        = match fmt, fields with
          | Some ApiCall.JSON, _ => ApiCall.DataString (JSON_stringify fields)
          | Some ApiCall.TEXT, Some (ApiCall.FieldsString s) =>
              ApiCall.DataString s
          | Some ApiCall.FORM, Some (ApiCall.FieldsDict d) =>
              ApiCall.DataForm (ApiCall.formData d)
          | _, _ => ApiCall.DataUndefined
          end
      ∧ ApiCall.contentType req
        = match fmt with
          | Some ApiCall.JSON => Some "application/json; charset=UTF-8"
          | _ => None
          end) as (req & -> & Hdata & Htype).
    { unfold ApiCall.apiCall_settings.
      destruct Htaken as [[-> Hf]|[[-> [s ->]]|[[-> [d ->]]|(-> & Hf & ->)]]].
      - rewrite bool_decide_eq_true_2 by done. rewrite Hf. by eexists.
      - by eexists.
      - by eexists.
      - rewrite (bool_decide_eq_false_2 (None = Some ApiCall.JSON)) by done.
        rewrite (bool_decide_eq_false_2 (None = Some ApiCall.TEXT)) by done.
        rewrite (bool_decide_eq_false_2 (None = Some ApiCall.FORM)) by done.
        rewrite Hf. eexists. split; [done|]. by destruct fields as [[?|?]|]. }
    destruct (Api.ajax _ _ _ _ _) as [res reqs]. by eexists.
  - intros Hnot.
    assert (H1 : bool_decide (fmt = Some ApiCall.JSON)
                 && ApiCall.truthy_fields fields = false).
    { apply not_true_is_false. intros [?%bool_decide_eq_true ?]%andb_true_iff.
      apply Hnot. by left. }
    assert (H2 : bool_decide (fmt = Some ApiCall.TEXT)
                 && ApiCall.is_string fields = false).
    { apply not_true_is_false. intros [?%bool_decide_eq_true Hs]%andb_true_iff.
      apply Hnot. right; left. split; [done|].
      destruct fields as [[s|?]|]; try done. by exists s. }
    assert (H3 : bool_decide (fmt = Some ApiCall.FORM)
                 && ApiCall.truthy_fields fields
                 && negb (ApiCall.is_string fields) = false).
    { apply not_true_is_false.
      intros [[?%bool_decide_eq_true Ht]%andb_true_iff Hs]%andb_true_iff.
      apply Hnot. right; right; left. split; [done|].
      destruct fields as [[?|d]|]; try done. by exists d. }
    assert (H4 : bool_decide (fmt = None)
                 && negb (ApiCall.truthy_fields fields)
                 && bool_decide (method = ApiCall.GET) = false).
    { apply not_true_is_false.
      intros [[?%bool_decide_eq_true Ht%negb_true_iff]%andb_true_iff
              ?%bool_decide_eq_true]%andb_true_iff.
      apply Hnot. by right; right; right. }
    unfold ApiCall.apiCall_settings. rewrite H1, H2, H3, H4. by eexists.
Qed.

(** X15.  When [Api.apiCall] takes its arguments, the request it hands to
    [Api.ajax] is for [url + path]; it has the time limit of 20 seconds
    unless an upload or download progress callback was given, in which
    case it has none; and it never carries a progress [xhr] factory in a
    content script.  Outside a content script the path-traversal guard
    sees the joined url: with [../] or [/..] in it the call rejects and
    nothing is sent; otherwise exactly one request is sent. *)
Theorem apiCall_request (x : Api.Externals)
    (JSON_stringify : option ApiCall.Fields → string) (url path : string)
    (fields : option ApiCall.Fields) (fmt : option ApiCall.ReqFmt)
    (progress : option ApiCall.ProgressCbs) (headers : option (Dict string))
    (resFmt : ApiCall.ResFmt) (method : ApiCall.ReqMethod)
    (viaBg jq : Promise value) (req : ApiCall.AjaxSettings) :
  ApiCall.apiCall_settings x JSON_stringify url path fields fmt progress
                           headers resFmt method = inr req →
  let out := ApiCall.apiCall x JSON_stringify url path fields fmt progress
                             headers resFmt method viaBg jq in
  let callbacks :=
    match progress with
    | Some cbs => ApiCall.upload cbs || ApiCall.download cbs
    | None => false
    end in
  out.2 = Some req
  ∧ ApiCall.req_url req = url +:+ path
  ∧ ApiCall.timeout req = (if callbacks then None else Some 20000%Z)
  ∧ ApiCall.xhr req
    = (if callbacks && negb (Api.isContentScript x) then progress else None)
  ∧ (Api.isContentScript x = true →
     out.1 = (viaBg, [Api.ViaBackground (Some (url +:+ path))]))
  ∧ (Api.isContentScript x = false →
     (contains "../" (url +:+ path) ∨ contains "/.." (url +:+ path) →
      ∃ e, out.1 = (Rejected (ThrowErr e), [])
           ∧ Js.message e = "API path traversal forbidden: " +:+ url +:+ path)
     ∧ (¬ contains "../" (url +:+ path) → ¬ contains "/.." (url +:+ path) →
        out.1.2 = [Api.JQueryAjax (Some (url +:+ path))])).
Proof.
  intros Hreq out callbacks. subst out callbacks. unfold ApiCall.apiCall.
  rewrite Hreq.
  assert (Hfields : ApiCall.req_url req = url +:+ path
    ∧ ApiCall.timeout req
      = (if match progress with
            | Some cbs => ApiCall.upload cbs || ApiCall.download cbs
            | None => false
            end then None else Some 20000%Z)
    ∧ ApiCall.xhr req
      = (if match progress with
            | Some cbs => ApiCall.upload cbs || ApiCall.download cbs
            | None => false
            end && negb (Api.isContentScript x) then progress else None)).
  { revert Hreq. unfold ApiCall.apiCall_settings.
    match goal with
    | |- context [match ?f with inl _ => _ | inr _ => _ end] =>
        destruct f as [e|[formattedData contentType]]
    end; [done|].
    intros [= <-]. unfold ApiCall.getAjaxProgressXhrFactory.
    cbn [ApiCall.req_url ApiCall.timeout ApiCall.xhr].
    by destruct progress as [[[] []]|], (Api.isContentScript x). }
  destruct Hfields as (Hurl & Htime & Hxhr). rewrite Hurl.
  destruct (Api.ajax x (Some (url +:+ path)) (Api.stackTrace x) viaBg jq)
    as [res reqs] eqn:Hajax.
  split_and!; [done..| |].
  - intros Hcs. revert Hajax. unfold Api.ajax. rewrite Hcs. by intros [= <- <-].
  - intros Hcs. revert Hajax. unfold Api.ajax. rewrite Hcs.
    change (default "" (Some (url +:+ path))) with (url +:+ path).
    unfold Api.throwIfApiPathTraversalAttempted. split.
    + intros Hbad. rewrite <- !includes_spec, <- orb_true_iff in Hbad.
      rewrite Hbad in Hajax. injection Hajax as <- <-. by eexists.
    + intros H1 H2. rewrite <- includes_spec in H1, H2.
      apply not_true_is_false in H1, H2. rewrite H1, H2 in Hajax.
      by injection Hajax as <- <-.
Qed.

(** A [GET] whose path climbs out of the API root. *)
Lemma apiCall_request_witness :
  let x := Scenario.api_externals false in
  let url := "https://fes.example.test/api/" in
  let path := "v1/../admin" in
  let req :=
    {| ApiCall.xhr := None; ApiCall.req_url := url +:+ path;
       ApiCall.method := ApiCall.GET; ApiCall.data := ApiCall.DataUndefined;
       ApiCall.dataType := ApiCall.Res_json; ApiCall.headers := None;
       ApiCall.contentType := None; ApiCall.timeout := Some 20000%Z |} in
  let out := ApiCall.apiCall x (λ _, "{}") url path None None None None
                             ApiCall.Res_json ApiCall.GET Pending Pending in
  out.2 = Some req
  ∧ ApiCall.req_url req = url +:+ path
  ∧ ApiCall.timeout req = Some 20000%Z
  ∧ ApiCall.xhr req = None
  ∧ (Api.isContentScript x = true →
     out.1 = (Pending, [Api.ViaBackground (Some (url +:+ path))]))
  ∧ (Api.isContentScript x = false →
     (contains "../" (url +:+ path) ∨ contains "/.." (url +:+ path) →
      ∃ e, out.1 = (Rejected (ThrowErr e), [])
           ∧ Js.message e = "API path traversal forbidden: " +:+ url +:+ path)
     ∧ (¬ contains "../" (url +:+ path) → ¬ contains "/.." (url +:+ path) →
        out.1.2 = [Api.JQueryAjax (Some (url +:+ path))])).
Proof.
  exact (apiCall_request (Scenario.api_externals false) (λ _, "{}")
           "https://fes.example.test/api/" "v1/../admin" None None None None
           ApiCall.Res_json ApiCall.GET Pending Pending _ eq_refl).
Defined.

(* ===================================================================== *)
(** * Further properties of [GoogleOAuth]                                 *)
(* ===================================================================== *)

(** ** The scopes that are asked for *)

Lemma prepared_scopes_fixed (l : list string) :
  GoogleOAuth.scope_email ∈ l → GoogleOAuth.scope_openid ∈ l →
  GoogleOAuth.scope_profile ∈ l →
  GoogleOAuth.apiGoogleAuthPopupPrepareAuthReqScopes l = l.
Proof.
  intros He Ho Hp.
  unfold GoogleOAuth.apiGoogleAuthPopupPrepareAuthReqScopes,
    GoogleOAuth.list_includes.
  rewrite (bool_decide_eq_true_2 _ He), (bool_decide_eq_true_2 _ Ho).
  by rewrite (bool_decide_eq_true_2 _ Hp).
Qed.

(** X16.  [apiGoogleAuthPopupPrepareAuthReqScopes] keeps the scopes it is
    given, in their order, and appends [email], [openid] and [profile]
    where they are missing: the result always has these three, has
    nothing else that was not given, has no duplicates when the given
    scopes have none, and preparing it again changes nothing. *)
Theorem prepared_scopes (addScopes : list string) :
  let prepared := GoogleOAuth.apiGoogleAuthPopupPrepareAuthReqScopes addScopes in
  addScopes `prefix_of` prepared
  ∧ GoogleOAuth.scope_email ∈ prepared
  ∧ GoogleOAuth.scope_openid ∈ prepared
  ∧ GoogleOAuth.scope_profile ∈ prepared
  ∧ (∀ s, s ∈ prepared →
       s ∈ addScopes ∨ s = GoogleOAuth.scope_email
       ∨ s = GoogleOAuth.scope_openid ∨ s = GoogleOAuth.scope_profile)
  ∧ (NoDup addScopes → NoDup prepared)
  ∧ GoogleOAuth.apiGoogleAuthPopupPrepareAuthReqScopes prepared = prepared.
Proof.
  intros prepared.
  assert (Hstep : ∀ (s : string) (l : list string),
    let l' := if GoogleOAuth.list_includes s l then l else l ++ [s] in
    l `prefix_of` l' ∧ s ∈ l' ∧ (∀ t, t ∈ l' → t ∈ l ∨ t = s)
    ∧ (NoDup l → NoDup l')).
  { intros s l. unfold GoogleOAuth.list_includes. case_bool_decide as Hin; simpl.
    - split_and!; [done|done|by left|done].
    - split_and!.
      + by apply prefix_app_r.
      + apply elem_of_app. right. by apply list_elem_of_singleton.
      + intros t [?|?%list_elem_of_singleton]%elem_of_app; by eauto.
      + intros Hnd. apply NoDup_app. split_and!; [done| |apply NoDup_singleton].
        intros t Ht ->%list_elem_of_singleton. done. }
  subst prepared. unfold GoogleOAuth.apiGoogleAuthPopupPrepareAuthReqScopes.
  destruct (Hstep GoogleOAuth.scope_email addScopes) as (P1 & I1 & O1 & N1).
  cbv zeta in P1, I1, O1, N1.
  set (l1 := if GoogleOAuth.list_includes GoogleOAuth.scope_email addScopes
             then addScopes else addScopes ++ [GoogleOAuth.scope_email]) in *.
  destruct (Hstep GoogleOAuth.scope_openid l1) as (P2 & I2 & O2 & N2).
  cbv zeta in P2, I2, O2, N2.
  set (l2 := if GoogleOAuth.list_includes GoogleOAuth.scope_openid l1
             then l1 else l1 ++ [GoogleOAuth.scope_openid]) in *.
  destruct (Hstep GoogleOAuth.scope_profile l2) as (P3 & I3 & O3 & N3).
  cbv zeta in P3, I3, O3, N3.
  set (l3 := if GoogleOAuth.list_includes GoogleOAuth.scope_profile l2
             then l2 else l2 ++ [GoogleOAuth.scope_profile]) in *.
  assert (He : GoogleOAuth.scope_email ∈ l3).
  { destruct P3 as [k ->], P2 as [k' ->]. set_solver. }
  assert (Ho : GoogleOAuth.scope_openid ∈ l3).
  { destruct P3 as [k ->]. set_solver. }
  split_and!; [by etrans; [|etrans]|done|done|done| |tauto|].
  - intros s [[[?|?]%O1|?]%O2|?]%O3; by eauto.
  - by apply prepared_scopes_fixed.
Qed.

(** ** What a granted dialog has passed *)

Lemma missingPermissions_false (requested : list string) (allowed : string) :
  GoogleOAuth.missingPermissions requested allowed = false →
  ∀ s, s ∈ [GoogleOAuth.scope_compose; GoogleOAuth.scope_modify;
            GoogleOAuth.scope_readContacts;
            GoogleOAuth.scope_readOtherContacts] →
       s ∈ requested → contains s allowed.
Proof.
  unfold GoogleOAuth.missingPermissions, GoogleOAuth.list_includes.
  intros Hnone s Hs Hreq. apply includes_spec.
  destruct (includes s allowed) eqn:Hinc; [done|].
  assert (existsb (λ scopeToCheck,
            bool_decide (scopeToCheck ∈ requested)
            && negb (includes scopeToCheck allowed))
          [GoogleOAuth.scope_compose; GoogleOAuth.scope_modify;
           GoogleOAuth.scope_readContacts;
           GoogleOAuth.scope_readOtherContacts] = true) as Hex; [|congruence].
  apply existsb_exists. exists s. split.
  - by apply list_elem_of_In.
  - by rewrite bool_decide_eq_true_2, Hinc.
Qed.

(** X17.  [getAuthRes] answers [Success] only when the dialog returned a
    url and no error, the url parsed, every one of the four Gmail and
    contacts scopes that was requested is among the granted ones, an auth
    code came back, the state that came back is the CSRF state that was
    sent, the tokens were retrieved, and the identity token names an
    email.  The result then carries that email, which need not be the
    account that was asked for, and the identity token. *)
Theorem granted_only_after_all_checks (x : GoogleOAuth.Externals)
    (acctEmail : option string) (save : bool) (requestedScopes : list string)
    (expectedState : string) (authWindowResult : GoogleOAuth.AuthWindowResult)
    (a : GoogleOAuth.AuthRes) :
  GoogleOAuth.getAuthRes x acctEmail save requestedScopes expectedState
                         authWindowResult = Resolved a →
  GoogleOAuth.result a = GoogleOAuth.Success →
  ∃ url allowedScopes code token email,
    GoogleOAuth.aw_url authWindowResult = Some url ∧ url ≠ ""
    ∧ truthy_str (GoogleOAuth.aw_error authWindowResult) = false
    ∧ GoogleOAuth.parseAuthUrl x url
      = inr (allowedScopes, Some code, expectedState)
    ∧ code ≠ ""
    ∧ (∀ s, s ∈ [GoogleOAuth.scope_compose; GoogleOAuth.scope_modify;
                 GoogleOAuth.scope_readContacts;
                 GoogleOAuth.scope_readOtherContacts] →
            s ∈ requestedScopes → contains s allowedScopes)
    ∧ (if save then GoogleOAuth.retrieveAndSaveAuthToken x code
       else GoogleOAuth.googleAuthGetTokens x code) = Resolved token
    ∧ GoogleOAuth.parseIdToken x token = inr (Some email) ∧ email ≠ ""
    ∧ a = {| GoogleOAuth.result := GoogleOAuth.Success;
             GoogleOAuth.acctEmail := Some email;
             GoogleOAuth.id_token := Some token;
             GoogleOAuth.error := None |}.
Proof.
  unfold GoogleOAuth.getAuthRes. intros Hres Hok.
  assert (Hcatch : ∀ err,
    GoogleOAuth.result (GoogleOAuth.getAuthRes_catch x acctEmail err)
    ≠ GoogleOAuth.Success).
  { intros err. unfold GoogleOAuth.getAuthRes_catch.
    by repeat case_match. }
  destruct (truthy_str (GoogleOAuth.aw_url authWindowResult)) eqn:Hurl;
    cbn [negb] in Hres; [|by simplify_eq].
  apply truthy_str_spec in Hurl as (url & Hurl & Hne).
  destruct (truthy_str (GoogleOAuth.aw_error authWindowResult)) eqn:Herr;
    [by simplify_eq|].
  rewrite Hurl in Hres. cbn [default] in Hres.
  change (id url) with url in Hres.
  destruct (GoogleOAuth.parseAuthUrl x url)
    as [err|[[allowedScopes code] receivedState]] eqn:Hparse.
  { injection Hres as <-. by destruct (Hcatch err). }
  destruct (GoogleOAuth.missingPermissions requestedScopes allowedScopes)
    eqn:Hperm; [by simplify_eq|].
  destruct (truthy_str code) eqn:Hcode; cbn [negb] in Hres; [|by simplify_eq].
  apply truthy_str_spec in Hcode as (c & -> & Hc).
  destruct (bool_decide (receivedState = expectedState)) eqn:Hstate;
    cbn [negb] in Hres; [|by simplify_eq].
  apply bool_decide_eq_true in Hstate as ->.
  cbn [default] in Hres. change (id c) with c in Hres.
  destruct (if save then GoogleOAuth.retrieveAndSaveAuthToken x c
            else GoogleOAuth.googleAuthGetTokens x c) as [token|err|] eqn:Htok.
  2: { injection Hres as <-. by destruct (Hcatch err). }
  2: done.
  destruct (GoogleOAuth.parseIdToken x token) as [err|email] eqn:Hid.
  { injection Hres as <-. by destruct (Hcatch err). }
  destruct (truthy_str email) eqn:Hemail; cbn [negb] in Hres.
  2: { injection Hres as <-. discriminate Hok. }
  apply truthy_str_spec in Hemail as (em & -> & Hem).
  injection Hres as <-.
  exists url, allowedScopes, c, token, em.
  split_and!; try done. by apply missingPermissions_false.
Qed.

Lemma granted_only_after_all_checks_witness :
  ∃ url allowedScopes code token email,
    Some "https://www.google.com/robots.txt?code=4" = Some url ∧ url ≠ ""
    ∧ truthy_str None = false
    ∧ GoogleOAuth.parseAuthUrl (Scenario.oauth_externals "id-token") url
      = inr (allowedScopes, Some code, "CRYPTUP_STATE_csrf-00")
    ∧ code ≠ ""
    ∧ (∀ s, s ∈ [GoogleOAuth.scope_compose; GoogleOAuth.scope_modify;
                 GoogleOAuth.scope_readContacts;
                 GoogleOAuth.scope_readOtherContacts] →
            s ∈ [GoogleOAuth.scope_compose] → contains s allowedScopes)
    ∧ GoogleOAuth.retrieveAndSaveAuthToken
        (Scenario.oauth_externals "id-token") code = Resolved token
    ∧ GoogleOAuth.parseIdToken (Scenario.oauth_externals "id-token") token
      = inr (Some email) ∧ email ≠ ""
    ∧ {| GoogleOAuth.result := GoogleOAuth.Success;
         GoogleOAuth.acctEmail := Some "user@example.test";
         GoogleOAuth.id_token := Some "id-token";
         GoogleOAuth.error := None |}
      = {| GoogleOAuth.result := GoogleOAuth.Success;
           GoogleOAuth.acctEmail := Some email;
           GoogleOAuth.id_token := Some token;
           GoogleOAuth.error := None |}.
Proof.
  exact (granted_only_after_all_checks (Scenario.oauth_externals "id-token")
           (Some "someone.else@example.test") true [GoogleOAuth.scope_compose]
           "CRYPTUP_STATE_csrf-00"
           {| GoogleOAuth.aw_url :=
                Some "https://www.google.com/robots.txt?code=4";
              GoogleOAuth.aw_error := None |}
           _ eq_refl eq_refl).
Defined.

(** ** What a refused dialog returns *)

Lemma refused_dialog_never_rejects (x : GoogleOAuth.Externals) acctEmail save
    requestedScopes expectedState authWindowResult e :
  GoogleOAuth.getAuthRes x acctEmail save requestedScopes expectedState
                         authWindowResult ≠ Rejected e.
Proof. unfold GoogleOAuth.getAuthRes. by repeat case_match. Qed.

(** X18.  [getAuthRes] never rejects: whatever goes wrong on the way
    comes back as a result.  A result that is not [Success] carries the
    account that was asked for and no identity token; it is tagged
    [Error] only when the returned url could not be parsed or the CSRF
    state did not match, and [Denied] in every other case. *)
Theorem refused_dialog_keeps_the_account (x : GoogleOAuth.Externals)
    (acctEmail : option string) (save : bool) (requestedScopes : list string)
    (expectedState : string) (authWindowResult : GoogleOAuth.AuthWindowResult) :
  let res := GoogleOAuth.getAuthRes x acctEmail save requestedScopes
                                    expectedState authWindowResult in
  (∀ e, res ≠ Rejected e)
  ∧ ∀ a, res = Resolved a →
         GoogleOAuth.result a ≠ GoogleOAuth.Success →
         GoogleOAuth.acctEmail a = acctEmail
         ∧ GoogleOAuth.id_token a = None
         ∧ (GoogleOAuth.result a = GoogleOAuth.Denied
            ∨ (GoogleOAuth.result a = GoogleOAuth.Error
               ∧ (GoogleOAuth.error a
                  = Some "Could not parse URL returned from Google"
                  ∨ GoogleOAuth.error a
                    = Some "Wrong oauth CSRF token. Please try again."))).
Proof.
  intros res. subst res.
  unfold GoogleOAuth.getAuthRes, GoogleOAuth.getAuthRes_catch,
    GoogleOAuth.denied, GoogleOAuth.errored.
  split.
  - intros e. by repeat case_match.
  - intros a Hres Hnot. repeat case_match; simplify_eq; simpl in *;
      try done; eauto 6.
Qed.

(** X19.  [newAuthPopup] rejects in two cases only: no scopes were given
    and the build is neither [consumer] nor [enterprise], so that the
    default scopes cannot be told (it then rejects with
    [Error('Unknown build ...')]); or the auth window's flow itself
    rejects.  Nothing that happens after the window has answered makes it
    reject. *)
Theorem auth_popup_rejects_only (x : GoogleOAuth.Externals)
    (acctEmail : option string) (scopes : option (list string))
    (save : option bool) (e : thrown) :
  GoogleOAuth.newAuthPopup x acctEmail scopes save = Rejected e →
  (scopes = None ∧ GoogleOAuth.FLAVOR x ≠ "consumer"
   ∧ GoogleOAuth.FLAVOR x ≠ "enterprise"
   ∧ e = GoogleOAuth.new_Error x ("Unknown build " +:+ GoogleOAuth.FLAVOR x))
  ∨ ∃ url, GoogleOAuth.webAuthFlow x url = Rejected e.
Proof.
  unfold GoogleOAuth.newAuthPopup, GoogleOAuth.defaultScopes. intros Hrej.
  (* once the scopes are there, only the window's flow can reject *)
  assert (Hnever := refused_dialog_never_rejects x).
  destruct scopes as [sc|];
    [destruct (default true save)|
     case_bool_decide as Hc; [|case_bool_decide as He]].
  5: { injection Hrej as <-. by left. }
  all: right.
  all: match type of Hrej with
       | context [GoogleOAuth.webAuthFlow ?x0 ?u] =>
           destruct (GoogleOAuth.webAuthFlow x0 u) as [aw|e0|] eqn:Hflow;
             [|injection Hrej as <-; by exists u|done]
       end.
  all: match type of Hrej with
       | context [GoogleOAuth.getAuthRes ?x0 ?a ?b ?c ?d ?w] =>
           destruct (GoogleOAuth.getAuthRes x0 a b c d w) as [res|e0|] eqn:Hget;
             [|by apply Hnever in Hget|done]
       end.
  all: by repeat case_match.
Qed.

(** With no scopes given, a build of flavor [nightly] has no defaults. *)
Lemma auth_popup_rejects_only_witness :
  ((None : option (list string)) = None
   ∧ "nightly" ≠ "consumer" ∧ "nightly" ≠ "enterprise"
   ∧ GoogleOAuth.new_Error (Examples.oauth_build "nightly" Pending)
       "Unknown build nightly"
     = GoogleOAuth.new_Error (Examples.oauth_build "nightly" Pending)
         ("Unknown build " +:+ "nightly"))
  ∨ ∃ url : string, (Pending : Promise GoogleOAuth.AuthWindowResult)
           = Rejected (GoogleOAuth.new_Error
                         (Examples.oauth_build "nightly" Pending)
                         "Unknown build nightly").
Proof.
  exact (auth_popup_rejects_only (Examples.oauth_build "nightly" Pending)
           (Some "user@example.test") None None _ eq_refl).
Defined.

(* ===================================================================== *)
(** * Properties of the token functions of [GoogleOAuth]                  *)
(* ===================================================================== *)

Import Async.

(** ** Running a body statement by statement *)

Section run_steps.
Context {call : Type → Type} {output L : Type}.
Implicit Types (w : World call).

(** An awaited call followed by the rest of the body. *)
Lemma run_bind_call_inv w {A R} (c : call A) (k : A → Prog call output L R)
    (s : state w) (l : L) (r : Run w R) :
  r = run w (Bind (Call c) k) s l →
  match answer w A c s with
  | (Resolved a, s') =>
      ∃ r', r' = run w (k a) s' l
            ∧ r = {| settled := settled r';
                     trace := Ev c (Resolved a) :: trace r';
                     world := world r'; locals := locals r' |}
  | (Rejected e, s') =>
      r = {| settled := Rejected e; trace := [Ev c (Rejected e)];
             world := s'; locals := l |}
  | (Pending, s') =>
      r = {| settled := Pending; trace := [Ev c Pending]; world := s';
             locals := l |}
  end.
Proof.
  intros ->. cbn [run]. destruct (answer w A c s) as [[a|e|] s']; [|done..].
  by eexists.
Qed.

(** An awaited call whose answer is the result. *)
Lemma run_call_inv w {A} (c : call A) (s : state w) (l : L) (r : Run w A) :
  r = run w (Call c : Prog call output L A) s l →
  r = {| settled := (answer w A c s).1; trace := [Ev c (answer w A c s).1];
         world := (answer w A c s).2; locals := l |}.
Proof. intros ->. cbn [run]. by destruct (answer w A c s). Qed.

(** An output followed by the rest of the body. *)
Lemma run_bind_tell_inv w {R} (o : output) (k : unit → Prog call output L R)
    (s : state w) (l : L) (r : Run w R) :
  r = run w (Bind (Tell o) k) s l →
  ∃ r', r' = run w (k tt) s l
        ∧ r = {| settled := settled r'; trace := Told o :: trace r';
                 world := world r'; locals := locals r' |}.
Proof. intros ->. by eexists. Qed.

(** A part of the body followed by the rest. *)
Lemma run_bind_inv w {A R} (p : Prog call output L A)
    (k : A → Prog call output L R) (s : state w) (l : L) (r : Run w R) :
  r = run w (Bind p k) s l →
  ∃ rp, rp = run w p s l
    ∧ match settled rp with
      | Resolved a =>
          ∃ r', r' = run w (k a) (world rp) (locals rp)
                ∧ r = {| settled := settled r'; trace := trace rp ++ trace r';
                         world := world r'; locals := locals r' |}
      | Rejected e =>
          r = {| settled := Rejected e; trace := trace rp; world := world rp;
                 locals := locals rp |}
      | Pending =>
          r = {| settled := Pending; trace := trace rp; world := world rp;
                 locals := locals rp |}
      end.
Proof.
  intros ->. eexists. split; [done|]. cbn [run].
  destruct (settled (run w p s l)); [|done..]. by eexists.
Qed.

(** [try { p } catch (e) { h e }] *)
Lemma run_trycatch_inv w {R} (p : Prog call output L R)
    (h : thrown → Prog call output L R) (s : state w) (l : L) (r : Run w R) :
  r = run w (TryCatch p h) s l →
  ∃ rp, rp = run w p s l
    ∧ match settled rp with
      | Rejected e =>
          ∃ r', r' = run w (h e) (world rp) (locals rp)
                ∧ r = {| settled := settled r'; trace := trace rp ++ trace r';
                         world := world r'; locals := locals r' |}
      | _ => r = rp
      end.
Proof.
  intros ->. eexists. split; [done|]. cbn [run].
  destruct (settled (run w p s l)); [done| |done]. by eexists.
Qed.

End run_steps.

(** [run_call H], for [H : r = run w body s l], takes the call the body
    starts with and names its answer: three cases, and in the first [H]
    is about the rest of the body.  [run_sub H Hp] splits off a first part
    that is a function of its own, [Hp] being about that part. *)
Ltac run_call H :=
  unfold mbind, Prog_bind, mret, Prog_ret in H;
  first
  [ apply run_bind_call_inv in H;
    match type of H with
    | context [answer ?w ?A ?c ?s] =>
        let a := fresh "a" in
        let s' := fresh "s" in
        let Ha := fresh "Hanswer" in
        let r' := fresh "r" in
        destruct (answer w A c s) as [[a|a|] s'] eqn:Ha;
        [destruct H as (r' & H & ->); cbv beta in H|subst|subst]
    end
  | apply run_call_inv in H;
    match type of H with
    | context [answer ?w ?A ?c ?s] =>
        let a := fresh "a" in
        let s' := fresh "s" in
        let Ha := fresh "Hanswer" in
        destruct (answer w A c s) as [[a|a|] s'] eqn:Ha;
        cbn [fst snd] in H; subst
    end ];
  cbn [settled trace world locals] in *.

Ltac run_sub H Hp :=
  unfold mbind, Prog_bind, mret, Prog_ret in H;
  apply run_bind_inv in H;
  let rp := fresh "rp" in
  destruct H as (rp & Hp & H).

Ltac run_tell H :=
  unfold mbind, Prog_bind, mret, Prog_ret in H;
  apply run_bind_tell_inv in H;
  let r' := fresh "r" in
  destruct H as (r' & H & ->); cbv beta in H;
  cbn [settled trace world locals] in *.

(** An event of a trace that is written out. *)
Ltac ev_in :=
  solve [repeat first [apply list_elem_of_here | apply list_elem_of_further
                      | apply elem_of_app; right]].

(** ** Saving tokens *)

(** [googleAuthSaveTokens] asks nothing of the network, and writes under
    the account it is given only; when it returns, it has written to the
    account store once and put both tokens in the in-memory store. *)
Lemma save_tokens_quiet (x : GoogleOAuthTokens.Externals)
    (w : World GoogleOAuthTokens.call) (s : state w) (acctEmail : string)
    (tokensObj : GoogleOAuthTokens.GoogleAuthTokensResponse) :
  let r := run w (GoogleOAuthTokens.googleAuthSaveTokens x acctEmail tokensObj)
               s tt in
  GoogleOAuthTokens.requests (trace r) = []
  ∧ Forall (λ p, p.1.1.1 = acctEmail)
           (GoogleOAuthTokens.saved_in_memory (trace r))
  ∧ Forall (λ p, p.1 = acctEmail)
           (GoogleOAuthTokens.saved_in_account (trace r))
  ∧ (settled r = Resolved () →
     (GoogleOAuthTokens.saved_in_memory (trace r)).*1
     = [(acctEmail, GoogleOAuthTokens.ID_TOKEN,
         GoogleOAuthTokens.id_token tokensObj);
        (acctEmail, GoogleOAuthTokens.GOOGLE_TOKEN_ACCESS,
         GoogleOAuthTokens.access_token tokensObj)]
     ∧ length (GoogleOAuthTokens.saved_in_account (trace r)) = 1).
Proof.
  intros r.
  assert (Hrun : r = run w (GoogleOAuthTokens.googleAuthSaveTokens x acctEmail
                              tokensObj) s tt) by done.
  clearbody r. unfold GoogleOAuthTokens.googleAuthSaveTokens in Hrun.
  destruct (GoogleOAuthTokens.parseIdToken _ _) as [e|claims]; [by subst r|].
  repeat run_call Hrun.
  all: cbn [GoogleOAuthTokens.requests GoogleOAuthTokens.saved_in_memory
            GoogleOAuthTokens.saved_in_account omap list_omap].
  all: split_and!; [done|by repeat constructor..|done].
Qed.

(** X20.  [googleAuthSaveTokens] writes nothing when the identity token
    cannot be parsed, and never asks anything of the network.  What it
    writes, it writes under the account it is given: the identity token
    with no expiry, and the access token with an expiry of the time of
    saving plus [expires_in] seconds less two minutes; the refresh token
    is among the saved account values exactly when the response carries
    one; and the name and picture in store are kept, the claims of the
    identity token filling in where the store has none. *)
Theorem saved_tokens (x : GoogleOAuthTokens.Externals)
    (w : World GoogleOAuthTokens.call) (s : state w) (acctEmail : string)
    (tokensObj : GoogleOAuthTokens.GoogleAuthTokensResponse) :
  let r := run w (GoogleOAuthTokens.googleAuthSaveTokens x acctEmail tokensObj)
               s tt in
  (∀ e, GoogleOAuthTokens.parseIdToken x
          (GoogleOAuthTokens.id_token tokensObj) = inl e →
        settled r = Rejected e ∧ trace r = [])
  ∧ GoogleOAuthTokens.requests (trace r) = []
  ∧ (∀ a k v e, (a, k, v, e) ∈ GoogleOAuthTokens.saved_in_memory (trace r) →
       a = acctEmail
       ∧ ((k = GoogleOAuthTokens.ID_TOKEN
           ∧ v = GoogleOAuthTokens.id_token tokensObj ∧ e = None)
          ∨ (k = GoogleOAuthTokens.GOOGLE_TOKEN_ACCESS
             ∧ v = GoogleOAuthTokens.access_token tokensObj
             ∧ ∃ now, Ev GoogleOAuthTokens.Date_now (Resolved now) ∈ trace r
                 ∧ e = Some (now
                             + GoogleOAuthTokens.expires_in tokensObj * 1000
                             - 120000)%Z)))
  ∧ (∀ a values,
       (a, values) ∈ GoogleOAuthTokens.saved_in_account (trace r) →
       a = acctEmail
       ∧ dict_get "google_token_refresh" values
         = Some <$> GoogleOAuthTokens.refresh_token tokensObj
       ∧ ∃ stored claims,
           GoogleOAuthTokens.parseIdToken x
             (GoogleOAuthTokens.id_token tokensObj) = inr claims
           ∧ Ev (GoogleOAuthTokens.AcctStore_get acctEmail
                   ["full_name"; "picture"]) (Resolved stored) ∈ trace r
           ∧ dict_get "full_name" values
             = Some (GoogleOAuthTokens.or_else (dict_get "full_name" stored)
                       (GoogleOAuthTokens.name claims))
           ∧ dict_get "picture" values
             = Some (GoogleOAuthTokens.or_else (dict_get "picture" stored)
                       (GoogleOAuthTokens.picture claims)))
  ∧ (settled r = Resolved () →
     (GoogleOAuthTokens.saved_in_memory (trace r)).*1.*1
     = [(acctEmail, GoogleOAuthTokens.ID_TOKEN);
        (acctEmail, GoogleOAuthTokens.GOOGLE_TOKEN_ACCESS)]
     ∧ length (GoogleOAuthTokens.saved_in_account (trace r)) = 1).
Proof.
  intros r.
  assert (Hrun : r = run w (GoogleOAuthTokens.googleAuthSaveTokens x acctEmail
                              tokensObj) s tt) by done.
  clearbody r. unfold GoogleOAuthTokens.googleAuthSaveTokens in Hrun.
  destruct (GoogleOAuthTokens.parseIdToken _ _) as [e|claims] eqn:Hid.
  { subst r. cbn. split_and!; [by intros ? [= <-]|done
                              |by intros ? ? ? ? ?%elem_of_nil
                              |by intros ? ? ?%elem_of_nil|done]. }
  assert (Hvalues : ∀ stored,
    let values :=
      match GoogleOAuthTokens.refresh_token tokensObj with
      | Some refresh_token =>
          dict_set "google_token_refresh" (Some refresh_token)
            [("full_name",
              GoogleOAuthTokens.or_else (dict_get "full_name" stored)
                (GoogleOAuthTokens.name claims));
             ("picture",
              GoogleOAuthTokens.or_else (dict_get "picture" stored)
                (GoogleOAuthTokens.picture claims))]
      | None =>
          [("full_name",
            GoogleOAuthTokens.or_else (dict_get "full_name" stored)
              (GoogleOAuthTokens.name claims));
           ("picture",
            GoogleOAuthTokens.or_else (dict_get "picture" stored)
              (GoogleOAuthTokens.picture claims))]
      end in
    dict_get "google_token_refresh" values
    = Some <$> GoogleOAuthTokens.refresh_token tokensObj
    ∧ dict_get "full_name" values
      = Some (GoogleOAuthTokens.or_else (dict_get "full_name" stored)
                (GoogleOAuthTokens.name claims))
    ∧ dict_get "picture" values
      = Some (GoogleOAuthTokens.or_else (dict_get "picture" stored)
                (GoogleOAuthTokens.picture claims))).
  { intros stored. by destruct (GoogleOAuthTokens.refresh_token tokensObj). }
  repeat run_call Hrun.
  all: cbn [GoogleOAuthTokens.requests GoogleOAuthTokens.saved_in_memory
            GoogleOAuthTokens.saved_in_account omap list_omap].
  all: split_and!; [done|done| | |try done].
  all: try (intros ? ? ? ? Hin; repeat (apply elem_of_cons in Hin as [Hin|Hin]);
            try (by apply elem_of_nil in Hin); simplify_eq;
            (split; [done|]);
            first [by left | right; split_and!; [done|done|];
                   eexists; split; [ev_in|f_equal; lia]]).
  all: try (by intros ? ? ?%elem_of_nil).
  all: intros ? ? Hin; repeat (apply elem_of_cons in Hin as [Hin|Hin]);
    try (by apply elem_of_nil in Hin); simplify_eq;
    match goal with
    | Hs : answer _ _ (GoogleOAuthTokens.AcctStore_get _ _) _
           = (Resolved ?stored, _) |- _ =>
        destruct (Hvalues stored) as (H1 & H2 & H3);
        (split; [done|]); (split; [exact H1|]);
        exists stored, claims; split_and!; [done|ev_in|exact H2|exact H3]
    end.
Qed.

(** ** The authorization header *)

(** The part of [googleApiAuthHeader] that refreshes: it starts with the
    refresh request and makes no other; it saves under the account only;
    and when it returns a header, the token endpoint has answered with an
    access token and the header carries what the in-memory store answered
    last. *)
Lemma refresh_run (x : GoogleOAuthTokens.Externals)
    (w : World GoogleOAuthTokens.call) (s : state w) (acctEmail rt : string) :
  let r := run w (GoogleOAuthTokens.googleApiAuthHeader_refresh x acctEmail rt)
               s tt in
  ∃ a rest,
    trace r = Ev (GoogleOAuthTokens.Api_ajax GoogleOAuthTokens.AsTokens
                    (GoogleOAuthTokens.refresh_request x rt) "json") a :: rest
    ∧ GoogleOAuthTokens.requests rest = []
    ∧ Forall (λ p, p.1.1.1 = acctEmail)
             (GoogleOAuthTokens.saved_in_memory rest)
    ∧ Forall (λ p, p.1 = acctEmail)
             (GoogleOAuthTokens.saved_in_account rest)
    ∧ (∀ h, settled r = Resolved h →
         ∃ tok res, tok ≠ "" ∧ h = "Bearer " +:+ tok
           ∧ a = Resolved res ∧ GoogleOAuthTokens.access_token res ≠ ""
           ∧ last rest
             = Some (Ev (GoogleOAuthTokens.InMemoryStore_get acctEmail
                           GoogleOAuthTokens.GOOGLE_TOKEN_ACCESS)
                       (Resolved (Some tok)))).
Proof.
  intros r.
  assert (Hrun : r = run w (GoogleOAuthTokens.googleApiAuthHeader_refresh x
                              acctEmail rt) s tt) by done.
  clearbody r.
  unfold GoogleOAuthTokens.googleApiAuthHeader_refresh,
    GoogleOAuthTokens.googleAuthRefreshToken in Hrun.
  run_call Hrun; [|by eexists _, []..].
  case_bool_decide as Hacc; cbn [negb] in Hrun.
  { run_call Hrun; [subst|..]; by eexists _, [_]. }
  run_sub Hrun Hp.
  pose proof (save_tokens_quiet x w s0 acctEmail a) as Hquiet.
  cbv zeta in Hquiet. rewrite <-Hp in Hquiet. clear Hp.
  destruct Hquiet as (Hq1 & Hq2 & Hq3 & _).
  destruct (settled rp) eqn:Hs; [|subst; cbn [settled trace]; by eexists _, _..].
  destruct Hrun as (r' & Hrun & ->). cbn [settled trace].
  assert (Hobs : ∀ tl,
    GoogleOAuthTokens.requests tl = [] →
    GoogleOAuthTokens.saved_in_memory tl = [] →
    GoogleOAuthTokens.saved_in_account tl = [] →
    GoogleOAuthTokens.requests (trace rp ++ tl) = []
    ∧ Forall (λ p, p.1.1.1 = acctEmail)
             (GoogleOAuthTokens.saved_in_memory (trace rp ++ tl))
    ∧ Forall (λ p, p.1 = acctEmail)
             (GoogleOAuthTokens.saved_in_account (trace rp ++ tl))).
  { intros tl H1 H2 H3.
    unfold GoogleOAuthTokens.requests, GoogleOAuthTokens.saved_in_memory,
      GoogleOAuthTokens.saved_in_account in *.
    rewrite !omap_app, H1, H2, H3, !app_nil_r. by rewrite Hq1. }
  run_call Hrun.
  2,3: eexists _, _; split; [done|]; split_and!; [by apply Hobs..|done].
  match type of Hrun with context [truthy_str ?o] => destruct o as [tok|] end;
    cbn [truthy_str] in Hrun; [case_bool_decide as Htok; cbn [negb] in Hrun|].
  1,3: run_call Hrun; [subst|..]; cbn [run settled trace];
    (eexists _, _; split; [done|]; split_and!; [by apply Hobs..|done]).
  subst r. cbn [run settled trace].
  eexists _, _; split; [done|]. split_and!; [by apply Hobs..|].
  intros h [= <-]. exists tok, a. split_and!; [done..|]. by rewrite last_snoc.
Qed.

(** The four ways [googleApiAuthHeader] goes: no account; no refresh
    token to be read; the in-memory store asked and its answer returned;
    the refresh. *)
Lemma header_run (x : GoogleOAuthTokens.Externals)
    (w : World GoogleOAuthTokens.call) (s : state w) (acctEmail : string)
    (forceRefresh : bool) :
  let r := run w (GoogleOAuthTokens.googleApiAuthHeader x acctEmail forceRefresh)
               s tt in
  let read := GoogleOAuthTokens.AcctStore_get acctEmail
                ["google_token_refresh"] in
  let cached := GoogleOAuthTokens.InMemoryStore_get acctEmail
                  GoogleOAuthTokens.GOOGLE_TOKEN_ACCESS in
  (acctEmail = ""
   ∧ settled r = Rejected (GoogleOAuthTokens.new_Error x
                             "missing account_email in api_gmail_call")
   ∧ trace r = [])
  ∨ (acctEmail ≠ "" ∧ ∃ a0, trace r = [Ev read a0]
       ∧ match a0 with
         | Resolved storage =>
             truthy_str (dict_get "google_token_refresh" storage) = false
             ∧ settled r = Rejected (ThrowErr (GoogleOAuthTokens.GoogleAuthErr x
                 ("Account " +:+ acctEmail +:+
                  " not connected to FlowCrypt Browser Extension")))
         | Rejected e => settled r = Rejected e
         | Pending => settled r = Pending
         end)
  ∨ (acctEmail ≠ "" ∧ forceRefresh = false
     ∧ ∃ storage rt a1,
         dict_get "google_token_refresh" storage = Some rt ∧ rt ≠ ""
         ∧ trace r = [Ev read (Resolved storage); Ev cached a1]
         ∧ match a1 with
           | Resolved o =>
               ∃ tok, o = Some tok ∧ tok ≠ ""
                      ∧ settled r = Resolved ("Bearer " +:+ tok)
           | Rejected e => settled r = Rejected e
           | Pending => settled r = Pending
           end)
  ∨ (acctEmail ≠ ""
     ∧ ∃ storage rt pre s1,
         dict_get "google_token_refresh" storage = Some rt ∧ rt ≠ ""
         ∧ (forceRefresh = true ∧ pre = []
            ∨ forceRefresh = false
              ∧ ∃ o, pre = [Ev cached (Resolved o)] ∧ truthy_str o = false)
         ∧ let r' := run w (GoogleOAuthTokens.googleApiAuthHeader_refresh x
                              acctEmail rt) s1 tt in
           trace r = Ev read (Resolved storage) :: pre ++ trace r'
           ∧ settled r = settled r').
Proof.
  intros r read cached.
  assert (Hrun : r = run w (GoogleOAuthTokens.googleApiAuthHeader x acctEmail
                              forceRefresh) s tt) by done.
  clearbody r. unfold GoogleOAuthTokens.googleApiAuthHeader in Hrun.
  case_bool_decide as Hacct; [left; by subst r|right].
  run_call Hrun; [|left; split; [done|]; by eexists..].
  destruct (dict_get "google_token_refresh" a) as [rt|] eqn:Hrt;
    cbn [truthy_str negb default] in Hrun.
  2: { left. split; [done|]. subst. eexists. split; [done|].
       cbv beta iota. by rewrite Hrt. }
  case_bool_decide as Hrt0; cbn [negb] in Hrun.
  { left. split; [done|]. subst. eexists. split; [done|].
    cbv beta iota. rewrite Hrt. cbn. by rewrite bool_decide_eq_true_2. }
  right. destruct forceRefresh; cbn [negb] in Hrun.
  { right. split; [done|]. exists a, rt, [], s0. subst r0.
    split_and!; [done|done|by left|done|done]. }
  run_call Hrun.
  2,3: left; split_and!; [done..|]; eexists a, rt, _; by split_and!.
  match type of Hrun with context [truthy_str ?o] => destruct o as [tok|] eqn:Ho end;
    cbn [truthy_str default] in Hrun; [case_bool_decide as Htok; cbn [negb] in Hrun|].
  2: { left. split_and!; [done..|]. eexists a, rt, _. subst r.
       split_and!; [done..|]. by exists tok. }
  all: right; split; [done|]; eexists a, rt, [_], _; subst r;
    split_and!; [done|done|right; split; [done|]; eexists; split; [done|]|done|done].
  - cbn. by rewrite bool_decide_eq_true_2.
  - done.
Qed.

(** X21.  A header that [googleApiAuthHeader] returns is [Bearer] and a
    non-empty access token, the one that the last thing the function did,
    a read of the in-memory store under this account, was answered with:
    after a refresh too the header carries what the store gives back, not
    the response of the token endpoint.  A header is returned only for an
    account that is named and has a refresh token in the account store. *)
Theorem auth_header_is_the_stored_token (x : GoogleOAuthTokens.Externals)
    (w : World GoogleOAuthTokens.call) (s : state w) (acctEmail : string)
    (forceRefresh : bool) (h : string) :
  let r := run w (GoogleOAuthTokens.googleApiAuthHeader x acctEmail forceRefresh)
               s tt in
  settled r = Resolved h →
  acctEmail ≠ ""
  ∧ (∃ storage rt,
       head (trace r)
       = Some (Ev (GoogleOAuthTokens.AcctStore_get acctEmail
                     ["google_token_refresh"]) (Resolved storage))
       ∧ dict_get "google_token_refresh" storage = Some rt ∧ rt ≠ "")
  ∧ ∃ tok, tok ≠ "" ∧ h = "Bearer " +:+ tok
      ∧ last (trace r)
        = Some (Ev (GoogleOAuthTokens.InMemoryStore_get acctEmail
                      GoogleOAuthTokens.GOOGLE_TOKEN_ACCESS)
                  (Resolved (Some tok))).
Proof.
  cbv zeta. intros Hres.
  destruct (header_run x w s acctEmail forceRefresh)
    as [(_ & Hs & _)|[(_ & a0 & _ & H0)|[(Hacct & _ & storage & rt & a1 & Hrt
         & Hrt0 & Htr & H1)|(Hacct & storage & rt & pre & s1 & Hrt & Hrt0
         & Hpre & Htr & Hs)]]].
  - by rewrite Hs in Hres.
  - destruct a0 as [storage|e|]; [destruct H0 as [_ H0]|..];
      by rewrite H0 in Hres.
  - destruct a1 as [o|e|]; [|by rewrite H1 in Hres..].
    destruct H1 as (tok & -> & Htok & H1). rewrite H1 in Hres.
    injection Hres as <-. rewrite Htr.
    split_and!; [done|by exists storage, rt|by exists tok].
  - rewrite Hs in Hres.
    destruct (refresh_run x w s1 acctEmail rt) as (a & rest & Hr' & _ & _ & _
      & Hh).
    destruct (Hh h Hres) as (tok & res & Htok & -> & _ & _ & Hlast).
    rewrite Htr, Hr'.
    split_and!; [done|by exists storage, rt|exists tok; split_and!; [done..|]].
    rewrite app_comm_cons, last_app, last_cons, Hlast. done.
Qed.

Lemma auth_header_is_the_stored_token_witness :
  let r := run Examples.token_world
             (GoogleOAuthTokens.googleApiAuthHeader Examples.token_build
                "user@example.test" false) None tt in
  "user@example.test" ≠ ""
  ∧ (∃ storage rt,
       head (trace r)
       = Some (Ev (GoogleOAuthTokens.AcctStore_get "user@example.test"
                     ["google_token_refresh"]) (Resolved storage))
       ∧ dict_get "google_token_refresh" storage = Some rt ∧ rt ≠ "")
  ∧ ∃ tok, tok ≠ "" ∧ "Bearer ya29.fresh" = "Bearer " +:+ tok
      ∧ last (trace r)
        = Some (Ev (GoogleOAuthTokens.InMemoryStore_get "user@example.test"
                      GoogleOAuthTokens.GOOGLE_TOKEN_ACCESS)
                  (Resolved (Some tok))).
Proof.
  exact (auth_header_is_the_stored_token Examples.token_build
           Examples.token_world None "user@example.test" false
           "Bearer ya29.fresh" eq_refl).
Defined.

(** The observers of a trace, over a trace in two parts. *)
Lemma requests_app (t1 t2 : list (event GoogleOAuthTokens.call Empty_set)) :
  GoogleOAuthTokens.requests (t1 ++ t2)
  = GoogleOAuthTokens.requests t1 ++ GoogleOAuthTokens.requests t2.
Proof. apply omap_app. Qed.

Lemma saved_in_memory_app
    (t1 t2 : list (event GoogleOAuthTokens.call Empty_set)) :
  GoogleOAuthTokens.saved_in_memory (t1 ++ t2)
  = GoogleOAuthTokens.saved_in_memory t1
    ++ GoogleOAuthTokens.saved_in_memory t2.
Proof. apply omap_app. Qed.

Lemma saved_in_account_app
    (t1 t2 : list (event GoogleOAuthTokens.call Empty_set)) :
  GoogleOAuthTokens.saved_in_account (t1 ++ t2)
  = GoogleOAuthTokens.saved_in_account t1
    ++ GoogleOAuthTokens.saved_in_account t2.
Proof. apply omap_app. Qed.

(** X22.  [googleApiAuthHeader] makes at most one request, the refresh
    request with the refresh token read from the account store.  When no
    refresh is forced and the in-memory store answers the first read with
    a non-empty token, that token is returned and no request is made; a
    header returned under a forced refresh has cost exactly one request.
    Whatever is saved is saved under the account of the call, and nothing
    is saved unless the request was made. *)
Theorem auth_header_requests (x : GoogleOAuthTokens.Externals)
    (w : World GoogleOAuthTokens.call) (s : state w) (acctEmail : string)
    (forceRefresh : bool) :
  let r := run w (GoogleOAuthTokens.googleApiAuthHeader x acctEmail forceRefresh)
               s tt in
  (GoogleOAuthTokens.requests (trace r) = []
   ∨ ∃ storage rt,
       head (trace r)
       = Some (Ev (GoogleOAuthTokens.AcctStore_get acctEmail
                     ["google_token_refresh"]) (Resolved storage))
       ∧ dict_get "google_token_refresh" storage = Some rt
       ∧ GoogleOAuthTokens.requests (trace r)
         = [GoogleOAuthTokens.refresh_request x rt])
  ∧ (forceRefresh = false →
     ∀ tok, tok ≠ "" →
       head (GoogleOAuthTokens.read_in_memory (trace r))
       = Some (acctEmail, GoogleOAuthTokens.GOOGLE_TOKEN_ACCESS,
               Resolved (Some tok)) →
       settled r = Resolved ("Bearer " +:+ tok)
       ∧ GoogleOAuthTokens.requests (trace r) = [])
  ∧ (forceRefresh = true →
     ∀ h, settled r = Resolved h →
          length (GoogleOAuthTokens.requests (trace r)) = 1)
  ∧ Forall (λ p, p.1.1.1 = acctEmail)
           (GoogleOAuthTokens.saved_in_memory (trace r))
  ∧ Forall (λ p, p.1 = acctEmail)
           (GoogleOAuthTokens.saved_in_account (trace r))
  ∧ (GoogleOAuthTokens.requests (trace r) = [] →
     GoogleOAuthTokens.saved_in_memory (trace r) = []
     ∧ GoogleOAuthTokens.saved_in_account (trace r) = []).
Proof.
  cbv zeta.
  destruct (header_run x w s acctEmail forceRefresh)
    as [(_ & Hs & Htr)|[(_ & a0 & Htr & H0)|[(Hacct & Hforce & storage & rt & a1
         & Hrt & Hrt0 & Htr & H1)|(Hacct & storage & rt & pre & s1 & Hrt & Hrt0
         & Hpre & Htr & Hs)]]].
  - rewrite Htr, Hs. by split_and!; [left|..].
  - rewrite Htr. split_and!; [by left|done| |done..].
    intros _ h Hh. destruct a0 as [storage|e|]; [destruct H0 as [_ H0]|..];
      by rewrite H0 in Hh.
  - rewrite Htr. split_and!; [by left| |by rewrite Hforce|done..].
    intros _ tok Htok [= ->]. by destruct H1 as (? & [= <-] & _ & ->).
  - destruct (refresh_run x w s1 acctEmail rt)
      as (a & rest & Hr' & Hreq & Hmem & Hacc & Hh).
    assert (Hpre' : GoogleOAuthTokens.requests pre = []
                    ∧ GoogleOAuthTokens.saved_in_memory pre = []
                    ∧ GoogleOAuthTokens.saved_in_account pre = []).
    { by destruct Hpre as [[_ ->]|(_ & o & -> & _)]. }
    destruct Hpre' as (Hp1 & Hp2 & Hp3).
    rewrite Htr, Hr', Hs.
    change (?e :: pre ++ ?e' :: rest) with ([e] ++ pre ++ [e'] ++ rest).
    rewrite !requests_app, !saved_in_memory_app, !saved_in_account_app.
    rewrite Hp1, Hp2, Hp3, Hreq.
    split_and!; [right; by exists storage, rt| |done|done|done|done].
    intros Hforce tok Htok.
    destruct Hpre as [[? _]|(_ & o & -> & Ho)]; [congruence|].
    intros [= ->]. cbn in Ho. by case_bool_decide.
Qed.

(** The header under a forced refresh. *)
Lemma forced_header_run (x : GoogleOAuthTokens.Externals)
    (w : World GoogleOAuthTokens.call) (s : state w) (acctEmail : string) :
  let r := run w (GoogleOAuthTokens.googleApiAuthHeader x acctEmail true)
               s tt in
  (GoogleOAuthTokens.requests (trace r) = [] ∧ ∀ h, settled r ≠ Resolved h)
  ∨ ∃ rt, GoogleOAuthTokens.requests (trace r)
          = [GoogleOAuthTokens.refresh_request x rt]
          ∧ ∀ h, settled r = Resolved h → ∃ tok, tok ≠ "" ∧ h = "Bearer " +:+ tok.
Proof.
  cbv zeta.
  destruct (header_run x w s acctEmail true)
    as [(_ & Hs & Htr)|[(_ & a0 & Htr & H0)|[(_ & [=] & _)|(Hacct & storage
         & rt & pre & s1 & Hrt & Hrt0 & Hpre & Htr & Hs)]]].
  - left. by rewrite Htr, Hs.
  - left. rewrite Htr. split; [done|]. intros h Hh.
    destruct a0 as [storage|e|]; [destruct H0 as [_ H0]|..];
      by rewrite H0 in Hh.
  - destruct Hpre as [[_ ->]|[[=] _]].
    destruct (refresh_run x w s1 acctEmail rt)
      as (a & rest & Hr' & Hreq & _ & _ & Hh).
    right. exists rt. rewrite Htr, Hs, Hr'. split.
    + change (?e :: [] ++ ?e' :: rest) with ([e; e'] ++ rest).
      by rewrite requests_app, Hreq.
    + intros h Hres. destruct (Hh h Hres) as (tok & _ & ? & ? & _).
      by exists tok.
Qed.

(** ** One retry *)

(** X23.  [apiGoogleCallRetryAuthErrorOneTime] sends the request as it is
    given.  When that is answered, or fails with an error that is not an
    authorization error, this is the outcome and nothing else is done.
    After an authorization error it gets a header under a forced refresh
    and, if it gets one, sends the request once more with this header
    added to its headers: the requests made are then the request, the
    refresh request and the request with the header, and the outcome is
    the answer to the last, also when that is an authorization error
    again.  If no header is obtained the request is not sent again and
    the call does not return. *)
Theorem retry_once_after_auth_error (x : GoogleOAuthTokens.Externals)
    (w : World GoogleOAuthTokens.call) (s : state w) (acctEmail : string)
    (req : GoogleOAuthTokens.Ajax) :
  let r := run w (GoogleOAuthTokens.apiGoogleCallRetryAuthErrorOneTime x
                    acctEmail req) s tt in
  let first := GoogleOAuthTokens.Api_ajax GoogleOAuthTokens.AsJson req "json" in
  ∃ a1, head (trace r) = Some (Ev first a1)
    ∧ match a1 with
      | Rejected e =>
          if GoogleOAuthTokens.isAuthErr x e then
            (∃ tok rt,
               tok ≠ ""
               ∧ GoogleOAuthTokens.requests (trace r)
                 = [req; GoogleOAuthTokens.refresh_request x rt;
                    GoogleOAuthTokens.authorized x req ("Bearer " +:+ tok)]
               ∧ last (trace r)
                 = Some (Ev (GoogleOAuthTokens.Api_ajax GoogleOAuthTokens.AsJson
                               (GoogleOAuthTokens.authorized x req
                                  ("Bearer " +:+ tok)) "json")
                           (settled r)))
            ∨ ((∀ v, settled r ≠ Resolved v)
               ∧ (GoogleOAuthTokens.requests (trace r) = [req]
                  ∨ ∃ rt, GoogleOAuthTokens.requests (trace r)
                          = [req; GoogleOAuthTokens.refresh_request x rt]))
          else settled r = Rejected e ∧ trace r = [Ev first a1]
      | _ => settled r = a1 ∧ trace r = [Ev first a1]
      end.
Proof.
  intros r first.
  assert (Hrun : r = run w (GoogleOAuthTokens.apiGoogleCallRetryAuthErrorOneTime
                              x acctEmail req) s tt) by done.
  clearbody r. unfold GoogleOAuthTokens.apiGoogleCallRetryAuthErrorOneTime in Hrun.
  apply run_trycatch_inv in Hrun as (rp & Hp & Hrun).
  apply run_call_inv in Hp. fold first in Hp.
  destruct (answer w _ first s) as [a1 s1]. cbn [fst snd] in Hp. subst rp.
  cbn [settled trace world locals] in Hrun.
  exists a1. destruct a1 as [v|e|]; [by subst| |by subst].
  destruct Hrun as (r' & Hrun & ->). cbn [settled trace].
  split; [done|].
  destruct (GoogleOAuthTokens.isAuthErr x e); [|by subst].
  run_sub Hrun Hh.
  pose proof (forced_header_run x w s1 acctEmail) as Hforced.
  cbv zeta in Hforced. rewrite <-Hh in Hforced. clear Hh.
  destruct (settled rp) as [h|e'|] eqn:Hsettled.
  - destruct Hrun as (r2 & Hrun & ->). cbn [settled trace].
    apply run_call_inv in Hrun.
    destruct Hforced as [[_ Hno]|(rt & Hreq & Hh)]; [by destruct (Hno h)|].
    destruct (Hh h eq_refl) as (tok & Htok & ->).
    left. exists tok, rt. subst r2. cbn [settled trace].
    split_and!; [done| |].
    + change (?e :: trace rp ++ ?t) with ([e] ++ trace rp ++ t).
      by rewrite !requests_app, Hreq.
    + by rewrite ?app_comm_cons, ?app_assoc, last_snoc.
  - subst r'. cbn [settled trace]. right. split; [done|].
    change (?e :: trace rp) with ([e] ++ trace rp). rewrite requests_app.
    destruct Hforced as [[-> _]|(rt & -> & _)]; [by left|right; by exists rt].
  - subst r'. cbn [settled trace]. right. split; [done|].
    change (?e :: trace rp) with ([e] ++ trace rp). rewrite requests_app.
    destruct Hforced as [[-> _]|(rt & -> & _)]; [by left|right; by exists rt].
Qed.

(** ** Trading the authorization code *)

(** X24.  [retrieveAndSaveAuthToken] makes one request, the one that
    trades the code for tokens.  When the identity token of the response
    names no email address it throws [Missing email address in id_token]
    and has saved nothing.  Otherwise everything it saves is saved under
    the email address of the identity token; and when it returns, it
    returns the identity token of the response, having put this token and
    the access token of the response in the in-memory store and written
    to the account store once. *)
Theorem code_is_traded_for_saved_tokens (x : GoogleOAuthTokens.Externals)
    (w : World GoogleOAuthTokens.call) (s : state w) (authCode : string) :
  let r := run w (GoogleOAuthTokens.retrieveAndSaveAuthToken x authCode) s tt in
  ∃ a rest,
    trace r = Ev (GoogleOAuthTokens.Api_ajax GoogleOAuthTokens.AsTokens
                    (GoogleOAuthTokens.code_request x authCode) "json") a
              :: rest
    ∧ GoogleOAuthTokens.requests rest = []
    ∧ match a with
      | Resolved tokensObj =>
          match GoogleOAuthTokens.parseIdToken x
                  (GoogleOAuthTokens.id_token tokensObj) with
          | inl e => settled r = Rejected e ∧ rest = []
          | inr claims =>
              if truthy_str (GoogleOAuthTokens.email claims) then
                ∃ email, GoogleOAuthTokens.email claims = Some email
                  ∧ Forall (λ p, p.1.1.1 = email)
                           (GoogleOAuthTokens.saved_in_memory rest)
                  ∧ Forall (λ p, p.1 = email)
                           (GoogleOAuthTokens.saved_in_account rest)
                  ∧ ∀ id_token, settled r = Resolved id_token →
                      id_token = GoogleOAuthTokens.id_token tokensObj
                      ∧ (GoogleOAuthTokens.saved_in_memory rest).*1
                        = [(email, GoogleOAuthTokens.ID_TOKEN,
                            GoogleOAuthTokens.id_token tokensObj);
                           (email, GoogleOAuthTokens.GOOGLE_TOKEN_ACCESS,
                            GoogleOAuthTokens.access_token tokensObj)]
                      ∧ length (GoogleOAuthTokens.saved_in_account rest) = 1
              else
                settled r = Rejected (GoogleOAuthTokens.new_Error x
                                        "Missing email address in id_token")
                ∧ rest = []
          end
      | Rejected e => settled r = Rejected e ∧ rest = []
      | Pending => settled r = Pending ∧ rest = []
      end.
Proof.
  intros r.
  assert (Hrun : r = run w (GoogleOAuthTokens.retrieveAndSaveAuthToken x
                              authCode) s tt) by done.
  clearbody r.
  unfold GoogleOAuthTokens.retrieveAndSaveAuthToken,
    GoogleOAuthTokens.googleAuthGetTokens in Hrun.
  run_call Hrun; [|by eexists _, []..].
  eexists _, _. split; [done|]. cbv beta iota.
  destruct (GoogleOAuthTokens.parseIdToken x _) as [e|claims]; [by subst|].
  destruct (GoogleOAuthTokens.email claims) as [email|] eqn:Hemail;
    cbn [truthy_str negb] in *; [|by subst].
  case_bool_decide as Hnonempty; cbn [negb] in *; [by subst|].
  change (default "" (Some email)) with email in Hrun.
  run_sub Hrun Hsave.
  pose proof (save_tokens_quiet x w s0 email a) as Hquiet.
  cbv zeta in Hquiet. rewrite <-Hsave in Hquiet. clear Hsave.
  destruct Hquiet as (Hq1 & Hq2 & Hq3 & Hq4).
  destruct (settled rp) as [[]|e|] eqn:Hsettled.
  - destruct Hrun as (r' & -> & ->). cbn [run settled trace].
    rewrite app_nil_r. split; [done|]. exists email.
    split_and!; [done..|]. intros ? [= <-]. by destruct Hq4.
  - subst r0. cbn [settled trace]. split; [done|]. exists email. by split_and!.
  - subst r0. cbn [settled trace]. split; [done|]. exists email. by split_and!.
Qed.

(* ===================================================================== *)
(** * Properties of the pass phrase dialog                                *)
(* ===================================================================== *)

Section run_locals.

Context {call : Type → Type} {output L : Type}.
Implicit Types (w : World call).

Lemma run_bind_get w {R} (k : L → Prog call output L R) (s : state w) (l : L) :
  run w (Bind Get k) s l = run w (k l) s l.
Proof. cbn [run settled trace world locals app]. by destruct (run w (k l) s l). Qed.

Lemma run_bind_put w {R} (l' : L) (k : unit → Prog call output L R)
    (s : state w) (l : L) :
  run w (Bind (Put l') k) s l = run w (k tt) s l'.
Proof. cbn [run settled trace world locals app]. by destruct (run w (k tt) s l'). Qed.

Lemma run_bind_ret w {A R} (a : A) (k : A → Prog call output L R)
    (s : state w) (l : L) :
  run w (Bind (Ret a) k) s l = run w (k a) s l.
Proof. cbn [run settled trace world locals app]. by destruct (run w (k a) s l). Qed.

Lemma run_bind_assoc w {A B R} (p : Prog call output L A)
    (k1 : A → Prog call output L B) (k2 : B → Prog call output L R)
    (s : state w) (l : L) :
  run w (Bind (Bind p k1) k2) s l = run w (Bind p (λ a, Bind (k1 a) k2)) s l.
Proof.
  cbn [run settled trace world locals].
  destruct (settled (run w p s l)); cbn [settled trace world locals]; [|done..].
  destruct (settled (run w (k1 _) _ _));
    cbn [settled trace world locals]; by rewrite ?app_assoc.
Qed.

End run_locals.

Section passphrase.

Context {Key : Type}.
Implicit Types (w : World (PassphraseView.call Key)).
Implicit Types (t : list (event (PassphraseView.call Key) PassphraseView.output)).

Lemma stores_app t1 t2 :
  PassphraseView.stores (t1 ++ t2)
  = PassphraseView.stores t1 ++ PassphraseView.stores t2.
Proof. apply omap_app. Qed.

Lemma outputs_app t1 t2 :
  PassphraseView.outputs (t1 ++ t2)
  = PassphraseView.outputs t1 ++ PassphraseView.outputs t2.
Proof. apply omap_app. Qed.

Lemma matched_app v t1 t2 :
  PassphraseView.matched v (t1 ++ t2)
  = PassphraseView.matched v t1 || PassphraseView.matched v t2.
Proof. unfold PassphraseView.matched. by rewrite stores_app, existsb_app. Qed.

(** One turn of the loop. *)
Lemma key_run (x : PassphraseView.Externals) (v : PassphraseView.View)
    (pass : string) (st : PassphraseView.StorageType)
    (ki : PassphraseView.KeyInfo) w (s : state w) (l0 : PassphraseView.Locals) :
  let r := run w (PassphraseView.submitHandler_key x v pass st ki) s l0 in
  PassphraseView.unlockCount (locals r)
  = PassphraseView.unlockCount l0 + length (PassphraseView.stores (trace r))
  ∧ PassphraseView.atLeastOneMatched (locals r)
    = PassphraseView.atLeastOneMatched l0 || PassphraseView.matched v (trace r)
  ∧ PassphraseView.outputs (trace r)
    = match st with
      | PassphraseView.session =>
          replicate
            (length (filter (λ e, PassphraseView.stored e)
                            (PassphraseView.stores (trace r))))
            (PassphraseView.BrowserMsg_send_addEndSessionBtn
               (PassphraseView.parentTabId v))
      | PassphraseView.local => []
      end
  ∧ Forall (λ e, e = (st, PassphraseView.acctEmail v, ki, pass, e.2)
                 ∧ ∃ prv,
                     Ev (PassphraseView.KeyUtil_parse
                           (PassphraseView.private ki)) (Resolved prv)
                     ∈ trace r
                     ∧ Ev (PassphraseView.KeyUtil_decrypt prv pass)
                          (Resolved true) ∈ trace r)
           (PassphraseView.stores (trace r)).
Proof.
  intros r.
  assert (Hrun : r = run w (PassphraseView.submitHandler_key x v pass st ki)
                       s l0) by done.
  clearbody r. unfold PassphraseView.submitHandler_key in Hrun.
  run_call Hrun.
  2,3: cbn; split_and!; [lia|by rewrite orb_false_r|by destruct st|done].
  unfold mbind, Prog_bind, mret, Prog_ret in Hrun.
  apply run_trycatch_inv in Hrun as (rp & Hp & Hrun).
  assert (Hhandler : ∀ (e : thrown) (r' : Run w ()) s' l',
    r' = run w (PassphraseView.submitHandler_catch x v ki e) s' l' →
    locals r' = l' ∧ PassphraseView.stores (trace r') = []
    ∧ PassphraseView.outputs (trace r') = []).
  { intros e r' s' l' Hr'. unfold PassphraseView.submitHandler_catch in Hr'.
    destruct e as [err|val]; [case_bool_decide|];
      [apply run_call_inv in Hr'|..]; by subst r'. }
  run_call Hp.
  - match type of Hp with context [if ?b then _ else _] => destruct b end.
    2: { subst. cbn in *. subst. cbn.
         split_and!; [lia|by rewrite orb_false_r|by destruct st|done]. }
    rewrite run_bind_get, run_bind_put in Hp.
    run_call Hp.
    + case_bool_decide as Hlong;
      rewrite ?run_bind_assoc, ?run_bind_get, ?run_bind_put, ?run_bind_ret in Hp;
      destruct st; subst; cbn [run settled trace world locals] in *; subst; cbn.
      all: rewrite ?bool_decide_eq_true_2, ?bool_decide_eq_false_2 by done.
      all: split_and!; [lia|by rewrite ?orb_true_r, ?orb_false_r|done|].
      all: repeat constructor; eexists; split; ev_in.
    + destruct Hrun as (r' & Hrun & ->).
      destruct (Hhandler _ _ _ _ Hrun) as (Hl & Hs & Ho).
      cbn [settled trace world locals] in *.
      rewrite !app_comm_cons, stores_app, outputs_app, matched_app, Hs, Ho, Hl.
      unfold PassphraseView.matched. rewrite Hs. cbn.
      split_and!; [lia|by rewrite ?orb_true_r, ?orb_false_r|by destruct st|].
      repeat constructor; eexists; split; ev_in.
    + subst. cbn [settled trace world locals] in *. subst. cbn.
      split_and!; [lia|by rewrite ?orb_true_r, ?orb_false_r|by destruct st|].
      repeat constructor; eexists; split; ev_in.
  - destruct Hrun as (r' & Hrun & ->).
    destruct (Hhandler _ _ _ _ Hrun) as (Hl & Hs & Ho).
    cbn [settled trace world locals] in *.
    rewrite !app_comm_cons, stores_app, outputs_app, matched_app, Hs, Ho, Hl.
    unfold PassphraseView.matched. rewrite Hs. cbn.
    split_and!; [lia|by rewrite ?orb_true_r, ?orb_false_r|by destruct st|done].
  - subst. cbn.
    split_and!; [lia|by rewrite ?orb_true_r, ?orb_false_r|by destruct st|done].
Qed.

(** The loop. *)
Lemma loop_run (x : PassphraseView.Externals) (v : PassphraseView.View)
    (pass : string) (st : PassphraseView.StorageType)
    (keys : list PassphraseView.KeyInfo) w (s : state w)
    (l0 : PassphraseView.Locals) :
  let r := run w (for_of keys (PassphraseView.submitHandler_key x v pass st))
               s l0 in
  PassphraseView.unlockCount (locals r)
  = PassphraseView.unlockCount l0 + length (PassphraseView.stores (trace r))
  ∧ PassphraseView.atLeastOneMatched (locals r)
    = PassphraseView.atLeastOneMatched l0 || PassphraseView.matched v (trace r)
  ∧ PassphraseView.outputs (trace r)
    = match st with
      | PassphraseView.session =>
          replicate
            (length (filter (λ e, PassphraseView.stored e)
                            (PassphraseView.stores (trace r))))
            (PassphraseView.BrowserMsg_send_addEndSessionBtn
               (PassphraseView.parentTabId v))
      | PassphraseView.local => []
      end
  ∧ Forall (λ e, e = (st, PassphraseView.acctEmail v, e.1.1.2, pass, e.2)
                 ∧ e.1.1.2 ∈ keys
                 ∧ ∃ prv,
                     Ev (PassphraseView.KeyUtil_parse
                           (PassphraseView.private e.1.1.2)) (Resolved prv)
                     ∈ trace r
                     ∧ Ev (PassphraseView.KeyUtil_decrypt prv pass)
                          (Resolved true) ∈ trace r)
           (PassphraseView.stores (trace r)).
Proof.
  revert s l0. induction keys as [|ki keys IH]; intros s l0 r.
  { cbn. split_and!; [lia|by rewrite orb_false_r|by destruct st|done]. }
  assert (Hrun : r = run w (for_of (ki :: keys)
                              (PassphraseView.submitHandler_key x v pass st))
                       s l0) by done.
  clearbody r. cbn [for_of] in Hrun.
  run_sub Hrun Hkey.
  pose proof (key_run x v pass st ki w s l0) as Hk. cbv zeta in Hk.
  rewrite <-Hkey in Hk. clear Hkey. destruct Hk as (Hk1 & Hk2 & Hk3 & Hk4).
  assert (Hk4' : Forall (λ e, e = (st, PassphraseView.acctEmail v, e.1.1.2,
                                   pass, e.2)
                 ∧ e.1.1.2 ∈ ki :: keys
                 ∧ ∃ prv,
                     Ev (PassphraseView.KeyUtil_parse
                           (PassphraseView.private e.1.1.2)) (Resolved prv)
                     ∈ trace rp
                     ∧ Ev (PassphraseView.KeyUtil_decrypt prv pass)
                          (Resolved true) ∈ trace rp)
           (PassphraseView.stores (trace rp))).
  { eapply Forall_impl; [exact Hk4|]. intros e [He Hprv]. rewrite He. cbn.
    split_and!; [done|by left|done]. }
  destruct (settled rp) as [[]|e|]; [|by subst..].
  destruct Hrun as (r' & Hrun & ->).
  specialize (IH (world rp) (locals rp)). cbv zeta in IH. rewrite <-Hrun in IH.
  clear Hrun. destruct IH as (IH1 & IH2 & IH3 & IH4).
  cbn [settled trace world locals].
  rewrite stores_app, outputs_app, matched_app, filter_app, !length_app.
  split_and!.
  - lia.
  - by rewrite IH2, Hk2, orb_assoc.
  - rewrite Hk3, IH3. destruct st; [|done]. by rewrite replicate_add.
  - apply Forall_app. split.
    + eapply Forall_impl; [exact Hk4'|]. intros e (? & ? & prv & ? & ?).
      split_and!; [done..|]. exists prv. split; apply elem_of_app; by left.
    + eapply Forall_impl; [exact IH4|]. intros e (? & ? & prv & ? & ?).
      split_and!; [done|by right|]. exists prv.
      split; apply elem_of_app; by right.
Qed.

(** What is sent out only. *)
Lemma stores_told (os : list PassphraseView.output) :
  PassphraseView.stores
    ((Told <$> os) : list (event (PassphraseView.call Key) _)) = [].
Proof. by induction os. Qed.

Lemma outputs_told (os : list PassphraseView.output) :
  PassphraseView.outputs
    ((Told <$> os) : list (event (PassphraseView.call Key) _)) = os.
Proof. induction os as [|o os IH]; [done|]. cbn. f_equal. exact IH. Qed.

(** [submitHandler] around its loop: it gets the keys, runs the loop and,
    when the loop ends, sends the toast and the outcome. *)
Lemma submit_with_run (x : PassphraseView.Externals) (v : PassphraseView.View)
    (pass : string) (st : PassphraseView.StorageType) w
    (s : state w) (l : PassphraseView.Locals) :
  let r := run w (PassphraseView.submitHandler_with x v pass st) s l in
  (PassphraseView.stores (trace r) = [] ∧ PassphraseView.outputs (trace r) = []
   ∧ ∀ u, settled r ≠ Resolved u)
  ∨ ∃ keys s1 post,
      let get := Ev (PassphraseView.KeyStore_get (PassphraseView.acctEmail v))
                    (Resolved keys) in
      let rl := run w (for_of keys
                         (PassphraseView.submitHandler_key x v pass st)) s1
                  {| PassphraseView.atLeastOneMatched := false;
                     PassphraseView.unlockCount := 0 |} in
      trace r = get :: trace rl ++ (Told <$> post)
      ∧ match settled rl with
        | Resolved _ =>
            settled r = Resolved ()
            ∧ post
              = (if negb (PassphraseView.unlockCount (locals rl) =? 0)
                    && (1 <? length keys)
                 then [PassphraseView.Ui_toast
                         (PassphraseView.toast_text
                            (PassphraseView.unlockCount (locals rl))
                            (length keys))]
                 else [])
                ++ (if PassphraseView.atLeastOneMatched (locals rl)
                    then [PassphraseView.BrowserMsg_send_closeDialog
                            (PassphraseView.parentTabId v);
                          PassphraseView.BrowserMsg_send_passphraseEntry
                            "broadcast" true
                            (PassphraseView.initiatorFrameId v)]
                    else [PassphraseView.jq_val "#passphrase" "";
                          PassphraseView.jq_css "#passphrase" "border-color"
                            "red";
                          PassphraseView.jq_css "#passphrase" "color" "red";
                          PassphraseView.jq_attr "#passphrase" "placeholder"
                            "Please try again";
                          PassphraseView.Catch_setHandledTimeout
                            PassphraseView.call_renderNormalPpPrompt 1500])
        | Rejected e => settled r = Rejected e ∧ post = []
        | Pending => settled r = Pending ∧ post = []
        end.
Proof.
  intros r.
  assert (Hrun : r = run w (PassphraseView.submitHandler_with x v pass st) s l)
    by done.
  clearbody r. unfold PassphraseView.submitHandler_with in Hrun.
  unfold mbind, Prog_bind, mret, Prog_ret in Hrun.
  rewrite run_bind_put in Hrun.
  run_call Hrun; [|by left..].
  right. exists a, s0. run_sub Hrun Hloop. rewrite <-Hloop. clear Hloop.
  destruct (settled rp) as [[]|e|].
  2,3: exists []; subst; cbn [settled trace]; by rewrite app_nil_r.
  destruct Hrun as (r' & Hrun & ->). cbn [settled trace].
  rewrite run_bind_get in Hrun.
  destruct (negb _ && _).
  - run_tell Hrun.
    destruct (PassphraseView.atLeastOneMatched (locals rp)).
    + unfold PassphraseView.closeDialog in Hrun. subst.
      eexists [_; _; _]. by cbn.
    + unfold PassphraseView.renderFailedEntryPpPrompt in Hrun.
      unfold mbind, Prog_bind, mret, Prog_ret in Hrun.
      rewrite !run_bind_assoc in Hrun. repeat run_tell Hrun. subst.
      eexists [_; _; _; _; _; _]. by cbn.
  - rewrite run_bind_ret in Hrun.
    destruct (PassphraseView.atLeastOneMatched (locals rp)).
    + unfold PassphraseView.closeDialog in Hrun. subst.
      eexists [_; _]. by cbn.
    + unfold PassphraseView.renderFailedEntryPpPrompt in Hrun.
      unfold mbind, Prog_bind, mret, Prog_ret in Hrun.
      rewrite !run_bind_assoc in Hrun. repeat run_tell Hrun. subst.
      eexists [_; _; _; _; _]. by cbn.
Qed.

(** [submitHandler] up to where the pass phrase and the storage type are
    fixed. *)
Lemma submit_run (x : PassphraseView.Externals) (v : PassphraseView.View) w
    (s : state w) (l : PassphraseView.Locals) :
  let r := run w (PassphraseView.submitHandler x v) s l in
  (PassphraseView.stores (trace r) = [] ∧ PassphraseView.outputs (trace r) = []
   ∧ ∀ u, settled r ≠ Resolved u)
  ∨ ∃ pass st pre s1,
      let r1 := run w (PassphraseView.submitHandler_with x v pass st) s1 l in
      trace r = pre ++ trace r1 ∧ settled r = settled r1
      ∧ PassphraseView.stores pre = [] ∧ PassphraseView.outputs pre = []
      ∧ Ev PassphraseView.passphrase_val (Resolved pass) ∈ pre
      ∧ match st with
        | PassphraseView.session =>
            Ev PassphraseView.forget_checked (Resolved true) ∈ pre
            ∨ Ev PassphraseView.forbidStoringPassPhrase (Resolved true) ∈ pre
        | PassphraseView.local =>
            Ev PassphraseView.forget_checked (Resolved false) ∈ pre
            ∧ Ev PassphraseView.forbidStoringPassPhrase (Resolved false) ∈ pre
        end.
Proof.
  intros r.
  assert (Hrun : r = run w (PassphraseView.submitHandler x v) s l) by done.
  clearbody r. unfold PassphraseView.submitHandler in Hrun.
  run_call Hrun; [|by left..].
  run_call Hrun; [|by left..].
  match type of Hrun with context [if ?b then _ else _] => destruct b end.
  - rewrite run_bind_ret in Hrun. right.
    eexists a, PassphraseView.session, [_; _], _. cbv zeta. rewrite <-Hrun.
    split_and!; [done..|ev_in|left; ev_in].
  - run_call Hrun; [|by left..]. right.
    match type of Hrun with
    | context [if ?b then PassphraseView.session else _] => destruct b
    end.
    + eexists a, PassphraseView.session, [_; _; _], _. cbv zeta.
      rewrite <-Hrun. split_and!; [done..|ev_in|right; ev_in].
    + eexists a, PassphraseView.local, [_; _; _], _. cbv zeta.
      rewrite <-Hrun. split_and!; try done; ev_in.
Qed.

(** X25.  [submitHandler] hands a pass phrase to [PassphraseStore.set] only
    for a key of the account that this pass phrase has just decrypted:
    every such call is for the account of the dialog, with the pass phrase
    read from the field, for one of the keys [KeyStore.get] returned, after
    [KeyUtil.decrypt] answered [true] for that key and this pass phrase.
    The storage type is [session] when the box to forget the pass phrase
    is ticked or the configuration forbids storing it, and [local] when
    neither is so. *)
Theorem pass_phrase_stored_for_decrypted_keys (x : PassphraseView.Externals)
    (v : PassphraseView.View) w (s : state w) (l : PassphraseView.Locals)
    (st : PassphraseView.StorageType) (acct : string)
    (ki : PassphraseView.KeyInfo) (pp : string) (a : Promise ()) :
  let r := run w (PassphraseView.submitHandler x v) s l in
  (st, acct, ki, pp, a) ∈ PassphraseView.stores (trace r) →
  acct = PassphraseView.acctEmail v
  ∧ Ev PassphraseView.passphrase_val (Resolved pp) ∈ trace r
  ∧ (∃ keys, Ev (PassphraseView.KeyStore_get (PassphraseView.acctEmail v))
                (Resolved keys) ∈ trace r
             ∧ ki ∈ keys)
  ∧ (∃ prv, Ev (PassphraseView.KeyUtil_parse (PassphraseView.private ki))
               (Resolved prv) ∈ trace r
            ∧ Ev (PassphraseView.KeyUtil_decrypt prv pp) (Resolved true)
              ∈ trace r)
  ∧ match st with
    | PassphraseView.session =>
        Ev PassphraseView.forget_checked (Resolved true) ∈ trace r
        ∨ Ev PassphraseView.forbidStoringPassPhrase (Resolved true) ∈ trace r
    | PassphraseView.local =>
        Ev PassphraseView.forget_checked (Resolved false) ∈ trace r
        ∧ Ev PassphraseView.forbidStoringPassPhrase (Resolved false) ∈ trace r
    end.
Proof.
  cbv zeta.
  destruct (submit_run x v w s l)
    as [(-> & _)|(pass & st' & pre & s1 & Htr & _ & Hpre & _ & Hpass & Hst)];
    [by intros ?%elem_of_nil|].
  rewrite Htr, stores_app, Hpre, app_nil_l. clear Htr.
  destruct (submit_with_run x v pass st' w s1 l)
    as [(-> & _)|(keys & s2 & post & Htr & _)]; [by intros ?%elem_of_nil|].
  rewrite Htr. clear Htr.
  change (?e :: ?t ++ ?t') with ([e] ++ t ++ t').
  rewrite !stores_app, stores_told, app_nil_r. cbn [PassphraseView.stores omap
    list_omap app].
  intros Hin.
  destruct (loop_run x v pass st' keys w s2
              {| PassphraseView.atLeastOneMatched := false;
                 PassphraseView.unlockCount := 0 |}) as (_ & _ & _ & Hall).
  rewrite Forall_forall in Hall.
  destruct (Hall _ Hin) as ([= -> -> ->] & Hkey & prv & Hparse & Hdecrypt).
  cbn in Hkey, Hparse.
  split_and!.
  - done.
  - apply elem_of_app. by left.
  - exists keys. split; [|done]. apply elem_of_app. right. by left.
  - exists prv. split; apply elem_of_app; right; apply elem_of_cons; right;
      apply elem_of_app; by left.
  - destruct st'; [destruct Hst; [left|right]|destruct Hst; split];
      apply elem_of_app; by left.
Qed.

(** X26.  When [submitHandler] returns, what it has sent out is, in this
    order: one [addEndSessionBtn] to the parent tab for every key whose
    pass phrase went into session storage, and none for local storage; a
    toast when at least one call of [PassphraseStore.set] was made and the
    account has more than one key, counting the calls made, also those for
    keys the dialog was not opened for; and then either [closeDialog] and
    [passphraseEntry] with [entered: true] and the frame that asked, when
    the pass phrase is in store for a key the dialog was opened for, or
    else the red prompt and the timeout that resets it, and no message. *)
Theorem submit_outcome (x : PassphraseView.Externals)
    (v : PassphraseView.View) w (s : state w) (l : PassphraseView.Locals) :
  let r := run w (PassphraseView.submitHandler x v) s l in
  settled r = Resolved () →
  ∃ keys st,
    Ev (PassphraseView.KeyStore_get (PassphraseView.acctEmail v))
       (Resolved keys) ∈ trace r
    ∧ Forall (λ e, e.1.1.1.1 = st) (PassphraseView.stores (trace r))
    ∧ let n := length (PassphraseView.stores (trace r)) in
      PassphraseView.outputs (trace r)
      = match st with
        | PassphraseView.session =>
            replicate
              (length (filter (λ e, PassphraseView.stored e)
                              (PassphraseView.stores (trace r))))
              (PassphraseView.BrowserMsg_send_addEndSessionBtn
                 (PassphraseView.parentTabId v))
        | PassphraseView.local => []
        end
        ++ (if negb (n =? 0) && (1 <? length keys)
            then [PassphraseView.Ui_toast
                    (PassphraseView.toast_text n (length keys))]
            else [])
        ++ (if PassphraseView.matched v (trace r)
            then [PassphraseView.BrowserMsg_send_closeDialog
                    (PassphraseView.parentTabId v);
                  PassphraseView.BrowserMsg_send_passphraseEntry
                    "broadcast" true (PassphraseView.initiatorFrameId v)]
            else [PassphraseView.jq_val "#passphrase" "";
                  PassphraseView.jq_css "#passphrase" "border-color" "red";
                  PassphraseView.jq_css "#passphrase" "color" "red";
                  PassphraseView.jq_attr "#passphrase" "placeholder"
                    "Please try again";
                  PassphraseView.Catch_setHandledTimeout
                    PassphraseView.call_renderNormalPpPrompt 1500]).
Proof.
  cbv zeta.
  destruct (submit_run x v w s l)
    as [(_ & _ & Hno)|(pass & st & pre & s1 & Htr & Hs & Hpre & Hpre' & _)];
    [by intros ?%Hno|].
  rewrite Hs, Htr. clear Hs Htr.
  destruct (submit_with_run x v pass st w s1 l)
    as [(_ & _ & Hno)|(keys & s2 & post & Htr & Hpost)]; [by intros ?%Hno|].
  cbv zeta in Hpost. rewrite Htr. clear Htr. intros Hres.
  destruct (loop_run x v pass st keys w s2
              {| PassphraseView.atLeastOneMatched := false;
                 PassphraseView.unlockCount := 0 |})
    as (Hcount & Hmatched & Hout & Hall).
  cbn [PassphraseView.atLeastOneMatched PassphraseView.unlockCount orb
       Nat.add] in Hcount, Hmatched.
  destruct (settled _) as [[]|e|];
    [destruct Hpost as [_ ->]|by destruct Hpost as [Hpost _];
                                 rewrite Hpost in Hres..].
  exists keys, st.
  change (?e :: ?t ++ ?t') with ([e] ++ t ++ t').
  rewrite !matched_app, !stores_app, !outputs_app, stores_told, outputs_told,
    Hpre, Hpre', !app_nil_r.
  unfold PassphraseView.matched at 1 2 4. rewrite stores_told, Hpre.
  cbn [PassphraseView.stores PassphraseView.outputs omap list_omap app existsb
       orb].
  rewrite orb_false_r, Hout, <-Hmatched, <-Hcount.
  split_and!; [apply elem_of_app; right; by left| |done].
  eapply Forall_impl; [exact Hall|]. by intros e [-> _].
Qed.

(** X27.  When [submitHandler] does not return, because a call it awaits
    fails or is never answered (only a failure of decrypting or storing
    with the message [Unknown s2k type.] is caught), the dialog stays as
    it is: nothing has been sent out but [addEndSessionBtn] messages for
    pass phrases already stored; no toast, no [closeDialog], no
    [passphraseEntry], and the prompt is not turned red. *)
Theorem failed_submit_leaves_dialog_open (x : PassphraseView.Externals)
    (v : PassphraseView.View) w (s : state w) (l : PassphraseView.Locals) :
  let r := run w (PassphraseView.submitHandler x v) s l in
  settled r ≠ Resolved () →
  ∃ n, n ≤ length (filter (λ e, PassphraseView.stored e)
                          (PassphraseView.stores (trace r)))
       ∧ PassphraseView.outputs (trace r)
         = replicate n (PassphraseView.BrowserMsg_send_addEndSessionBtn
                          (PassphraseView.parentTabId v)).
Proof.
  cbv zeta.
  destruct (submit_run x v w s l)
    as [(_ & -> & _)|(pass & st & pre & s1 & Htr & Hs & Hpre & Hpre' & _)];
    [exists 0; split; [lia|done]|].
  rewrite Hs, Htr. clear Hs Htr.
  destruct (submit_with_run x v pass st w s1 l)
    as [(Hst & Hout & _)|(keys & s2 & post & Htr & Hpost)].
  { intros _. exists 0. split; [lia|].
    by rewrite outputs_app, Hpre', Hout. }
  cbv zeta in Hpost. rewrite Htr. clear Htr. intros Hres.
  destruct (loop_run x v pass st keys w s2
              {| PassphraseView.atLeastOneMatched := false;
                 PassphraseView.unlockCount := 0 |})
    as (_ & _ & Hout & _).
  destruct (settled _) as [[]|e|];
    [by destruct Hpost as [? _]|destruct Hpost as [_ ->]..].
  all: change (?e :: ?t ++ ?t') with ([e] ++ t ++ t').
  all: rewrite !stores_app, !outputs_app, Hpre, Hpre', Hout, !app_nil_r.
  all: cbn [PassphraseView.stores PassphraseView.outputs omap list_omap app].
  all: destruct st; [eexists; split; [|done]; lia|exists 0; split; [lia|done]].
Qed.
End passphrase.

Lemma pass_phrase_stored_for_decrypted_keys_witness :
  let r := run (Examples.dialog_world (Resolved false))
             (PassphraseView.submitHandler Examples.dialog_build
                Examples.dialog) () Examples.no_locals in
  "user@example.test" = PassphraseView.acctEmail Examples.dialog
  ∧ Ev PassphraseView.passphrase_val (Resolved "correct horse") ∈ trace r
  ∧ (∃ keys, Ev (PassphraseView.KeyStore_get
                   (PassphraseView.acctEmail Examples.dialog))
                (Resolved keys) ∈ trace r
             ∧ Examples.key1 ∈ keys)
  ∧ (∃ prv, Ev (PassphraseView.KeyUtil_parse
                  (PassphraseView.private Examples.key1))
               (Resolved prv) ∈ trace r
            ∧ Ev (PassphraseView.KeyUtil_decrypt prv "correct horse")
                 (Resolved true) ∈ trace r)
  ∧ (Ev PassphraseView.forget_checked (Resolved true) ∈ trace r
     ∨ Ev PassphraseView.forbidStoringPassPhrase (Resolved true) ∈ trace r).
Proof.
  apply (pass_phrase_stored_for_decrypted_keys Examples.dialog_build
           Examples.dialog (Examples.dialog_world (Resolved false)) ()
           Examples.no_locals PassphraseView.session "user@example.test"
           Examples.key1 "correct horse" (Resolved ())).
  vm_compute. apply list_elem_of_here.
Defined.

Lemma submit_outcome_witness :
  let r := run (Examples.dialog_world (Resolved false))
             (PassphraseView.submitHandler Examples.dialog_build
                Examples.dialog) () Examples.no_locals in
  ∃ keys st,
    Ev (PassphraseView.KeyStore_get "user@example.test") (Resolved keys)
    ∈ trace r
    ∧ Forall (λ e, e.1.1.1.1 = st) (PassphraseView.stores (trace r))
    ∧ PassphraseView.outputs (trace r)
      = match st with
        | PassphraseView.session =>
            replicate
              (length (filter (λ e, PassphraseView.stored e)
                              (PassphraseView.stores (trace r))))
              (PassphraseView.BrowserMsg_send_addEndSessionBtn "tab-1")
        | PassphraseView.local => []
        end
        ++ (if negb (length (PassphraseView.stores (trace r)) =? 0)
               && (1 <? length keys)
            then [PassphraseView.Ui_toast
                    (PassphraseView.toast_text
                       (length (PassphraseView.stores (trace r)))
                       (length keys))]
            else [])
        ++ (if PassphraseView.matched Examples.dialog (trace r)
            then [PassphraseView.BrowserMsg_send_closeDialog "tab-1";
                  PassphraseView.BrowserMsg_send_passphraseEntry
                    "broadcast" true (Some "frame-7")]
            else [PassphraseView.jq_val "#passphrase" "";
                  PassphraseView.jq_css "#passphrase" "border-color" "red";
                  PassphraseView.jq_css "#passphrase" "color" "red";
                  PassphraseView.jq_attr "#passphrase" "placeholder"
                    "Please try again";
                  PassphraseView.Catch_setHandledTimeout
                    PassphraseView.call_renderNormalPpPrompt 1500]).
Proof.
  exact (submit_outcome Examples.dialog_build Examples.dialog
           (Examples.dialog_world (Resolved false)) () Examples.no_locals
           eq_refl).
Defined.

Lemma failed_submit_leaves_dialog_open_witness :
  let r := run (Examples.dialog_world (Rejected (ThrowVal (VStr "locked"))))
             (PassphraseView.submitHandler Examples.dialog_build
                Examples.dialog) () Examples.no_locals in
  ∃ n, n ≤ length (filter (λ e, PassphraseView.stored e)
                          (PassphraseView.stores (trace r)))
       ∧ PassphraseView.outputs (trace r)
         = replicate n (PassphraseView.BrowserMsg_send_addEndSessionBtn
                          "tab-1").
Proof.
  apply (failed_submit_leaves_dialog_open Examples.dialog_build Examples.dialog
           (Examples.dialog_world (Rejected (ThrowVal (VStr "locked")))) ()
           Examples.no_locals).
  vm_compute. discriminate.
Defined.
